(** * mind11: session flow of the journaling application

    A shallow embedding of the application core of the repository:

    - [dataService]  (src/unnamed/part_000): the hash, the user store and the
      conversation store kept in the browser's localStorage;
    - [geminiService] (src/unnamed/part_001): the four operations of the AI
      coach gateway;
    - [StudentView.tsx]: the handler [handleSendMessage] of the chat view;
    - [TeacherView.tsx]: the mood meter dashboard.

    JavaScript strings are sequences of UTF-16 code units and are modelled as
    lists of integers.  The external text provider, the clock, the Unicode
    case mappings and [JSON.parse] are inputs of the model. *)

From Stdlib Require Import ZArith List Bool Lia String Ascii DecimalString.
From Stdlib Require Import DecimalZ Sorted Permutation.
Import ListNotations.
Local Open Scope Z_scope.

(* ===================================================================== *)
(** ** JavaScript strings and numbers *)
(* ===================================================================== *)

Module Js.

(** A string is its sequence of UTF-16 code units ([charCodeAt]). *)
Definition JsString := list Z.

(** An ASCII literal of the source, as code units. *)
Definition lit (s : string) : JsString :=
  map (fun a => Z.of_N (N_of_ascii a)) (list_ascii_of_string s).

Fixpoint eqb (a b : JsString) : bool :=
  match a, b with
  | [], [] => true
  | x :: a', y :: b' => (x =? y) && eqb a' b'
  | _, _ => false
  end.

(** [WhiteSpace] and [LineTerminator] code units, the ones
    [String.prototype.trim] removes. *)
Definition isWhiteSpace (c : Z) : bool :=
  ((9 <=? c) && (c <=? 13)) || (c =? 32) || (c =? 160) || (c =? 5760)
  || ((8192 <=? c) && (c <=? 8202)) || (c =? 8232) || (c =? 8233)
  || (c =? 8239) || (c =? 8287) || (c =? 12288) || (c =? 65279).

Fixpoint trimStart (s : JsString) : JsString :=
  match s with
  | c :: s' => if isWhiteSpace c then trimStart s' else s
  | [] => []
  end.

Definition trim (s : JsString) : JsString :=
  rev (trimStart (rev (trimStart s))).

(** Truthiness of a string: the empty string is falsy. *)
Definition truthy (s : JsString) : bool :=
  match s with [] => false | _ => true end.

(** [ToInt32]: wrap to a signed 32-bit integer. *)
Definition toInt32 (z : Z) : Z := (z + 2^31) mod 2^32 - 2^31.

(** [Number.prototype.toString] on an integer: its decimal digits. *)
Definition toString (z : Z) : JsString :=
  lit (NilZero.string_of_int (Z.to_int z)).

(** [Array.prototype.includes] on an array of strings. *)
Definition includes (l : list JsString) (s : JsString) : bool :=
  existsb (eqb s) l.

(** [Array.prototype.findIndex]; [None] stands for -1. *)
Fixpoint findIndex {A} (p : A -> bool) (l : list A) : option nat :=
  match l with
  | [] => None
  | x :: l' => if p x then Some O else option_map S (findIndex p l')
  end.

(** Assignment to the element at an index that is in range. *)
Fixpoint updateAt {A} (i : nat) (f : A -> A) (l : list A) : list A :=
  match l, i with
  | [], _ => []
  | x :: l', O => f x :: l'
  | x :: l', S i' => x :: updateAt i' f l'
  end.

Definition isDigit (c : Z) : bool := (48 <=? c) && (c <=? 57).

(** A number, by what the program can observe of it: that it is zero (the
    falsy number), its decimal writing [Number.prototype.toString] when it
    is finite and not zero, or that it is infinite ([JSON.parse] returns
    Infinity for a literal that is too large). *)
Inductive JsNumber :=
| Zero
| Finite (digits : JsString)
| Infinite (negative : bool).

(** The values [JSON.parse] returns.  An object is the list of its own
    properties, each key once. *)
#[warnings="-register-all"]
Inductive Json :=
| JNull
| JBool (b : bool)
| JNumber (x : JsNumber)
| JString (s : JsString)
| JArray (items : list Json)
| JObject (props : list (JsString * Json)).

(** A value read from a property: it may be [undefined]. *)
Inductive JsValue :=
| Undefined
| Value (v : Json).

(** Truthiness: null, false, zero and the empty string are falsy. *)
Definition truthyJson (v : Json) : bool :=
  match v with
  | JNull => false
  | JBool b => b
  | JNumber Zero => false
  | JNumber _ => true
  | JString s => truthy s
  | JArray _ => true
  | JObject _ => true
  end.

(** The own property [k] of an object. *)
Fixpoint getOwn (k : JsString) (props : list (JsString * Json)) : option Json :=
  match props with
  | [] => None
  | (k', v) :: props' => if eqb k k' then Some v else getOwn k props'
  end.

Definition numberToString (x : JsNumber) : JsString :=
  match x with
  | Zero => lit "0"
  | Finite digits => digits
  | Infinite false => lit "Infinity"
  | Infinite true => lit "-Infinity"
  end.

(** [ToString], as a template literal applies it; [None] stands for the
    TypeError it throws.  An array is joined with commas, null elements
    giving the empty string.  An object without an own [toString] property
    gives "[object Object]"; with one (never callable in a value that
    [JSON.parse] returned) no conversion to a primitive exists. *)
Fixpoint toStringJson (v : Json) : option JsString :=
  match v with
  | JNull => Some (lit "null")
  | JBool true => Some (lit "true")
  | JBool false => Some (lit "false")
  | JNumber x => Some (numberToString x)
  | JString s => Some s
  | JArray items =>
      (fix joinItems (l : list Json) : option JsString :=
         match l with
         | [] => Some []
         | x :: l' =>
             match (match x with JNull => Some [] | _ => toStringJson x end),
                   joinItems l' with
             | Some s, Some rest =>
                 Some (match l' with [] => s | _ => s ++ [44] ++ rest end)
             | _, _ => None
             end
         end) items
  | JObject props =>
      match getOwn (lit "toString") props with
      | Some _ => None
      | None => Some (lit "[object Object]")
      end
  end.

(** [ToString] of a value that may be undefined. *)
Definition toStringValue (v : JsValue) : option JsString :=
  match v with
  | Undefined => Some (lit "undefined")
  | Value j => toStringJson j
  end.

(** What [JSON.parse] reads back from what [JSON.stringify] wrote of a
    value: an infinite number is written as null, everything else comes
    back as it was. *)
Fixpoint jsonRoundTrip (v : Json) : Json :=
  match v with
  | JNumber (Infinite _) => JNull
  | JArray items => JArray (map jsonRoundTrip items)
  | JObject props => JObject (map (fun p => (fst p, jsonRoundTrip (snd p))) props)
  | _ => v
  end.

(** The names of the properties of [Object.prototype], which every object
    inherits: functions, and for [__proto__] the prototype itself. *)
Definition objectPrototypeNames : list JsString :=
  [lit "constructor"; lit "hasOwnProperty"; lit "isPrototypeOf";
   lit "propertyIsEnumerable"; lit "toLocaleString"; lit "toString";
   lit "valueOf"; lit "__proto__"; lit "__defineGetter__";
   lit "__defineSetter__"; lit "__lookupGetter__"; lit "__lookupSetter__"].

(** An array index: the canonical decimal writing of an integer from 0 to
    2^32 - 2. *)
Definition arrayIndex (k : JsString) : option Z :=
  match k with
  | [] => None
  | c :: rest =>
      if forallb isDigit k
         && (negb (c =? 48) || match rest with [] => true | _ => false end)
      then
        let n := fold_left (fun a d => 10 * a + (d - 48)) k 0 in
        if n <=? 4294967294 then Some n else None
      else None
  end.

Fixpoint insertAscending {A} (n : Z) (e : A) (l : list (Z * A)) : list (Z * A) :=
  match l with
  | [] => [(n, e)]
  | (n', e') :: l' =>
      if n <=? n' then (n, e) :: l else (n', e') :: insertAscending n e l'
  end.

(** The own properties of an object in the order [for...in],
    [Object.entries] and [JSON.stringify] enumerate them: the keys that are
    array indices first, in ascending numeric order, then the other keys in
    the order in which they were created.  The argument lists the
    properties in creation order. *)
Definition entries {A} (m : list (JsString * A)) : list (JsString * A) :=
  map snd
      (fold_right (fun p acc => match arrayIndex (fst p) with
                                | Some n => insertAscending n p acc
                                | None => acc
                                end) [] m)
  ++ filter (fun p => match arrayIndex (fst p) with
                      | Some _ => false
                      | None => true
                      end) m.

(** The property that the assignment [o[k] = v] creates on an object
    literal [o] without the property [k]: for the name [__proto__] the
    setter of [Object.prototype] runs instead, which makes the object [v]
    the prototype of [o] and creates no property. *)
Definition created {A} (k : JsString) (v : A) : list (JsString * A) :=
  if eqb k (lit "__proto__") then [] else [(k, v)].

End Js.
Import Js.

(** What a call yields: a value, or a thrown error. *)
Inductive Error :=
| DuplicateName        (* signupUser: the name is already in use *)
| InvalidCredentials   (* loginUser: name or password is wrong *)
| CredentialMissing    (* getAI: no API key is set *)
| ChatError            (* getChatResponse: generic failure *)
| FinalChatError       (* getFinalChatResponse: generic failure *)
| SummaryError         (* getFinalSummary: generic failure *)
| ProviderFailure      (* generateContent rejected *)
| TypeError            (* a property of undefined or null was read, a value
                          that is not iterable was spread, a method that
                          does not exist was called, a value has no
                          conversion to a string *)
| SyntaxError.         (* JSON.parse rejected its input *)

Inductive outcome (A : Type) :=
| Ok (a : A)
| Throw (e : Error).
Arguments Ok {A} a.
Arguments Throw {A} e.

(* ===================================================================== *)
(** ** types.ts *)
(* ===================================================================== *)

Record User := mkUser { name : JsString; passwordHash : JsString }.

Inductive Sender := user | ai.

Record Message := mkMessage { sender : Sender; text : JsString }.

Record FinalSummary := mkSummary { mood : JsString; message : JsString }.

(** The field [summary] is declared as a [FinalSummary]; it holds whatever
    [JSON.parse] returned for the answer of the provider, and the field
    [mood] of a [StudentMood] whatever the property [mood] of that value
    is. *)
Record Conversation := mkConversation {
  id : JsString;
  timestamp : Z;
  messages : list Message;
  summary : Json
}.

Record StudentMood := mkStudentMood {
  sm_name : JsString;
  sm_mood : JsValue;
  sm_quadrant : JsString;
  sm_timestamp : Z
}.

(** A [FinalSummary] as a value. *)
Definition summaryValue (s : FinalSummary) : Json :=
  JObject [(lit "mood", JString (mood s)); (lit "message", JString (message s))].

(* ===================================================================== *)
(** ** dataService *)
(* ===================================================================== *)

(** [simpleHash]: the loop body is [hash = (hash << 5) - hash + char]
    followed by [hash |= 0]. *)
Definition simpleHash_step (hash char : Z) : Z :=
  toInt32 (toInt32 (Z.shiftl hash 5) - hash + char).

Definition simpleHash (s : JsString) : JsString :=
  toString (fold_left simpleHash_step s 0).

(** A JavaScript object used as a map from names to conversation lists:
    its own properties in the order in which they were created, each key
    once.  [entries] gives the order in which they are enumerated. *)
Definition ConvMap := list (JsString * list Conversation).

Fixpoint lookup (k : JsString) (m : ConvMap) : option (list Conversation) :=
  match m with
  | [] => None
  | (k', v) :: m' => if eqb k k' then Some v else lookup k m'
  end.

Fixpoint assign (k : JsString) (v : list Conversation) (m : ConvMap) : ConvMap :=
  match m with
  | [] => [(k, v)]
  | (k', v') :: m' => if eqb k k' then (k', v) :: m' else (k', v') :: assign k v m'
  end.

(** What [allConvos[userName]] evaluates to: the own property; else, for a
    name that [Object.prototype] defines, the inherited one (a function or
    the prototype, never an array); else undefined. *)
Inductive Member :=
| Own (cs : list Conversation)
| Inherited
| Missing.

Definition member (k : JsString) (m : ConvMap) : Member :=
  match lookup k m with
  | Some cs => Own cs
  | None => if includes objectPrototypeNames k then Inherited else Missing
  end.

(** The part of localStorage and sessionStorage the claims are about; a
    key that was never written is [None].  The items hold JSON texts and
    are modelled by the values the texts denote. *)
Record Storage := mkStorage {
  ls_users : option (list User);
  ls_conversations : option ConvMap;
  ss_currentUser : option User
}.

Definition emptyStorage : Storage := mkStorage None None None.

Definition getAllUsers (st : Storage) : list User :=
  match ls_users st with Some us => us | None => [] end.

Definition saveUsers (us : list User) (st : Storage) : Storage :=
  mkStorage (Some us) (ls_conversations st) (ss_currentUser st).

Definition getAllConversations (st : Storage) : ConvMap :=
  match ls_conversations st with Some m => m | None => [] end.

(** A conversation as it is read back once written as JSON. *)
Definition written (c : Conversation) : Conversation :=
  mkConversation (id c) (timestamp c) (messages c) (jsonRoundTrip (summary c)).

(** [JSON.stringify] writes the properties in the order of their
    enumeration, and [JSON.parse] creates them in the order of the text. *)
Definition saveAllConversations (m : ConvMap) (st : Storage) : Storage :=
  mkStorage (ls_users st)
            (Some (map (fun p => (fst p, map written (snd p))) (entries m)))
            (ss_currentUser st).

(** What [getConversations] returns: [allConvos[userName] || []] is a list
    of conversations, or the member of [Object.prototype] of that name. *)
Inductive Conversations :=
| ConversationList (cs : list Conversation)
| PrototypeMember.

Definition getConversations (userName : JsString) (st : Storage) : Conversations :=
  match member userName (getAllConversations st) with
  | Own cs => ConversationList cs
  | Inherited => PrototypeMember
  | Missing => ConversationList []
  end.

(** [saveConversation]: spreading [userConvos] throws when it is a member
    of the prototype, before anything is written. *)
Definition saveConversation (userName : JsString) (conversation : Conversation)
    (st : Storage) : outcome unit * Storage :=
  let allConvos := getAllConversations st in
  match getConversations userName st with
  | ConversationList userConvos =>
      (Ok tt,
       saveAllConversations (assign userName (userConvos ++ [conversation]) allConvos) st)
  | PrototypeMember => (Throw TypeError, st)
  end.

Section Accounts.

(** [String.prototype.toLowerCase]: the Unicode case mapping is an input
    of the model. *)
Variable toLowerCase : JsString -> JsString.

(** The comparison both [signupUser] and [loginUser] use. *)
Definition sameNameCI (n : JsString) (u : User) : bool :=
  eqb (toLowerCase (name u)) (toLowerCase n).

Definition signupUser (n password : JsString) (st : Storage)
  : outcome User * Storage :=
  let users := getAllUsers st in
  if existsb (sameNameCI n) users then (Throw DuplicateName, st)
  else
    let newUser := mkUser n (simpleHash password) in
    (Ok newUser, saveUsers (users ++ [newUser]) st).

Definition loginUser (n password : JsString) (st : Storage)
  : outcome User * Storage :=
  let users := getAllUsers st in
  match find (sameNameCI n) users with
  | None => (Throw InvalidCredentials, st)
  | Some u =>
      if negb (eqb (passwordHash u) (simpleHash password))
      then (Throw InvalidCredentials, st)
      else (Ok u, mkStorage (ls_users st) (ls_conversations st) (Some u))
  end.

Definition resetStudentPassword (n : JsString) (st : Storage) : Storage :=
  let users := getAllUsers st in
  match findIndex (fun u => eqb (name u) n) users with
  | Some userIndex =>
      saveUsers
        (updateAt userIndex (fun u => mkUser (name u) (simpleHash (lit "0000"))) users)
        st
  | None => st
  end.

End Accounts.

(** The case mapping restricted to ASCII letters, for concrete runs. *)
Definition asciiLower (s : JsString) : JsString :=
  map (fun c => if (65 <=? c) && (c <=? 90) then c + 32 else c) s.

Definition asciiUpper (s : JsString) : JsString :=
  map (fun c => if (97 <=? c) && (c <=? 122) then c - 32 else c) s.

(* ===================================================================== *)
(** ** geminiService *)
(* ===================================================================== *)

Inductive Role := RoleUser | RoleModel.

Record Content := mkContent { role : Role; parts : list JsString }.

Inductive Model := Gemini25Pro | Gemini25Flash.

(** The two system instructions of the chat: ask one open question, or
    say a closing remark without a question. *)
Inductive Instruction := AskOpenQuestion | SayClosingRemark.

(** A request to [ai.models.generateContent].  The fixed prompt texts are
    represented by the constructor, the variable part is the argument. *)
Inductive Request :=
| ChatRequest (model : Model) (contents : list Content) (systemInstruction : Instruction)
| SummaryRequest (transcript : JsString)
| QuadrantRequest (moodText : JsString).

(** The entry points of the gateway. *)
Inductive Call :=
| GetChatResponse (history : list Message)
| GetFinalChatResponse (history : list Message)
| GetFinalSummary (history : list Message)
| GetMoodMeterQuadrant (mood : JsValue).

(** What is observed of the gateway: an entry point was called, a request
    was sent to the provider. *)
Inductive Event :=
| Called (c : Call)
| Sent (r : Request).

(** What the provider does with a request: it rejects (network failure),
    or it answers with a response whose [text] may be undefined. *)
Inductive ProviderResult :=
| Rejected
| Response (responseText : option JsString).

(** The environment of one handler run: the API key [getApiKey] returns,
    the provider (its answer may depend on how much has been observed so
    far) and the successive readings of [Date.now]. *)
Record Env := mkEnv {
  apiKey : option JsString;
  provider : nat -> Request -> ProviderResult;
  now : nat -> Z
}.

(** Computations of the gateway: they may throw, and they extend the log
    of events. *)
Definition Gateway (A : Type) : Type := list Event -> outcome A * list Event.

Definition ret {A} (a : A) : Gateway A := fun log => (Ok a, log).

Definition throw {A} (e : Error) : Gateway A := fun log => (Throw e, log).

Definition bind {A B} (m : Gateway A) (k : A -> Gateway B) : Gateway B :=
  fun log =>
    match m log with
    | (Ok a, log') => k a log'
    | (Throw e, log') => (Throw e, log')
    end.

Definition tryCatch {A} (m : Gateway A) (handler : Error -> Gateway A) : Gateway A :=
  fun log =>
    match m log with
    | (Ok a, log') => (Ok a, log')
    | (Throw e, log') => handler e log'
    end.

Definition emit (ev : Event) : Gateway unit := fun log => (Ok tt, log ++ [ev]).

Declare Scope gateway_scope.
Delimit Scope gateway_scope with gateway.
Notation "x <- m ;; k" := (bind m (fun x => k))
  (at level 61, m at next level, right associativity) : gateway_scope.
Notation "m ;; k" := (bind m (fun _ => k))
  (at level 61, right associativity) : gateway_scope.
Local Open Scope gateway_scope.

(** [Promise.all] over computations that were all started: every one runs,
    the result is the first rejection if there is one. *)
Fixpoint promiseAll {A} (ms : list (Gateway A)) : Gateway (list A) :=
  fun log =>
    match ms with
    | [] => (Ok [], log)
    | m :: ms' =>
        let (r, log1) := m log in
        let (rs, log2) := promiseAll ms' log1 in
        (match r, rs with
         | Throw e, _ => Throw e
         | Ok _, Throw e => Throw e
         | Ok a, Ok l => Ok (a :: l)
         end, log2)
    end.

Definition getAI (env : Env) : Gateway unit :=
  match apiKey env with
  | Some k => if truthy k then ret tt else throw CredentialMissing
  | None => throw CredentialMissing
  end.

Definition generateContent (env : Env) (req : Request) : Gateway (option JsString) :=
  fun log =>
    match provider env (List.length log) req with
    | Response t => (Ok t, log ++ [Sent req])
    | Rejected => (Throw ProviderFailure, log ++ [Sent req])
    end.

(** [response.text.trim()]: reading [trim] of undefined throws. *)
Definition textTrim (t : option JsString) : Gateway JsString :=
  match t with
  | Some s => ret (trim s)
  | None => throw TypeError
  end.

Definition buildChatHistory (history : list Message) : list Content :=
  map (fun m => mkContent
                  (match sender m with user => RoleUser | ai => RoleModel end)
                  [text m])
      history.

Definition getChatResponse (env : Env) (history : list Message) : Gateway JsString :=
  emit (Called (GetChatResponse history)) ;;
  getAI env ;;
  let contents := buildChatHistory history in
  tryCatch
    (response <- generateContent env (ChatRequest Gemini25Pro contents AskOpenQuestion) ;;
     textTrim response)
    (fun _ => throw ChatError).

Definition getFinalChatResponse (env : Env) (history : list Message) : Gateway JsString :=
  emit (Called (GetFinalChatResponse history)) ;;
  getAI env ;;
  let contents := buildChatHistory history in
  tryCatch
    (response <- generateContent env (ChatRequest Gemini25Pro contents SayClosingRemark) ;;
     textTrim response)
    (fun _ => throw FinalChatError).

(** [Array.prototype.join] with a separator. *)
Fixpoint join (sep : JsString) (l : list JsString) : JsString :=
  match l with
  | [] => []
  | [s] => s
  | s :: l' => s ++ sep ++ join sep l'
  end.

(** The transcript inside the summary prompt: one line per message, the
    speaker written as U+B098 for the user and U+CF54 U+CE58 for the coach. *)
Definition transcript (history : list Message) : JsString :=
  join [10]
       (map (fun m => (match sender m with user => [45208] | ai => [53076; 52824] end)
                        ++ lit ": " ++ text m)
            history).

(** The four labels of [MoodMeterQuadrant]. *)
Definition YELLOW : JsString := lit "YELLOW".
Definition RED : JsString := lit "RED".
Definition BLUE : JsString := lit "BLUE".
Definition GREEN : JsString := lit "GREEN".
Definition quadrants : list JsString := [YELLOW; RED; BLUE; GREEN].

(** The template literal of the classification prompt applied to the
    argument [mood]: [ToString], which is the identity on a string. *)
Definition interpolate (v : JsValue) : Gateway JsString :=
  match toStringValue v with
  | Some s => ret s
  | None => throw TypeError
  end.

Section Gateway.

(** [String.prototype.toUpperCase] and [JSON.parse] ([None] when it throws
    a SyntaxError): inputs of the model. *)
Variable toUpperCase : JsString -> JsString.
Variable JSON_parse : JsString -> option Json.

(** [JSON.parse(response.text.trim()) as FinalSummary]: the cast checks
    nothing, every value [JSON.parse] returns is returned. *)
Definition getFinalSummary (env : Env) (history : list Message) : Gateway Json :=
  emit (Called (GetFinalSummary history)) ;;
  getAI env ;;
  let prompt := transcript history in
  tryCatch
    (response <- generateContent env (SummaryRequest prompt) ;;
     t <- textTrim response ;;
     match JSON_parse t with
     | Some v => ret v
     | None => throw SyntaxError
     end)
    (fun _ => throw SummaryError).

(** The prompt is built after [getAI] and before the [try] block. *)
Definition getMoodMeterQuadrant (env : Env) (mood : JsValue) : Gateway JsString :=
  emit (Called (GetMoodMeterQuadrant mood)) ;;
  getAI env ;;
  moodText <- interpolate mood ;;
  tryCatch
    (response <- generateContent env (QuadrantRequest moodText) ;;
     t <- textTrim response ;;
     let quadrant := toUpperCase t in
     if includes quadrants quadrant then ret quadrant
     else ret BLUE)
    (fun _ => ret BLUE).

End Gateway.

(* ===================================================================== *)
(** ** StudentView.tsx: the chat view *)
(* ===================================================================== *)

Definition MAX_TURNS : Z := 5.

Module ChatView.

(** The state hooks of the component.  [error] is [None] for the empty
    string; [finalSummary] is null until a summary is set. *)
Record ChatState := mkChat {
  messages : list Message;
  userInput : JsString;
  isAITyping : bool;
  turnCount : Z;
  isConversationOver : bool;
  finalSummary : Json;
  error : option Error
}.

Definition setMessages (v : list Message) (s : ChatState) : ChatState :=
  mkChat v (userInput s) (isAITyping s) (turnCount s) (isConversationOver s)
         (finalSummary s) (error s).
Definition setUserInput (v : JsString) (s : ChatState) : ChatState :=
  mkChat (messages s) v (isAITyping s) (turnCount s) (isConversationOver s)
         (finalSummary s) (error s).
Definition setIsAITyping (v : bool) (s : ChatState) : ChatState :=
  mkChat (messages s) (userInput s) v (turnCount s) (isConversationOver s)
         (finalSummary s) (error s).
Definition setTurnCount (v : Z) (s : ChatState) : ChatState :=
  mkChat (messages s) (userInput s) (isAITyping s) v (isConversationOver s)
         (finalSummary s) (error s).
Definition setIsConversationOver (v : bool) (s : ChatState) : ChatState :=
  mkChat (messages s) (userInput s) (isAITyping s) (turnCount s) v
         (finalSummary s) (error s).
Definition setFinalSummary (v : Json) (s : ChatState) : ChatState :=
  mkChat (messages s) (userInput s) (isAITyping s) (turnCount s)
         (isConversationOver s) v (error s).
Definition setError (v : option Error) (s : ChatState) : ChatState :=
  mkChat (messages s) (userInput s) (isAITyping s) (turnCount s)
         (isConversationOver s) (finalSummary s) v.

(** The welcome message, with the name of the user between the two fixed
    parts of the template. *)
Definition greetingHead : JsString :=
  [50504; 45397; 54616; 49464; 50836; 44; 32].
Definition greetingTail : JsString :=
  [45784; 33; 32; 51200; 45716; 32; 46384; 46907; 54620; 32; 47560; 51020;
   32; 53076; 52824; 50696; 50836; 46; 10; 50724; 45720; 32; 50612; 46500;
   32; 51068; 51060; 32; 51080; 50632; 45208; 50836; 63; 32; 54200; 54616;
   44172; 32; 51060; 50556; 44592; 54644; 51452; 49464; 50836; 46].

Definition greeting (u : User) : Message :=
  mkMessage ai (greetingHead ++ name u ++ greetingTail).

(** The component once mounted and its first effect has run. *)
Definition initialChat (u : User) : ChatState :=
  mkChat [greeting u] [] false 0 false JNull None.

Section Handler.

Variable JSON_parse : JsString -> option Json.

(** One run of [handleSendMessage], from the click to the [finally]
    block.  While the handler awaits, [isAITyping] is set and a second
    run returns at its guard, so a run is one step. *)
Definition handleSendMessage (env : Env) (u : User) (s : ChatState)
    (st : Storage) (log : list Event) : ChatState * Storage * list Event :=
  if negb (truthy (trim (userInput s))) || isAITyping s || isConversationOver s
  then (s, st, log)
  else
    let newUserMessage := mkMessage user (userInput s) in
    let newHistory := messages s ++ [newUserMessage] in
    let s1 := setIsAITyping true
                (setUserInput [] (setMessages newHistory (setError None s))) in
    let newTurnCount := turnCount s + 1 in
    match (if newTurnCount =? MAX_TURNS
           then getFinalChatResponse env newHistory
           else getChatResponse env newHistory) log with
    | (Throw e, log1) =>
        (setIsAITyping false (setError (Some e) s1), st, log1)
    | (Ok aiResponseText, log1) =>
        let newAiMessage := mkMessage ai aiResponseText in
        let finalHistory := newHistory ++ [newAiMessage] in
        let s2 := setTurnCount newTurnCount (setMessages finalHistory s1) in
        if newTurnCount >=? MAX_TURNS then
          let s3 := setIsAITyping true (setIsConversationOver true s2) in
          match getFinalSummary JSON_parse env finalHistory log1 with
          | (Throw e, log2) =>
              (setIsAITyping false (setError (Some e) s3), st, log2)
          | (Ok summary, log2) =>
              let s4 := setFinalSummary summary s3 in
              let conversation :=
                mkConversation (lit "conv_" ++ toString (now env 0))
                               (now env 1) finalHistory summary in
              match saveConversation (name u) conversation st with
              | (Throw e, st') =>
                  (setIsAITyping false (setError (Some e) s4), st', log2)
              | (Ok _, st') => (setIsAITyping false s4, st', log2)
              end
          end
        else (setIsAITyping false s2, st, log1)
    end.

(** The user types [input] and sends it. *)
Definition send (env : Env) (u : User) (input : JsString) (s : ChatState)
    (st : Storage) (log : list Event) : ChatState * Storage * list Event :=
  handleSendMessage env u (setUserInput input s) st log.

End Handler.

(** The states of the conversation, as the view shows them. *)
Definition inProgress (s : ChatState) : Prop :=
  isAITyping s = false /\ isConversationOver s = false.

(** The view shows the summary card and the button back to the dashboard,
    and no input, when [finalSummary] is truthy. *)
Definition complete (s : ChatState) : Prop :=
  truthyJson (finalSummary s) = true.

End ChatView.

(* ===================================================================== *)
(** ** TeacherView.tsx: the mood meter dashboard *)
(* ===================================================================== *)

(** [conversations.sort((a, b) => b.timestamp - a.timestamp)]: the stable
    sort by decreasing timestamp. *)
Fixpoint insertDesc (c : Conversation) (l : list Conversation) : list Conversation :=
  match l with
  | [] => [c]
  | x :: l' => if timestamp x <=? timestamp c then c :: l else x :: insertDesc c l'
  end.

Definition sortDesc (l : list Conversation) : list Conversation :=
  fold_right insertDesc [] l.

(** [latestConv.summary.mood]: reading a property of null throws; a value
    that is not an object, or an object without the property, gives
    undefined. *)
Definition moodOf (summary : Json) : outcome JsValue :=
  match summary with
  | JNull => Throw TypeError
  | JObject props =>
      Ok (match getOwn (lit "mood") props with
          | Some v => Value v
          | None => Undefined
          end)
  | _ => Ok Undefined
  end.

(** The loop over the stored conversations that fills [latestMoods], given
    the properties of [allConversations] as [for...in] enumerates them: the
    properties of the object [latestMoods] in the order in which the loop
    creates them. *)
Fixpoint latestMoods (allConversations : ConvMap)
  : outcome (list (JsString * (JsValue * Z))) :=
  match allConversations with
  | [] => Ok []
  | (studentName, conversations) :: rest =>
      match sortDesc conversations with
      | latestConv :: _ =>
          match moodOf (summary latestConv) with
          | Throw e => Throw e
          | Ok mood =>
              match latestMoods rest with
              | Throw e => Throw e
              | Ok l =>
                  Ok (created studentName (mood, timestamp latestConv) ++ l)
              end
          end
      | [] => latestMoods rest
      end
  end.

(** The four buckets [moodsByQuadrant] returns. *)
Record Buckets := mkBuckets {
  bYELLOW : list StudentMood;
  bRED : list StudentMood;
  bBLUE : list StudentMood;
  bGREEN : list StudentMood
}.

Definition bucket (q : JsString) (b : Buckets) : option (list StudentMood) :=
  if eqb q YELLOW then Some (bYELLOW b)
  else if eqb q RED then Some (bRED b)
  else if eqb q BLUE then Some (bBLUE b)
  else if eqb q GREEN then Some (bGREEN b)
  else None.

(** [result[mood.quadrant].push(mood)]: a type error when the label is not
    a key of [result]. *)
Definition push (m : StudentMood) (b : Buckets) : outcome Buckets :=
  let q := sm_quadrant m in
  if eqb q YELLOW then Ok (mkBuckets (bYELLOW b ++ [m]) (bRED b) (bBLUE b) (bGREEN b))
  else if eqb q RED then Ok (mkBuckets (bYELLOW b) (bRED b ++ [m]) (bBLUE b) (bGREEN b))
  else if eqb q BLUE then Ok (mkBuckets (bYELLOW b) (bRED b) (bBLUE b ++ [m]) (bGREEN b))
  else if eqb q GREEN then Ok (mkBuckets (bYELLOW b) (bRED b) (bBLUE b) (bGREEN b ++ [m]))
  else Throw TypeError.

Definition moodsByQuadrant (studentMoods : list StudentMood) : outcome Buckets :=
  fold_left (fun acc m => match acc with Ok b => push m b | Throw e => Throw e end)
            studentMoods (Ok (mkBuckets [] [] [] [])).

Section Dashboard.

Variable toUpperCase : JsString -> JsString.

(** The async function mapped over [Object.entries(latestMoods)]. *)
Definition classify (env : Env) (entry : JsString * (JsValue * Z))
  : Gateway StudentMood :=
  let '(n, (mood, ts)) := entry in
  quadrant <- getMoodMeterQuadrant toUpperCase env mood ;;
  ret (mkStudentMood n mood quadrant ts).

(** [fetchMoods], up to the value passed to [setStudentMoods]. *)
Definition fetchMoods (env : Env) (st : Storage) : Gateway (list StudentMood) :=
  let allConversations := getAllConversations st in
  match latestMoods (entries allConversations) with
  | Throw e => throw e
  | Ok latest => promiseAll (map (classify env) (entries latest))
  end.

(** The dashboard: the moods fetched, then grouped. *)
Definition computeDashboard (env : Env) (st : Storage) : Gateway Buckets :=
  studentMoods <- fetchMoods env st ;;
  (fun log => (moodsByQuadrant studentMoods, log)).

End Dashboard.

(* ===================================================================== *)
(** ** The application as a transition system *)
(* ===================================================================== *)

Definition logoutUser (st : Storage) : Storage :=
  mkStorage (ls_users st) (ls_conversations st) None.

(** What can happen to the stores: the account operations, a chat view
    being mounted for a user or unmounted (at any time: the tab may be
    closed), and a message being sent in the mounted chat view. *)
Inductive Action :=
| Signup (n password : JsString)
| Login (n password : JsString)
| Logout
| ResetPassword (n : JsString)
| OpenChat (u : User)
| Send (env : Env) (input : JsString)
| LeaveChat.

Record System := mkSystem {
  storage : Storage;
  chat : option (User * ChatView.ChatState);
  events : list Event
}.

Definition initialSystem : System := mkSystem emptyStorage None [].

Section Transitions.

Variable toLowerCase : JsString -> JsString.
Variable JSON_parse : JsString -> option Json.

Definition act (sys : System) (a : Action) : System :=
  match a with
  | Signup n password =>
      mkSystem (snd (signupUser toLowerCase n password (storage sys)))
               (chat sys) (events sys)
  | Login n password =>
      mkSystem (snd (loginUser toLowerCase n password (storage sys)))
               (chat sys) (events sys)
  | Logout => mkSystem (logoutUser (storage sys)) (chat sys) (events sys)
  | ResetPassword n =>
      mkSystem (resetStudentPassword n (storage sys)) (chat sys) (events sys)
  | OpenChat u => mkSystem (storage sys) (Some (u, ChatView.initialChat u)) (events sys)
  | Send env input =>
      match chat sys with
      | Some (u, s) =>
          let '(s', st', log') :=
            ChatView.send JSON_parse env u input s (storage sys) (events sys) in
          mkSystem st' (Some (u, s')) log'
      | None => sys
      end
  | LeaveChat => mkSystem (storage sys) None (events sys)
  end.

Definition run (actions : list Action) (sys : System) : System :=
  fold_left act actions sys.

End Transitions.

(* ===================================================================== *)
(** ** dataService: the session, the teacher password, the API key *)
(* ===================================================================== *)

(** What a call yields when its errors are of type [E]. *)
Inductive attempt (E A : Type) :=
| Done (a : A)
| Failed (e : E).
Arguments Done {E A} a.
Arguments Failed {E A} e.

Definition getCurrentUser (st : Storage) : option User := ss_currentUser st.

(** The localStorage item [teacherPassword]; [None] when it was never
    written. *)
Definition TeacherItem := option JsString.

(** [localStorage.getItem('teacherPassword') || simpleHash('0000')]: an
    absent item and the empty string both give the default. *)
Definition getTeacherPassword (item : TeacherItem) : JsString :=
  match item with
  | Some p => if truthy p then p else simpleHash (lit "0000")
  | None => simpleHash (lit "0000")
  end.

Definition verifyTeacherPassword (password : JsString) (item : TeacherItem)
  : bool * TeacherItem :=
  let storedPassword := getTeacherPassword item in
  let item' := match item with
               | Some p => if truthy p then item else Some storedPassword
               | None => Some storedPassword
               end in
  (eqb (simpleHash password) storedPassword, item').

(** The error [changeTeacherPassword] throws: the current password does
    not match. *)
Inductive TeacherError := CurrentPasswordMismatch.

Definition changeTeacherPassword (oldPassword newPassword : JsString)
    (item : TeacherItem) : attempt TeacherError unit * TeacherItem :=
  let (ok, item1) := verifyTeacherPassword oldPassword item in
  if negb ok then (Failed CurrentPasswordMismatch, item1)
  else (Done tt, Some (simpleHash newPassword)).

(** The localStorage item [gemini_api_key]. *)
Definition KeyItem := option JsString.

(** The error [btoa] throws on a code unit above 255. *)
Inductive DomError := InvalidCharacterError.

Section ApiKey.

(** [btoa] and [atob] of the browser: inputs of the model; [None] when
    they throw. *)
Variable btoa : JsString -> option JsString.
Variable atob : JsString -> option JsString.

Definition saveApiKey (key : JsString) (item : KeyItem)
  : attempt DomError unit * KeyItem :=
  match btoa key with
  | Some encoded => (Done tt, Some encoded)
  | None => (Failed InvalidCharacterError, item)
  end.

Definition deleteApiKey (item : KeyItem) : KeyItem := None.

Definition getApiKey (item : KeyItem) : option JsString * KeyItem :=
  match item with
  | Some encodedKey =>
      if truthy encodedKey then
        match atob encodedKey with
        | Some key => (Some key, item)
        | None => (None, deleteApiKey item)
        end
      else (None, item)
  | None => (None, item)
  end.

(** The environment a gateway operation runs in when the key item is
    [item]: [getAI] reads the key through [getApiKey]. *)
Definition envOfItem (item : KeyItem) (p : nat -> Request -> ProviderResult)
    (clock : nat -> Z) : Env :=
  mkEnv (fst (getApiKey item)) p clock.

End ApiKey.

(* ===================================================================== *)
(** ** geminiService and App.tsx: testing and saving the API key *)
(* ===================================================================== *)

(** [testApiKey]: the one request is sent with the candidate key, not with
    the stored one; [accepts] is what the provider does with that request
    under a given key. *)
Definition testApiKey (accepts : JsString -> ProviderResult) (key : JsString) : bool :=
  match accepts key with
  | Response _ => true
  | Rejected => false
  end.

Inductive ApiKeyStatus := StatusIdle | StatusTesting | StatusValid | StatusInvalid.

(** The two messages of the modal. *)
Inductive ModalError := KeyRequired | KeyInvalid.

(** The state hooks of [ApiKeyModal] that [handleTestAndSave] writes. *)
Record ModalState := mkModal {
  status : ApiKeyStatus;
  modalError : option ModalError;
  saved : bool            (* [onKeySaved] has been scheduled *)
}.

Section Modal.

Variable btoa : JsString -> option JsString.
Variable accepts : JsString -> ProviderResult.

(** [handleTestAndSave].  When [saveApiKey] throws, the handler is
    abandoned with the status still [testing]. *)
Definition handleTestAndSave (apiKeyInput : JsString) (m : ModalState)
    (item : KeyItem) : ModalState * KeyItem :=
  if negb (truthy (trim apiKeyInput))
  then (mkModal (status m) (Some KeyRequired) (saved m), item)
  else
    let isValid := testApiKey accepts apiKeyInput in
    if isValid then
      match saveApiKey btoa apiKeyInput item with
      | (Done _, item') => (mkModal StatusValid None true, item')
      | (Failed _, item') => (mkModal StatusTesting None (saved m), item')
      end
    else (mkModal StatusInvalid (Some KeyInvalid) (saved m), item).

End Modal.

(* ===================================================================== *)
(** ** StudentView.tsx: the sign-in form and the history *)
(* ===================================================================== *)

(** [/^\d{4}$/.test(pw)] *)
Definition validatePassword (pw : JsString) : bool :=
  match pw with
  | [a; b; c; d] => isDigit a && isDigit b && isDigit c && isDigit d
  | _ => false
  end.

(** What [handleSubmit] shows as the error of the form. *)
Inductive FormError :=
| NameRequired                 (* the name is blank *)
| PasswordFormat               (* the password is not four digits *)
| Thrown (e : Error).          (* the message of the error caught *)

(** What [handleSubmit] does: it calls [onAuthSuccess] with the user, or
    it sets the error. *)
Inductive FormResult :=
| AuthSuccess (u : User)
| FormFailed (e : FormError).

Section AuthForm.

Variable toLowerCase : JsString -> JsString.

Definition handleSubmit (isLogin : bool) (n password : JsString) (st : Storage)
  : FormResult * Storage :=
  if negb (truthy (trim n)) then (FormFailed NameRequired, st)
  else if negb (validatePassword password) then (FormFailed PasswordFormat, st)
  else
    match (if isLogin then loginUser toLowerCase n password st
           else signupUser toLowerCase n password st) with
    | (Ok u, st') => (AuthSuccess u, st')
    | (Throw e, st') => (FormFailed (Thrown e), st')
    end.

End AuthForm.

(** The list [HistoryView] shows: [getConversations(user.name).sort(...)];
    a member of the prototype has no method [sort]. *)
Definition historyList (userName : JsString) (st : Storage)
  : outcome (list Conversation) :=
  match getConversations userName st with
  | ConversationList cs => Ok (sortDesc cs)
  | PrototypeMember => Throw TypeError
  end.

(* ===================================================================== *)
(** ** TeacherView.tsx: login, student management, settings *)
(* ===================================================================== *)

(** [handleLogin]: whether [onLoginSuccess] is called. *)
Definition handleLogin (password : JsString) (item : TeacherItem)
  : bool * TeacherItem :=
  verifyTeacherPassword password item.

(** [handleResetPassword], called with the name of a listed student; the
    list is then read again. *)
Definition handleResetPassword (studentName : JsString) (st : Storage)
  : list User * Storage :=
  let st' := resetStudentPassword studentName st in
  (getAllUsers st', st').

(** [/^\d{4,}$/.test(newPassword)] *)
Definition validateNewPassword (pw : JsString) : bool :=
  (4 <=? List.length pw)%nat && forallb isDigit pw.

Inductive SettingsResult :=
| PasswordChanged
| NewPasswordFormat
| SettingsThrown (e : TeacherError).

Definition handleChangePassword (oldPassword newPassword : JsString)
    (item : TeacherItem) : SettingsResult * TeacherItem :=
  if negb (validateNewPassword newPassword) then (NewPasswordFormat, item)
  else
    match changeTeacherPassword oldPassword newPassword item with
    | (Done _, item') => (PasswordChanged, item')
    | (Failed e, item') => (SettingsThrown e, item')
    end.

(** What a user can do through the forms of the two views: submit the
    sign-in form, log out, and, as the teacher, press the reset button of
    the [i]-th listed student. *)
Inductive UiAction :=
| SubmitAuth (isLogin : bool) (n password : JsString)
| ClickLogout
| ClickReset (i : nat).

Section Ui.

Variable toLowerCase : JsString -> JsString.

Definition uiAct (st : Storage) (a : UiAction) : Storage :=
  match a with
  | SubmitAuth isLogin n password =>
      snd (handleSubmit toLowerCase isLogin n password st)
  | ClickLogout => logoutUser st
  | ClickReset i =>
      match nth_error (getAllUsers st) i with
      | Some student => snd (handleResetPassword (name student) st)
      | None => st
      end
  end.

Definition uiRun (actions : list UiAction) (st : Storage) : Storage :=
  fold_left uiAct actions st.

End Ui.

(* ===================================================================== *)
(** ** Vocabulary of the properties *)
(* ===================================================================== *)

Section AccountVocabulary.

Variable toLowerCase : JsString -> JsString.

(** The account [u] is the first one of the list that matches [n] when
    names are compared lower-cased. *)
Definition firstMatch (n : JsString) (u : User) (us : list User) : Prop :=
  exists pre post, us = pre ++ u :: post
                   /\ forall x, In x pre -> sameNameCI toLowerCase n x = false.

(** No two accounts have the same lower-cased name. *)
Definition uniqueCI (us : list User) : Prop :=
  NoDup (map (fun u => toLowerCase (name u)) us).

End AccountVocabulary.

(** The entry points of the gateway that a log shows as called. *)
Fixpoint calls (evs : list Event) : list Call :=
  match evs with
  | [] => []
  | Called c :: evs' => c :: calls evs'
  | Sent _ :: evs' => calls evs'
  end.

(** Every conversation the store holds, for whatever name. *)
Definition persisted (st : Storage) : list Conversation :=
  List.concat (map snd (getAllConversations st)).

Definition isUser (m : Message) : bool :=
  match sender m with user => true | ai => false end.

Definition isAi (m : Message) : bool :=
  match sender m with user => false | ai => true end.

(** The exchanged turn pairs of a message sequence: the user messages
    that are directly followed by an answer of the coach. *)
Fixpoint turnPairs (ms : list Message) : nat :=
  match ms with
  | [] => O
  | m :: ms' =>
      match ms' with
      | m' :: _ => if isUser m && isAi m' then S (turnPairs ms') else turnPairs ms'
      | [] => O
      end
  end.

Definition countUser (ms : list Message) : nat := List.length (filter isUser ms).
Definition countAi (ms : list Message) : nat := List.length (filter isAi ms).

(** No answer of the coach directly follows another one. *)
Fixpoint noAdjacentAi (ms : list Message) : bool :=
  match ms with
  | [] => true
  | m :: ms' =>
      match ms' with
      | m' :: _ => negb (isAi m && isAi m') && noAdjacentAi ms'
      | [] => true
      end
  end.

(** Strict alternation: user, ai, user, ai, ... up to the end. *)
Fixpoint alternates (ms : list Message) : bool :=
  match ms with
  | [] => true
  | m1 :: m2 :: ms' => isUser m1 && isAi m2 && alternates ms'
  | [_] => false
  end.

Definition lastIsAi (ms : list Message) : bool :=
  match rev ms with
  | m :: _ => isAi m
  | [] => false
  end.

(** The messages after the greeting, by the number [t] of turns that
    succeeded and the number [f] of turns that failed: a failed turn leaves
    the user message alone, a successful one leaves the user message and
    the answer. *)
Inductive Body : nat -> nat -> list Message -> Prop :=
| Body_nil : Body 0 0 []
| Body_failed t f b x : Body t f b -> Body t (S f) (b ++ [mkMessage user x])
| Body_turn t f b x y :
    Body t f b -> Body (S t) f (b ++ [mkMessage user x; mkMessage ai y]).

(** The chat view of user [u] between two runs of the handler, after [t]
    turns that succeeded and [f] turns that failed. *)
Definition ViewState (u : User) (t f : nat) (s : ChatView.ChatState) : Prop :=
  exists b,
    ChatView.messages s = ChatView.greeting u :: b
    /\ Body t f b
    /\ ChatView.turnCount s = Z.of_nat t
    /\ (t <= 5)%nat
    /\ ChatView.isAITyping s = false
    /\ (ChatView.isConversationOver s = true <-> t = 5%nat)
    /\ (t <> 5%nat -> ChatView.finalSummary s = JNull).

Definition ChatInv (u : User) (s : ChatView.ChatState) : Prop :=
  exists t f, ViewState u t f s.

(** What holds of a conversation in the store: four turns and any number
    of failed attempts after the greeting, then the closing turn. *)
Definition GoodConversation (c : Conversation) : Prop :=
  exists u f b x y,
    messages c
    = (ChatView.greeting u :: b) ++ [mkMessage user x; mkMessage ai y]
    /\ Body 4 f b.



(** What a list read from the store is once the store was written again:
    every conversation as read back from JSON. *)
Definition reread (r : Conversations) : Conversations :=
  match r with
  | ConversationList l => ConversationList (map written l)
  | PrototypeMember => PrototypeMember
  end.

(** A value that holds no infinite number. *)
Fixpoint finiteJson (v : Json) : bool :=
  match v with
  | JNumber (Infinite _) => false
  | JArray items => forallb finiteJson items
  | JObject props => forallb (fun p => finiteJson (snd p)) props
  | _ => true
  end.

Definition isEmpty {A} (l : list A) : bool :=
  match l with [] => true | _ => false end.

(** A string as the value of a property. *)
Definition stringValue (s : JsString) : JsValue := Value (JString s).

(** A value the template literal can convert to a string, and the text it
    then writes into the prompt. *)
Definition printable (v : JsValue) : bool :=
  match toStringValue v with Some _ => true | None => false end.

Definition promptOf (v : JsValue) : JsString :=
  match toStringValue v with Some text => text | None => [] end.

(** A summary the dashboard can classify: it is not null, and its [mood]
    can be written into the prompt.  Every object whose [mood] is a string
    is one. *)
Definition classifiable (summary : Json) : bool :=
  match moodOf summary with
  | Ok mood => printable mood
  | Throw _ => false
  end.

(** While the log grew from [log] to [log'], the classification of [mood]
    was called, and it returned the label [q]. *)
Definition classifiedAs (toUpperCase : JsString -> JsString) (env : Env)
    (log log' : list Event) (mood : JsValue) (q : JsString) : Prop :=
  exists before during after,
    log' = log ++ before ++ during ++ after
    /\ getMoodMeterQuadrant toUpperCase env mood (log ++ before)
       = (Ok q, log ++ before ++ during).

(** What [classify] returned for an entry of [latestMoods] while the log
    grew from [log] to [log']. *)
Definition entryOf (toUpperCase : JsString -> JsString) (env : Env)
    (log log' : list Event)
    (entry : JsString * (JsValue * Z)) (sm : StudentMood) : Prop :=
  sm_name sm = fst entry
  /\ sm_mood sm = fst (snd entry)
  /\ sm_timestamp sm = snd (snd entry)
  /\ In (sm_quadrant sm) quadrants
  /\ classifiedAs toUpperCase env log log' (fst (snd entry)) (sm_quadrant sm).

(** A chat view in progress after [k] turns, none of which failed. *)
Definition CleanChat (u : User) (k : nat) (s : ChatView.ChatState) : Prop :=
  exists b,
    ChatView.messages s = ChatView.greeting u :: b
    /\ Body k 0 b
    /\ ChatView.turnCount s = Z.of_nat k
    /\ ChatView.inProgress s.

(** What holds of the application between two actions. *)
Definition SysInv (sys : System) : Prop :=
  (forall c, In c (persisted (storage sys)) -> GoodConversation c)
  /\ (forall u s, chat sys = Some (u, s) -> ChatInv u s).

(** The order of the enumeration on keys: an array index comes before
    every larger index and before every key that is not an index. *)
Definition enumeratedBefore (k k' : JsString) : Prop :=
  match arrayIndex k, arrayIndex k' with
  | Some a, Some b => a <= b
  | Some _, None => True
  | None, Some _ => False
  | None, None => True
  end.

(** Properties paired with the array index of their key. *)
Definition indexed {A} (acc : list (Z * (JsString * A))) : Prop :=
  Forall (fun e => arrayIndex (fst (snd e)) = Some (fst e)) acc.

(** A student the dashboard can show: one with a conversation, whose name
    is not [__proto__]. *)
Definition shown (p : JsString * list Conversation) : bool :=
  negb (isEmpty (snd p)) && negb (eqb (fst p) (lit "__proto__")).

(** The key of the environment is missing or empty. *)
Definition noKey (env : Env) : Prop :=
  forall k, apiKey env = Some k -> truthy k = false.

(** The key of the environment is set. *)
Definition keySet (env : Env) : Prop :=
  exists k, apiKey env = Some k /\ truthy k = true.


Section Runs.

Variable JSON_parse : JsString -> option Json.

(** Several inputs sent one after the other in one chat view, each with
    its environment. *)
Definition sends (u : User) (inputs : list (Env * JsString))
    (start : ChatView.ChatState * Storage * list Event)
  : ChatView.ChatState * Storage * list Event :=
  fold_left
    (fun acc i =>
       let '(s, st, log) := acc in
       ChatView.send JSON_parse (fst i) u (snd i) s st log)
    inputs start.

(** The input passes the guard of the handler and the gateway call of the
    turn throws. *)
Definition turnFails (env : Env) (input : JsString) (s : ChatView.ChatState)
    (log : list Event) : bool :=
  if negb (truthy (trim input)) || ChatView.isAITyping s
     || ChatView.isConversationOver s
  then false
  else
    let history := ChatView.messages s ++ [mkMessage user input] in
    match (if ChatView.turnCount s + 1 =? MAX_TURNS
           then getFinalChatResponse env history
           else getChatResponse env history) log with
    | (Throw _, _) => true
    | (Ok _, _) => false
    end.

(** How many turns fail while the inputs are sent. *)
Fixpoint failedTurns (u : User) (inputs : list (Env * JsString))
    (start : ChatView.ChatState * Storage * list Event) : nat :=
  match inputs with
  | [] => O
  | i :: rest =>
      let '(s, st, log) := start in
      ((if turnFails (fst i) (snd i) s log then 1 else 0)
       + failedTurns u rest (ChatView.send JSON_parse (fst i) u (snd i) s st log))%nat
  end.

(** What a run of the handler does to the store: nothing, or, when it is
    the run of the closing turn and [getFinalSummary] returns, one
    conversation saved for the user, with the messages the view then shows
    and the value returned as its summary. *)
Definition storeEffect (env : Env) (u : User) (s s' : ChatView.ChatState)
    (st st' : Storage) (log' : list Event) : Prop :=
  st' = st
  \/ exists c log1,
       saveConversation (name u) c st = (Ok tt, st')
       /\ getFinalSummary JSON_parse env (messages c) log1 = (Ok (summary c), log')
       /\ GoodConversation c
       /\ messages c = ChatView.messages s'
       /\ ChatView.inProgress s
       /\ ChatView.turnCount s + 1 = MAX_TURNS
       /\ ChatView.finalSummary s' = summary c
       /\ ChatView.turnCount s' = MAX_TURNS
       /\ ChatView.isConversationOver s' = true.

(** An environment in which no call of the gateway fails: the key is set,
    the provider answers every request with a text, and the text it
    answers to a summary request is one [JSON.parse] accepts. *)
Definition healthy (env : Env) : Prop :=
  keySet env
  /\ forall i req, exists t,
       provider env i req = Response (Some t)
       /\ forall tr, req = SummaryRequest tr -> JSON_parse (trim t) <> None.

(** An input that passes the guard, in a healthy environment. *)
Definition goodInput (i : Env * JsString) : Prop :=
  healthy (fst i) /\ truthy (trim (snd i)) = true.

End Runs.

(* ===================================================================== *)
(** ** JSON texts for concrete runs *)
(* ===================================================================== *)

(** An instance of [JSON.parse] for the concrete runs: the JSON grammar
    with its literals, strings and escapes, arrays and objects.  Of the
    numbers it reads the integers written without fraction and exponent, up
    to 2^53 in magnitude, whose decimal writing is exact; on the other
    number literals, which [JSON.parse] accepts as well, it gives
    [None]. *)
Module JsonText.

Definition isSpace (c : Z) : bool :=
  (c =? 32) || (c =? 9) || (c =? 10) || (c =? 13).

Fixpoint skipSpace (s : JsString) : JsString :=
  match s with
  | c :: s' => if isSpace c then skipSpace s' else s
  | [] => []
  end.

(** The rest of [s] after the prefix [p]. *)
Fixpoint after (p s : JsString) : option JsString :=
  match p, s with
  | [], _ => Some s
  | x :: p', y :: s' => if x =? y then after p' s' else None
  | _ :: _, [] => None
  end.

Definition hexDigit (c : Z) : option Z :=
  if (48 <=? c) && (c <=? 57) then Some (c - 48)
  else if (65 <=? c) && (c <=? 70) then Some (c - 55)
  else if (97 <=? c) && (c <=? 102) then Some (c - 87)
  else None.

Definition escape (e : Z) : option Z :=
  if e =? 34 then Some 34
  else if e =? 92 then Some 92
  else if e =? 47 then Some 47
  else if e =? 98 then Some 8
  else if e =? 102 then Some 12
  else if e =? 110 then Some 10
  else if e =? 114 then Some 13
  else if e =? 116 then Some 9
  else None.

(** The characters of a string after its opening quote, and what follows
    the closing quote. *)
Fixpoint parseChars (fuel : nat) (s : JsString) : option (JsString * JsString) :=
  match fuel with
  | O => None
  | S fuel' =>
      match s with
      | [] => None
      | c :: rest =>
          if c =? 34 then Some ([], rest)
          else if c =? 92 then
            match rest with
            | e :: rest' =>
                if e =? 117 then
                  match rest' with
                  | h1 :: h2 :: h3 :: h4 :: rest'' =>
                      match hexDigit h1, hexDigit h2, hexDigit h3, hexDigit h4,
                            parseChars fuel' rest'' with
                      | Some a, Some b, Some c', Some d, Some (cs, r) =>
                          Some (((a * 16 + b) * 16 + c') * 16 + d :: cs, r)
                      | _, _, _, _, _ => None
                      end
                  | _ => None
                  end
                else
                  match escape e, parseChars fuel' rest' with
                  | Some x, Some (cs, r) => Some (x :: cs, r)
                  | _, _ => None
                  end
            | [] => None
            end
          else if c <? 32 then None
          else
            match parseChars fuel' rest with
            | Some (cs, r) => Some (c :: cs, r)
            | None => None
            end
      end
  end.

(** The leading digits of [s], and what follows them. *)
Fixpoint digitsOf (s : JsString) : JsString * JsString :=
  match s with
  | c :: s' =>
      if isDigit c then let (ds, r) := digitsOf s' in (c :: ds, r) else ([], s)
  | [] => ([], [])
  end.

Definition parseNumber (s : JsString) : option (Json * JsString) :=
  let (negative, body) :=
    match s with
    | c :: s' => if c =? 45 then (true, s') else (false, s)
    | [] => (false, s)
    end in
  let (ds, rest) := digitsOf body in
  let n := fold_left (fun a d => 10 * a + (d - 48)) ds 0 in
  let canonical :=
    match ds with
    | [] => false
    | [_] => true
    | d :: _ => negb (d =? 48)
    end in
  let plain :=
    match rest with
    | c :: _ => negb ((c =? 46) || (c =? 101) || (c =? 69))
    | [] => true
    end in
  if canonical && plain && (n <=? 2 ^ 53) then
    Some (JNumber (if n =? 0 then Zero
                   else Finite ((if negative then [45] else []) ++ toString n)),
          rest)
  else None.

(** [CreateDataProperty]: a repeated key replaces the value. *)
Fixpoint define (k : JsString) (v : Json) (props : list (JsString * Json))
  : list (JsString * Json) :=
  match props with
  | [] => [(k, v)]
  | (k', v') :: props' =>
      if eqb k k' then (k', v) :: props' else (k', v') :: define k v props'
  end.

Fixpoint parseValue (fuel : nat) (s : JsString) : option (Json * JsString) :=
  match fuel with
  | O => None
  | S fuel' =>
      let s := skipSpace s in
      match after (lit "null") s, after (lit "true") s, after (lit "false") s with
      | Some rest, _, _ => Some (JNull, rest)
      | _, Some rest, _ => Some (JBool true, rest)
      | _, _, Some rest => Some (JBool false, rest)
      | None, None, None =>
          match s with
          | [] => None
          | c :: rest =>
              if c =? 34 then
                match parseChars (List.length rest) rest with
                | Some (cs, r) => Some (JString cs, r)
                | None => None
                end
              else if c =? 91 then
                match after [93] (skipSpace rest) with
                | Some r => Some (JArray [], r)
                | None =>
                    match parseElements fuel' rest with
                    | Some (vs, r) => Some (JArray vs, r)
                    | None => None
                    end
                end
              else if c =? 123 then
                match after [125] (skipSpace rest) with
                | Some r => Some (JObject [], r)
                | None =>
                    match parseMembers fuel' rest with
                    | Some (ps, r) =>
                        Some (JObject (fold_left (fun acc p => define (fst p) (snd p) acc)
                                                 ps []), r)
                    | None => None
                    end
                end
              else parseNumber s
          end
      end
  end
with parseElements (fuel : nat) (s : JsString) : option (list Json * JsString) :=
  match fuel with
  | O => None
  | S fuel' =>
      match parseValue fuel' s with
      | Some (v, rest) =>
          match skipSpace rest with
          | c :: rest' =>
              if c =? 44 then
                match parseElements fuel' rest' with
                | Some (vs, r) => Some (v :: vs, r)
                | None => None
                end
              else if c =? 93 then Some ([v], rest')
              else None
          | [] => None
          end
      | None => None
      end
  end
with parseMembers (fuel : nat) (s : JsString)
  : option (list (JsString * Json) * JsString) :=
  match fuel with
  | O => None
  | S fuel' =>
      match after [34] (skipSpace s) with
      | None => None
      | Some body =>
          match parseChars (List.length body) body with
          | None => None
          | Some (k, rest) =>
              match after [58] (skipSpace rest) with
              | None => None
              | Some rest' =>
                  match parseValue fuel' rest' with
                  | None => None
                  | Some (v, rest'') =>
                      match skipSpace rest'' with
                      | c :: r =>
                          if c =? 44 then
                            match parseMembers fuel' r with
                            | Some (ps, r') => Some ((k, v) :: ps, r')
                            | None => None
                            end
                          else if c =? 125 then Some ([(k, v)], r)
                          else None
                      | [] => None
                      end
                  end
              end
          end
      end
  end.

Definition parse (s : JsString) : option Json :=
  match parseValue (2 * List.length s + 2) s with
  | Some (v, rest) =>
      match skipSpace rest with
      | [] => Some v
      | _ => None
      end
  | None => None
  end.

(** A string literal of a JSON text. *)
Definition quoted (s : string) : JsString := [34] ++ lit s ++ [34].

(** The text of a summary with the two fields of the response schema. *)
Definition summaryText (mood message : string) : JsString :=
  lit "{" ++ quoted "mood" ++ lit ":" ++ quoted mood ++ lit ","
  ++ quoted "message" ++ lit ":" ++ quoted message ++ lit "}".

End JsonText.

(** Environments and accounts for concrete runs. *)
Definition envAnswer (t : JsString) : Env :=
  mkEnv (Some (lit "key")) (fun _ _ => Response (Some t)) (fun _ => 1000).

(** The coach answers every message with [reply] and the summary request
    with the text [summary]. *)
Definition envCoach (reply summary : JsString) : Env :=
  mkEnv (Some (lit "key"))
        (fun _ req => match req with
                      | SummaryRequest _ => Response (Some summary)
                      | _ => Response (Some reply)
                      end)
        (fun _ => 1000).

Definition envRejecting : Env :=
  mkEnv (Some (lit "key")) (fun _ _ => Rejected) (fun _ => 1000).

Definition envSummaryRejected : Env :=
  mkEnv (Some (lit "key"))
        (fun _ req => match req with
                      | SummaryRequest _ => Rejected
                      | _ => Response (Some (lit "ok"))
                      end)
        (fun _ => 1000).

Definition envNoKey : Env :=
  mkEnv None (fun _ _ => Response (Some (lit "RED"))) (fun _ => 1000).

(** The coach of the concrete conversations: it answers "ok", and
    summarizes with the mood "angry". *)
Definition envAngry : Env :=
  envCoach (lit "ok") (JsonText.summaryText "angry" "take care").

Definition bob : User := mkUser (lit "Bob") (simpleHash (lit "1234")).
Definition amy : User := mkUser (lit "Amy") (simpleHash (lit "4321")).

(** Two students have signed up, and the first one has completed one
    conversation. *)
Definition completedRun : list Action :=
  [Signup (lit "Bob") (lit "1234"); Signup (lit "Amy") (lit "4321"); OpenChat bob]
  ++ repeat (Send envAngry (lit "a")) 5.

Definition twoStudents : Storage :=
  storage (run asciiLower JsonText.parse completedRun initialSystem).

(** A store in which the key [__proto__] holds one conversation. *)
Definition storeOfProto : Storage :=
  mkStorage None
            (Some [(lit "__proto__",
                    [mkConversation (lit "conv_1") 1000 []
                       (summaryValue (mkSummary (lit "angry") (lit "take care")))])])
            None.

(** The first student has signed up. *)
Definition signedUp : Storage :=
  snd (signupUser asciiLower (lit "Bob") (lit "1234") emptyStorage).

(** A run with one failed turn before the five turns that succeed. *)
Definition runWithFailedTurn : list Action :=
  [OpenChat bob; Send envRejecting (lit "hi")]
  ++ repeat (Send envAngry (lit "a")) 5.


(** The chat view after four turns that succeeded. *)
Definition fourTurns : ChatView.ChatState :=
  fst (fst (sends JsonText.parse bob (repeat (envAngry, lit "a") 4)
                  (ChatView.initialChat bob, emptyStorage, []))).

(** The 31-polynomial of the code units, without wrap-around. *)
Definition polyHash (s : JsString) : Z :=
  fold_left (fun h c => 31 * h + c) s 0.



(** A string made of whitespace only (the empty string included). *)
Definition blank (s : JsString) : bool := forallb isWhiteSpace s.

(** The requests a log shows as sent to the provider. *)
Fixpoint requests (evs : list Event) : list Request :=
  match evs with
  | [] => []
  | Called _ :: evs' => requests evs'
  | Sent r :: evs' => r :: requests evs'
  end.

(** An account as the sign-in form creates it: the name is not blank and
    the hash is the hash of a four-digit password. *)
Definition formAccount (u : User) : Prop :=
  truthy (trim (name u)) = true
  /\ exists pw, validatePassword pw = true /\ passwordHash u = simpleHash pw.

(** The account of the session, if any, has the name of a stored account. *)
Definition sessionKnown (st : Storage) : Prop :=
  forall u, ss_currentUser st = Some u ->
            In (name u) (map name (getAllUsers st)).

(** Base64 for concrete runs: [btoa] on code units up to 255, and [atob]
    on the canonical encodings [btoa] produces.  (The [atob] of the browser
    also accepts other inputs: whitespace, missing padding.) *)
Definition b64char (i : Z) : Z :=
  if i <? 26 then 65 + i
  else if i <? 52 then 71 + i
  else if i <? 62 then i - 4
  else if i =? 62 then 43
  else 47.

Definition b64index (c : Z) : option Z :=
  if (65 <=? c) && (c <=? 90) then Some (c - 65)
  else if (97 <=? c) && (c <=? 122) then Some (c - 71)
  else if (48 <=? c) && (c <=? 57) then Some (c + 4)
  else if c =? 43 then Some 62
  else if c =? 47 then Some 63
  else None.

Fixpoint b64groups (s : JsString) : JsString :=
  match s with
  | a :: b :: c :: rest =>
      [b64char (a / 4); b64char ((a mod 4) * 16 + b / 16);
       b64char ((b mod 16) * 4 + c / 64); b64char (c mod 64)]
        ++ b64groups rest
  | [a; b] =>
      [b64char (a / 4); b64char ((a mod 4) * 16 + b / 16);
       b64char ((b mod 16) * 4); 61]
  | [a] => [b64char (a / 4); b64char ((a mod 4) * 16); 61; 61]
  | [] => []
  end.

Definition btoaLatin1 (s : JsString) : option JsString :=
  if forallb (fun c => (0 <=? c) && (c <=? 255)) s then Some (b64groups s)
  else None.

Fixpoint atobCanonical (s : JsString) : option JsString :=
  match s with
  | [] => Some []
  | a :: b :: c :: d :: rest =>
      match b64index a, b64index b with
      | Some x, Some y =>
          if (c =? 61) && (d =? 61) then
            match rest with
            | [] => Some [x * 4 + y / 16]
            | _ => None
            end
          else
            match b64index c with
            | Some z =>
                if d =? 61 then
                  match rest with
                  | [] => Some [x * 4 + y / 16; (y mod 16) * 16 + z / 4]
                  | _ => None
                  end
                else
                  match b64index d, atobCanonical rest with
                  | Some w, Some tl =>
                      Some ([x * 4 + y / 16; (y mod 16) * 16 + z / 4;
                             (z mod 4) * 64 + w] ++ tl)
                  | _, _ => None
                  end
            | None => None
            end
      | _, _ => None
      end
  | _ => None
  end.

(** A provider that accepts the key "key" and no other. *)
Definition acceptsKey (k : JsString) : ProviderResult :=
  if eqb k (lit "key") then Response (Some (lit "ok")) else Rejected.

(** The chat view of the first student after one turn that succeeded. *)
Definition afterOneTurn : ChatView.ChatState :=
  fst (fst (ChatView.send JsonText.parse envAngry bob (lit "a")
                          (ChatView.initialChat bob) emptyStorage [])).

(* ===================================================================== *)
(** ** Tactics *)
(* ===================================================================== *)

(** Case analysis on the innermost scrutinee of the goal. *)
Ltac break_match :=
  match goal with
  | |- context [match ?x with _ => _ end] =>
      lazymatch x with
      | context [match _ with _ => _ end] => fail
      | _ => destruct x eqn:?
      end
  end.

(** Unfold a gateway operation down to the key and the provider, and
    split on both. *)
Ltac gateway_cases env :=
  unfold getChatResponse, getFinalChatResponse, getFinalSummary,
    getMoodMeterQuadrant, interpolate, bind, emit, getAI, tryCatch,
    generateContent, textTrim, ret, throw;
  destruct (apiKey env) as [k|]; [destruct (truthy k)|]; simpl;
  repeat break_match; simpl.

Ltac log_tail :=
  eexists; split;
  [ rewrite <- ?app_assoc; simpl; reflexivity | reflexivity ].

(** Reduce the state setters and the projections of a state that is
    given by its fields, and nothing else. *)
Ltac chat_fields :=
  cbv beta iota zeta delta
    [ChatView.setUserInput ChatView.setIsAITyping ChatView.setError
     ChatView.setFinalSummary ChatView.setIsConversationOver
     ChatView.setTurnCount ChatView.setMessages ChatView.messages
     ChatView.userInput ChatView.isAITyping ChatView.turnCount
     ChatView.isConversationOver ChatView.finalSummary ChatView.error].

(** Split on whether [saveConversation] returned or threw. *)
Ltac save_cases :=
  try match goal with
      | |- context [saveConversation ?n ?c ?st] =>
          destruct (saveConversation n c st) as [[[]|?e] ?st'] eqn:?Hsave
      end.

(** The side conditions of [ChatInv] once the witnesses are given. *)
Ltac inv_goals :=
  repeat split; auto; try discriminate; try congruence; try lia;
  try (now constructor);
  try (intros [? ?]; first [discriminate | lia | congruence]).

(* ===================================================================== *)
(** ** Concrete runs *)
(* ===================================================================== *)

Example simpleHash_0000 : simpleHash (lit "0000") = lit "1477632".
Proof. vm_compute. reflexivity. Qed.

Example simpleHash_negative : simpleHash (lit "zzzzzz") = lit "-685785664".
Proof. vm_compute. reflexivity. Qed.

Example trim_spaces : trim (lit "  red ") = lit "red".
Proof. vm_compute. reflexivity. Qed.

(* ===================================================================== *)
(** ** Facts about strings and arrays *)
(* ===================================================================== *)

Lemma eqb_eq (a b : JsString) : eqb a b = true <-> a = b.
Proof.
  revert b; induction a as [|x a IH]; intros [|y b]; simpl; split;
    try congruence; try reflexivity.
  - intros H. apply andb_true_iff in H as [Hx Hab].
    apply Z.eqb_eq in Hx. apply IH in Hab. congruence.
  - intros H. injection H as -> ->. rewrite Z.eqb_refl. simpl. now apply IH.
Qed.

Lemma eqb_refl (a : JsString) : eqb a a = true.
Proof. now apply eqb_eq. Qed.

Lemma eqb_neq (a b : JsString) : eqb a b = false <-> a <> b.
Proof.
  split.
  - intros H E. apply eqb_eq in E. congruence.
  - intros H. destruct (eqb a b) eqn:E; [apply eqb_eq in E; contradiction | reflexivity].
Qed.

Lemma includes_In (l : list JsString) (s : JsString) :
  includes l s = true <-> In s l.
Proof.
  unfold includes. rewrite existsb_exists. split.
  - intros [x [Hx E]]. apply eqb_eq in E. now subst.
  - intros H. exists s. split; [assumption | apply eqb_refl].
Qed.

Lemma findIndex_Some {A} (p : A -> bool) (l : list A) (i : nat) :
  findIndex p l = Some i ->
  exists x, nth_error l i = Some x /\ p x = true
            /\ forall j y, (j < i)%nat -> nth_error l j = Some y -> p y = false.
Proof.
  revert i; induction l as [|a l IH]; intros i; simpl; [discriminate|].
  destruct (p a) eqn:Pa.
  - intros [= <-]. exists a. repeat split; auto. intros j y Hj. lia.
  - destruct (findIndex p l) as [k|] eqn:Fk; simpl; [|discriminate].
    intros [= <-]. destruct (IH k eq_refl) as [x [Hx [Px Hlt]]].
    exists x. repeat split; auto.
    intros [|j] y Hj; simpl.
    + now intros [= <-].
    + apply Hlt. lia.
Qed.

Lemma findIndex_None {A} (p : A -> bool) (l : list A) :
  findIndex p l = None <-> forall x, In x l -> p x = false.
Proof.
  induction l as [|a l IH]; simpl.
  - split; [intros _ x [] | reflexivity].
  - destruct (p a) eqn:Pa.
    + split; [discriminate|]. intros H. specialize (H a (or_introl eq_refl)). congruence.
    + destruct (findIndex p l) eqn:F; simpl.
      * split; [discriminate|]. intros H.
        assert (E : Some n = None) by (apply IH; intros x Hx; apply H; now right).
        discriminate E.
      * split; [|reflexivity]. intros _ x [<-|Hx]; [assumption|].
        now apply IH.
Qed.

Lemma updateAt_length {A} (f : A -> A) (l : list A) (i : nat) :
  List.length (updateAt i f l) = List.length l.
Proof. revert i; induction l as [|a l IH]; intros [|i]; simpl; auto. Qed.

Lemma updateAt_same {A} (f : A -> A) (l : list A) (i : nat) (x : A) :
  nth_error l i = Some x -> nth_error (updateAt i f l) i = Some (f x).
Proof.
  revert i; induction l as [|a l IH]; intros [|i]; simpl; try discriminate.
  - now intros [= ->].
  - apply IH.
Qed.

Lemma updateAt_other {A} (f : A -> A) (l : list A) (i j : nat) :
  j <> i -> nth_error (updateAt i f l) j = nth_error l j.
Proof.
  revert i j; induction l as [|a l IH]; intros [|i] [|j] H; simpl; auto;
    try contradiction.
Qed.

Lemma updateAt_map {A B} (f : A -> A) (g : A -> B) (l : list A) (i : nat) :
  (forall x, g (f x) = g x) -> map g (updateAt i f l) = map g l.
Proof.
  intros H. revert i; induction l as [|a l IH]; intros [|i]; simpl; auto.
  - now rewrite H.
  - now rewrite IH.
Qed.

Lemma updateAt_app {A} (f : A -> A) (l1 l2 : list A) (i : nat) :
  updateAt i f (l1 ++ l2)
  = if (i <? List.length l1)%nat then updateAt i f l1 ++ l2
    else l1 ++ updateAt (i - List.length l1) f l2.
Proof.
  revert i; induction l1 as [|a l1 IH]; intros i; simpl.
  - now rewrite Nat.sub_0_r.
  - destruct i as [|i]; simpl; [reflexivity|].
    rewrite IH. change (S i <? S (List.length l1))%nat with (i <? List.length l1)%nat.
    now destruct (i <? List.length l1)%nat.
Qed.

Lemma updateAt_In {A} (f : A -> A) (l : list A) (i : nat) (x : A) :
  In x (updateAt i f l) -> In x l \/ exists y, In y l /\ x = f y.
Proof.
  revert i; induction l as [|a l IH]; intros [|i]; simpl; auto.
  - intros [<-|H]; [right; exists a; auto | auto].
  - intros [<-|H]; [auto|]. destruct (IH _ H) as [H'|[y [Hy ->]]]; [auto|].
    right; exists y; auto.
Qed.

(* ===================================================================== *)
(** ** The stores under the operations *)
(* ===================================================================== *)

Lemma getAllUsers_saveUsers (us : list User) (st : Storage) :
  getAllUsers (saveUsers us st) = us.
Proof. reflexivity. Qed.

Lemma saveConversation_users (n : JsString) (c : Conversation) (st : Storage) :
  ls_users (snd (saveConversation n c st)) = ls_users st.
Proof. unfold saveConversation. now destruct (getConversations n st). Qed.

Lemma saveConversation_session (n : JsString) (c : Conversation) (st : Storage) :
  ss_currentUser (snd (saveConversation n c st)) = ss_currentUser st.
Proof. unfold saveConversation. now destruct (getConversations n st). Qed.

(** When [saveConversation] throws, nothing was written. *)
Lemma saveConversation_throws (n : JsString) (c : Conversation) (st st' : Storage) e :
  saveConversation n c st = (Throw e, st') -> e = TypeError /\ st' = st.
Proof.
  unfold saveConversation. destruct (getConversations n st); [discriminate|].
  now intros [= <- <-].
Qed.

Section Frames.

Variable toLowerCase : JsString -> JsString.
Variable JSON_parse : JsString -> option Json.

(** The store after a run of the handler: what it was, or what one call of
    [saveConversation] for the user made of it. *)
Lemma handleSendMessage_storage env u s st log :
  let st' := snd (fst (ChatView.handleSendMessage JSON_parse env u s st log)) in
  st' = st \/ exists c, st' = snd (saveConversation (name u) c st).
Proof.
  unfold ChatView.handleSendMessage.
  repeat break_match; cbn [fst snd]; auto; right;
    match goal with
    | H : saveConversation _ ?c _ = _ |- _ => exists c; now rewrite H
    end.
Qed.

Lemma handleSendMessage_users env u s st log :
  ls_users (snd (fst (ChatView.handleSendMessage JSON_parse env u s st log)))
  = ls_users st.
Proof.
  destruct (handleSendMessage_storage env u s st log) as [-> | [c ->]];
    [reflexivity | apply saveConversation_users].
Qed.

Lemma signupUser_users n password st :
  getAllUsers (snd (signupUser toLowerCase n password st)) = getAllUsers st
  \/ (existsb (sameNameCI toLowerCase n) (getAllUsers st) = false
      /\ getAllUsers (snd (signupUser toLowerCase n password st))
         = getAllUsers st ++ [mkUser n (simpleHash password)]).
Proof.
  unfold signupUser. destruct (existsb _ _); simpl; auto.
Qed.

Lemma loginUser_users n password st :
  ls_users (snd (loginUser toLowerCase n password st)) = ls_users st.
Proof.
  unfold loginUser. destruct (find _ _); [|reflexivity].
  destruct (negb _); reflexivity.
Qed.

(** The user list after an action: unchanged, one account appended by a
    sign-up, or one password hash replaced by a reset. *)
Lemma act_users sys a :
  let us := getAllUsers (storage sys) in
  let us' := getAllUsers (storage (act toLowerCase JSON_parse sys a)) in
  us' = us
  \/ (exists n password, a = Signup n password
        /\ existsb (sameNameCI toLowerCase n) us = false
        /\ us' = us ++ [mkUser n (simpleHash password)])
  \/ (exists n i, a = ResetPassword n
        /\ findIndex (fun u => eqb (name u) n) us = Some i
        /\ us' = updateAt i (fun u => mkUser (name u) (simpleHash (lit "0000"))) us).
Proof.
  destruct a as [n p|n p| |n|u|env input|]; simpl; auto.
  - destruct (signupUser_users n p (storage sys)) as [H|[H1 H2]]; [auto|].
    right; left. exists n, p. auto.
  - left. unfold getAllUsers. now rewrite loginUser_users.
  - unfold resetStudentPassword.
    destruct (findIndex _ _) as [i|] eqn:F; [|auto].
    right; right. exists n, i. auto.
  - destruct (chat sys) as [[u s]|]; [|auto].
    unfold ChatView.send.
    pose proof (handleSendMessage_users env u (ChatView.setUserInput input s)
                  (storage sys) (events sys)) as H.
    destruct (ChatView.handleSendMessage _ _ _ _ _ _) as [[s' st'] log'].
    simpl in *. left. unfold getAllUsers. now rewrite H.
Qed.

End Frames.

(* ===================================================================== *)
(** ** Accounts: sign-up, login, password reset *)
(* ===================================================================== *)

Section AccountProofs.

Variable toLowerCase : JsString -> JsString.
Variable JSON_parse : JsString -> option Json.

Local Abbreviation sameName := (sameNameCI toLowerCase).
Local Abbreviation signup := (signupUser toLowerCase).
Local Abbreviation login := (loginUser toLowerCase).
Local Abbreviation step := (act toLowerCase JSON_parse).
Local Abbreviation exec := (run toLowerCase JSON_parse).

Lemma sameName_true n u :
  sameName n u = true <-> toLowerCase (name u) = toLowerCase n.
Proof. apply eqb_eq. Qed.

Lemma sameName_casing n n' u :
  toLowerCase n' = toLowerCase n -> sameName n' u = sameName n u.
Proof. unfold sameNameCI. now intros ->. Qed.

Lemma taken_iff n us :
  existsb (sameName n) us = true
  <-> exists u, In u us /\ toLowerCase (name u) = toLowerCase n.
Proof.
  rewrite existsb_exists. split; intros [u [Hu E]]; exists u; split; auto;
    now apply sameName_true.
Qed.

Lemma free_iff n us :
  existsb (sameName n) us = false
  <-> forall u, In u us -> toLowerCase (name u) <> toLowerCase n.
Proof.
  split.
  - intros H u Hu E.
    assert (existsb (sameName n) us = true) by (apply taken_iff; eauto).
    congruence.
  - intros H. destruct (existsb (sameName n) us) eqn:E; [|reflexivity].
    apply taken_iff in E as [u [Hu E]]. now apply H in E.
Qed.

(** C7. [signupUser] throws the duplicate-name error, and leaves the
    stores as they were, whenever an account exists whose name equals the
    given one once both are lower-cased.  Otherwise it returns the
    account made of the given name and the hash of the password, and the
    user store is the old one with exactly this account appended; a second
    sign-up with any casing of the name then throws. *)
Theorem signupUser_duplicate_or_append (n password : JsString) (st : Storage) :
  ((exists u, In u (getAllUsers st) /\ toLowerCase (name u) = toLowerCase n) ->
     signup n password st = (Throw DuplicateName, st))
  /\ ((forall u, In u (getAllUsers st) -> toLowerCase (name u) <> toLowerCase n) ->
      let newUser := mkUser n (simpleHash password) in
      let st' := mkStorage (Some (getAllUsers st ++ [newUser]))
                           (ls_conversations st) (ss_currentUser st) in
      signup n password st = (Ok newUser, st')
      /\ forall n' password', toLowerCase n' = toLowerCase n ->
           signup n' password' st' = (Throw DuplicateName, st')).
Proof.
  split.
  - intros H. apply taken_iff in H. unfold signupUser. now rewrite H.
  - intros H. apply free_iff in H. simpl. split.
    + unfold signupUser. now rewrite H.
    + intros n' password' E. unfold signupUser.
      replace (existsb (sameName n') _) with true; [reflexivity|].
      symmetry. apply taken_iff. exists (mkUser n (simpleHash password)).
      split; [|now simpl].
      unfold getAllUsers; simpl. apply in_or_app. right. now left.
Qed.

Lemma firstMatch_find n u us :
  firstMatch toLowerCase n u us -> sameName n u = true -> find (sameName n) us = Some u.
Proof.
  intros [pre [post [-> Hpre]]] Hu.
  induction pre as [|x pre IH]; simpl.
  - now rewrite Hu.
  - rewrite (Hpre x (or_introl eq_refl)). apply IH.
    intros y Hy. apply Hpre. now right.
Qed.

Lemma firstMatch_step n u sys a :
  name u = n -> a <> ResetPassword n ->
  firstMatch toLowerCase n u (getAllUsers (storage sys)) ->
  firstMatch toLowerCase n u (getAllUsers (storage (step sys a))).
Proof.
  intros Hn Ha [pre [post [E Hpre]]].
  destruct (act_users toLowerCase JSON_parse sys a)
    as [H|[[m [p [_ [_ H]]]]|[m [i [Hm [Hi H]]]]]]; rewrite H, E.
  - now exists pre, post.
  - exists pre, (post ++ [mkUser m (simpleHash p)]). split; auto.
    now rewrite <- app_assoc.
  - rewrite updateAt_app.
    destruct (i <? List.length pre)%nat eqn:Lt.
    + exists (updateAt i (fun u0 => mkUser (name u0) (simpleHash (lit "0000"))) pre), post.
      split; auto. intros x Hx.
      apply updateAt_In in Hx as [Hx|[y [Hy ->]]]; [auto|].
      apply (Hpre y Hy).
    + apply Nat.ltb_ge in Lt.
      destruct (i - List.length pre)%nat as [|k] eqn:K.
      * exfalso. apply findIndex_Some in Hi as [x [Hx [Px _]]].
        rewrite E in Hx. rewrite nth_error_app2 in Hx by lia.
        rewrite K in Hx. simpl in Hx. injection Hx as <-.
        apply eqb_eq in Px. apply Ha. congruence.
      * exists pre. eexists. simpl. split; [reflexivity | assumption].
Qed.

Lemma firstMatch_exec n u acts : forall sys,
  name u = n -> Forall (fun a => a <> ResetPassword n) acts ->
  firstMatch toLowerCase n u (getAllUsers (storage sys)) ->
  firstMatch toLowerCase n u (getAllUsers (storage (exec acts sys))).
Proof.
  induction acts as [|a acts IH]; intros sys Hn Hall H; simpl; [assumption|].
  inversion Hall; subst. apply IH; auto. apply firstMatch_step; auto.
Qed.

(** C8. After a successful [signupUser n password], and after any further
    actions of the application that do not reset the password of that
    account, [loginUser] with any casing of the name and the same password
    returns the account, whose name is [n] exactly as it was given, and
    records it as the current user.  In any store, [loginUser] throws the
    invalid-credentials error and changes nothing when no account matches
    the name lower-cased, or when the hash stored in the matching account
    is not the hash of the password. *)
Theorem loginUser_after_signup :
  (forall sys n password u st' acts n',
      signup n password (storage sys) = (Ok u, st') ->
      Forall (fun a => a <> ResetPassword n) acts ->
      toLowerCase n' = toLowerCase n ->
      let st := storage (exec acts (mkSystem st' (chat sys) (events sys))) in
      login n' password st
        = (Ok u, mkStorage (ls_users st) (ls_conversations st) (Some u))
      /\ name u = n)
  /\ (forall n password st,
        (forall u, In u (getAllUsers st) -> toLowerCase (name u) <> toLowerCase n)
        \/ (exists u, find (sameName n) (getAllUsers st) = Some u
                      /\ passwordHash u <> simpleHash password) ->
        login n password st = (Throw InvalidCredentials, st)).
Proof.
  split.
  - intros sys n password u st' acts n' Hs Hall Hcase st.
    unfold signupUser in Hs.
    destruct (existsb _ _) eqn:Free; [discriminate|].
    injection Hs as <- <-.
    set (u := mkUser n (simpleHash password)).
    assert (FM : firstMatch toLowerCase n u (getAllUsers st)).
    { apply firstMatch_exec; auto. simpl.
      exists (getAllUsers (storage sys)), []. split; [reflexivity|].
      intros x Hx. destruct (sameName n x) eqn:S; [|reflexivity].
      assert (existsb (sameName n) (getAllUsers (storage sys)) = true)
        by (apply existsb_exists; eauto).
      congruence. }
    split; [|reflexivity].
    unfold loginUser.
    assert (F : find (sameName n') (getAllUsers st) = Some u).
    { destruct FM as [pre [post [E Hpre]]].
      apply firstMatch_find.
      - exists pre, post. split; auto. intros x Hx.
        rewrite (sameName_casing n n' x Hcase). auto.
      - apply sameName_true. now simpl. }
    rewrite F. simpl. now rewrite eqb_refl.
  - intros n password st [Hnone|[u [F Hh]]]; unfold loginUser.
    + destruct (find (sameName n) (getAllUsers st)) as [x|] eqn:F; [|reflexivity].
      apply find_some in F as [Hx S].
      apply sameName_true in S. now apply Hnone in S.
    + rewrite F. apply eqb_neq in Hh. now rewrite Hh.
Qed.

End AccountProofs.


Section ResetProofs.

Variable toLowerCase : JsString -> JsString.
Variable JSON_parse : JsString -> option Json.

Lemma uniqueCI_step sys a :
  uniqueCI toLowerCase (getAllUsers (storage sys)) ->
  uniqueCI toLowerCase (getAllUsers (storage (act toLowerCase JSON_parse sys a))).
Proof.
  unfold uniqueCI. intros U.
  destruct (act_users toLowerCase JSON_parse sys a)
    as [H|[[m [p [_ [Free H]]]]|[m [i [_ [_ H]]]]]]; rewrite H.
  - assumption.
  - rewrite map_app. simpl. apply NoDup_app.
    + assumption.
    + constructor; [intros [] | constructor].
    + intros x Hx [<-|[]]. apply in_map_iff in Hx as [u [E Hu]].
      assert (existsb (sameNameCI toLowerCase m) (getAllUsers (storage sys)) = true).
      { apply existsb_exists. exists u. split; auto. now apply eqb_eq. }
      congruence.
  - now rewrite updateAt_map.
Qed.

Lemma uniqueCI_reachable acts :
  uniqueCI toLowerCase (getAllUsers (storage (run toLowerCase JSON_parse acts initialSystem))).
Proof.
  unfold run.
  assert (G : forall sys, uniqueCI toLowerCase (getAllUsers (storage sys)) ->
            uniqueCI toLowerCase (getAllUsers (storage (fold_left (act toLowerCase JSON_parse) acts sys)))).
  { induction acts as [|a acts IH]; intros sys U; simpl; [assumption|].
    apply IH. now apply uniqueCI_step. }
  apply G. constructor.
Qed.

Lemma uniqueCI_exact us u v :
  uniqueCI toLowerCase us -> In u us -> In v us ->
  toLowerCase (name u) = toLowerCase (name v) -> u = v.
Proof.
  unfold uniqueCI. induction us as [|x us IH]; simpl; [contradiction|].
  intros U Hu Hv E. inversion U as [|? ? Hnot U']; subst.
  destruct Hu as [<-|Hu], Hv as [<-|Hv]; auto.
  - exfalso. apply Hnot. apply in_map_iff. exists v. auto.
  - exfalso. apply Hnot. apply in_map_iff. exists u. auto.
Qed.

(** C9. [resetStudentPassword] looks the account up by the exact name.  In
    every store the application can reach, a name that differs from the name
    of an existing account but equals it lower-cased (a name [loginUser]
    does resolve to that account) leaves the stores unchanged.  In any store,
    when some account has exactly the given name, the first such account
    keeps its name and gets the hash of "0000", every other position of the
    user list is unchanged, and so are the conversations and the session;
    when none has, nothing changes. *)
Theorem resetStudentPassword_exact_name :
  (forall acts u n,
      let st := storage (run toLowerCase JSON_parse acts initialSystem) in
      In u (getAllUsers st) ->
      toLowerCase n = toLowerCase (name u) -> n <> name u ->
      resetStudentPassword n st = st
      /\ find (sameNameCI toLowerCase n) (getAllUsers st) = Some u)
  /\ (forall st n,
        (exists u, In u (getAllUsers st) /\ name u = n) ->
        let st' := resetStudentPassword n st in
        exists i u,
          nth_error (getAllUsers st) i = Some u /\ name u = n
          /\ (forall j v, (j < i)%nat ->
                nth_error (getAllUsers st) j = Some v -> name v <> n)
          /\ nth_error (getAllUsers st') i
             = Some (mkUser n (simpleHash (lit "0000")))
          /\ (forall j, j <> i ->
                nth_error (getAllUsers st') j = nth_error (getAllUsers st) j)
          /\ List.length (getAllUsers st') = List.length (getAllUsers st)
          /\ ls_conversations st' = ls_conversations st
          /\ ss_currentUser st' = ss_currentUser st)
  /\ (forall st n,
        (forall u, In u (getAllUsers st) -> name u <> n) ->
        resetStudentPassword n st = st).
Proof.
  split; [|split].
  - intros acts u n st Hu Hcase Hneq.
    pose proof (uniqueCI_reachable acts) as U. fold st in U.
    split.
    + unfold resetStudentPassword.
      destruct (findIndex _ _) as [i|] eqn:F; [|reflexivity].
      exfalso. apply findIndex_Some in F as [x [Hx [Px _]]].
      apply eqb_eq in Px. apply nth_error_In in Hx.
      assert (x = u) by (apply (uniqueCI_exact _ _ _ U Hx Hu); congruence).
      congruence.
    + destruct (find _ _) as [x|] eqn:F.
      * apply find_some in F as [Hx S]. apply eqb_eq in S.
        f_equal. apply (uniqueCI_exact _ _ _ U Hx Hu). congruence.
      * exfalso. pose proof (find_none _ _ F u Hu) as S.
        apply eqb_neq in S. auto.
  - intros st n [u0 [Hu0 Hn0]] st'. unfold st', resetStudentPassword.
    destruct (findIndex (fun u => eqb (name u) n) (getAllUsers st)) as [i|] eqn:F.
    2:{ exfalso. rewrite findIndex_None in F. specialize (F u0 Hu0).
        simpl in F. apply eqb_neq in F. contradiction. }
    rewrite getAllUsers_saveUsers.
    apply findIndex_Some in F as [x [Hx [Px Hlt]]]. apply eqb_eq in Px.
    exists i, x. repeat split; auto.
    + intros j v Hj Hv. apply eqb_neq. now apply (Hlt j v).
    + rewrite (updateAt_same _ _ _ _ Hx). now rewrite Px.
    + intros j Hj. now apply updateAt_other.
    + apply updateAt_length.
  - intros st n H. unfold resetStudentPassword.
    replace (findIndex _ _) with (@None nat); [reflexivity|].
    symmetry. apply findIndex_None. intros x Hx. apply eqb_neq. auto.
Qed.

End ResetProofs.

(* ===================================================================== *)
(** ** The gateway: what a call adds to the log *)
(* ===================================================================== *)

Lemma calls_app (a b : list Event) : calls (a ++ b) = calls a ++ calls b.
Proof.
  induction a as [|[c|r] a IH]; simpl; [reflexivity| |assumption].
  now rewrite IH.
Qed.

Lemma getChatResponse_events env h log :
  exists evs, snd (getChatResponse env h log) = log ++ Called (GetChatResponse h) :: evs
              /\ calls evs = [].
Proof. gateway_cases env; log_tail. Qed.

Lemma getFinalChatResponse_events env h log :
  exists evs, snd (getFinalChatResponse env h log)
              = log ++ Called (GetFinalChatResponse h) :: evs
              /\ calls evs = [].
Proof. gateway_cases env; log_tail. Qed.

Lemma getFinalSummary_events JSON_parse env h log :
  exists evs, snd (getFinalSummary JSON_parse env h log)
              = log ++ Called (GetFinalSummary h) :: evs
              /\ calls evs = [].
Proof. gateway_cases env; log_tail. Qed.

Lemma getMoodMeterQuadrant_events toUpperCase env m log :
  exists evs, snd (getMoodMeterQuadrant toUpperCase env m log)
              = log ++ Called (GetMoodMeterQuadrant m) :: evs
              /\ calls evs = [].
Proof. gateway_cases env; log_tail. Qed.

(** The three chat operations surface their own error only, or the
    missing credential. *)
Lemma getFinalSummary_throws JSON_parse env h log e log' :
  getFinalSummary JSON_parse env h log = (Throw e, log') ->
  e = SummaryError \/ e = CredentialMissing.
Proof. gateway_cases env; intros [= <- <-]; auto. Qed.

Lemma requests_app a b : requests (a ++ b) = requests a ++ requests b.
Proof.
  induction a as [|[c|r] a IH]; simpl; [reflexivity|assumption|].
  now rewrite IH.
Qed.

Lemma getAI_noKey env log : noKey env -> getAI env log = (Throw CredentialMissing, log).
Proof.
  unfold noKey, getAI. intros H.
  destruct (apiKey env) as [k|]; [|reflexivity]. now rewrite (H k eq_refl).
Qed.

Lemma getAI_keySet env log : keySet env -> getAI env log = (Ok tt, log).
Proof.
  unfold getAI. intros [k [-> ->]]. reflexivity.
Qed.

(* ===================================================================== *)
(** ** The chat view: one run of the handler *)
(* ===================================================================== *)

Section HandlerProofs.

Variable JSON_parse : JsString -> option Json.

Local Abbreviation handle := (ChatView.handleSendMessage JSON_parse).
Local Abbreviation sendTo := (ChatView.send JSON_parse).

(** The guard of the handler: nothing happens on a blank input, while the
    coach is typing, or once the conversation is over. *)
Lemma send_guarded env u input s st log :
  truthy (trim input) = false \/ ChatView.isAITyping s = true
  \/ ChatView.isConversationOver s = true ->
  sendTo env u input s st log = (ChatView.setUserInput input s, st, log).
Proof.
  intros H. destruct s as [ms ui ty t ov fs er]. cbn in H.
  unfold ChatView.send, ChatView.handleSendMessage. chat_fields.
  destruct H as [-> | [-> | ->]]; cbv beta iota delta [negb orb];
    repeat break_match; reflexivity.
Qed.

(** The handler past its guard, as one equation. *)
Lemma send_unfold env u input s st log :
  ChatView.inProgress s -> truthy (trim input) = true ->
  sendTo env u input s st log =
  let newHistory := ChatView.messages s ++ [mkMessage user input] in
  let newTurnCount := ChatView.turnCount s + 1 in
  match (if newTurnCount =? MAX_TURNS
         then getFinalChatResponse env newHistory
         else getChatResponse env newHistory) log with
  | (Throw e, log1) =>
      (ChatView.mkChat newHistory [] false (ChatView.turnCount s) false
                       (ChatView.finalSummary s) (Some e), st, log1)
  | (Ok reply, log1) =>
      let finalHistory := newHistory ++ [mkMessage ai reply] in
      if newTurnCount >=? MAX_TURNS then
        match getFinalSummary JSON_parse env finalHistory log1 with
        | (Throw e, log2) =>
            (ChatView.mkChat finalHistory [] false newTurnCount true
                             (ChatView.finalSummary s) (Some e), st, log2)
        | (Ok sm, log2) =>
            match saveConversation (name u)
                    (mkConversation (lit "conv_" ++ toString (now env 0)) (now env 1)
                                    finalHistory sm) st with
            | (Throw e, st') =>
                (ChatView.mkChat finalHistory [] false newTurnCount true sm (Some e),
                 st', log2)
            | (Ok _, st') =>
                (ChatView.mkChat finalHistory [] false newTurnCount true sm None,
                 st', log2)
            end
        end
      else (ChatView.mkChat finalHistory [] false newTurnCount false
                            (ChatView.finalSummary s) None, st, log1)
  end.
Proof.
  intros [Ht Ho] Hi. destruct s as [ms ui ty t ov fs er].
  cbn in Ht, Ho. subst ty ov.
  unfold ChatView.send, ChatView.handleSendMessage. chat_fields.
  rewrite Hi. cbv beta iota delta [negb orb].
  repeat break_match; reflexivity.
Qed.

(** Whatever the gateway does, the history after the run starts with the
    old history followed by the user message. *)
Lemma send_history_prefix env u s st log input :
  ChatView.inProgress s -> truthy (trim input) = true ->
  exists rest,
    ChatView.messages (fst (fst (sendTo env u input s st log)))
    = (ChatView.messages s ++ [mkMessage user input]) ++ rest.
Proof.
  intros Hin Hi. rewrite send_unfold by assumption. cbv zeta.
  repeat break_match; cbn [fst snd]; chat_fields;
    eexists; first [ reflexivity | symmetry; apply app_nil_r ].
Qed.

(** The gateway entry points one run of the handler calls, and what it
    leaves in the state when the operation of the turn returns. *)
Lemma send_calls env u s st log input :
  ChatView.inProgress s -> truthy (trim input) = true ->
  let t := ChatView.turnCount s in
  let history := ChatView.messages s ++ [mkMessage user input] in
  let r := sendTo env u input s st log in
  let s' := fst (fst r) in
  exists evs, snd r = log ++ evs
  /\ (t + 1 < MAX_TURNS ->
        calls evs = [GetChatResponse history]
        /\ forall reply log1,
             getChatResponse env history log = (Ok reply, log1) ->
             ChatView.messages s' = history ++ [mkMessage ai reply]
             /\ ChatView.turnCount s' = t + 1)
  /\ (t + 1 = MAX_TURNS ->
        (calls evs = [GetFinalChatResponse history]
         \/ exists reply,
              calls evs = [GetFinalChatResponse history;
                           GetFinalSummary (history ++ [mkMessage ai reply])])
        /\ forall reply log1,
             getFinalChatResponse env history log = (Ok reply, log1) ->
             ChatView.messages s' = history ++ [mkMessage ai reply]
             /\ ChatView.turnCount s' = t + 1).
Proof.
  intros Hin Hi t history r s'. subst r s'.
  rewrite send_unfold by assumption. cbv zeta. fold t. fold history.
  destruct (t + 1 =? MAX_TURNS) eqn:E.
  - apply Z.eqb_eq in E.
    assert (G : (t + 1 >=? MAX_TURNS) = true) by (apply Z.geb_le; lia).
    rewrite G.
    destruct (getFinalChatResponse_events env history log) as [evs [Hl Hc]].
    destruct (getFinalChatResponse env history log) as [[reply|e] log1] eqn:R;
      simpl in Hl; subst log1.
    + destruct (getFinalSummary_events JSON_parse env
                  (history ++ [mkMessage ai reply])
                  (log ++ Called (GetFinalChatResponse history) :: evs))
        as [evs2 [Hl2 Hc2]].
      assert (C : calls (Called (GetFinalChatResponse history) :: evs
                         ++ Called (GetFinalSummary (history ++ [mkMessage ai reply]))
                         :: evs2)
                  = [GetFinalChatResponse history;
                     GetFinalSummary (history ++ [mkMessage ai reply])]).
      { simpl. rewrite calls_app, Hc. simpl. now rewrite Hc2. }
      destruct (getFinalSummary _ _ _ _) as [[sm|e] log2]; simpl in Hl2;
        subst log2; save_cases; cbn [fst snd];
        (eexists; split; [rewrite <- app_assoc; reflexivity|]);
        (split; [intros; lia|]); intros _;
        (split; [right; exists reply; exact C|]);
        intros reply' log1' [= <- <-]; chat_fields; auto.
    + cbn [fst snd]. eexists; split; [reflexivity|].
      split; [intros; lia|]. intros _. split.
      * left. simpl. now rewrite Hc.
      * intros reply' log1' [=].
  - apply Z.eqb_neq in E.
    destruct (getChatResponse_events env history log) as [evs [Hl Hc]].
    destruct (getChatResponse env history log) as [[reply|e] log1] eqn:R;
      simpl in Hl; subst log1.
    + destruct (t + 1 >=? MAX_TURNS) eqn:G.
      * apply Z.geb_le in G.
        destruct (getFinalSummary_events JSON_parse env
                    (history ++ [mkMessage ai reply])
                    (log ++ Called (GetChatResponse history) :: evs))
          as [evs2 [Hl2 _]].
        destruct (getFinalSummary _ _ _ _) as [[sm|e] log2]; simpl in Hl2;
          subst log2; save_cases; cbn [fst snd];
          (eexists; split; [rewrite <- app_assoc; reflexivity
                           | split; intros; lia]).
      * cbn [fst snd]. eexists; split; [reflexivity|].
        split; [|intros; lia]. intros _. split.
        -- simpl. now rewrite Hc.
        -- intros reply' log1' [= <- <-]. chat_fields. auto.
    + cbn [fst snd]. eexists; split; [reflexivity|].
      split; [|intros; lia]. intros _. split.
      * simpl. now rewrite Hc.
      * intros reply' log1' [=].
Qed.

(** C1. In a conversation in progress with turn count [t] and history [h],
    sending an input appends the user message to [h]; when [t + 1] is below
    [MAX_TURNS] the only entry point of the gateway that is called is
    [getChatResponse], with the history that ends with the new user message;
    when [t + 1] is [MAX_TURNS] it is [getFinalChatResponse] with that
    history (followed by the summary when it succeeds), and [getChatResponse]
    is not called.  When the operation returns an answer, the answer is
    appended after the user message and the turn count becomes [t + 1]. *)
Theorem handleSendMessage_invokes env u s st log input :
  ChatView.inProgress s -> truthy (trim input) = true ->
  let t := ChatView.turnCount s in
  let history := ChatView.messages s ++ [mkMessage user input] in
  let r := sendTo env u input s st log in
  let s' := fst (fst r) in
  (exists rest, ChatView.messages s' = history ++ rest)
  /\ exists evs, snd r = log ++ evs
  /\ (t + 1 < MAX_TURNS ->
        calls evs = [GetChatResponse history]
        /\ forall reply log1,
             getChatResponse env history log = (Ok reply, log1) ->
             ChatView.messages s' = history ++ [mkMessage ai reply]
             /\ ChatView.turnCount s' = t + 1)
  /\ (t + 1 = MAX_TURNS ->
        (calls evs = [GetFinalChatResponse history]
         \/ exists reply,
              calls evs = [GetFinalChatResponse history;
                           GetFinalSummary (history ++ [mkMessage ai reply])])
        /\ forall reply log1,
             getFinalChatResponse env history log = (Ok reply, log1) ->
             ChatView.messages s' = history ++ [mkMessage ai reply]
             /\ ChatView.turnCount s' = t + 1).
Proof.
  intros Hin Hi t history r s'. split.
  - apply send_history_prefix; assumption.
  - apply send_calls; assumption.
Qed.

(** C2, as the code has it.  When the gateway call of a turn throws, the
    turn count is not advanced, the conversation is still in progress,
    nothing is persisted and the error is shown, so the turn can be sent
    again; the message history, however, keeps the user message of the
    failed attempt, and the input field is cleared. *)
Theorem failed_turn_keeps_count env u s st log input e log1 :
  ChatView.inProgress s -> truthy (trim input) = true ->
  let history := ChatView.messages s ++ [mkMessage user input] in
  (if ChatView.turnCount s + 1 =? MAX_TURNS
   then getFinalChatResponse env history
   else getChatResponse env history) log = (Throw e, log1) ->
  let r := sendTo env u input s st log in
  let s' := fst (fst r) in
  snd (fst r) = st
  /\ ChatView.turnCount s' = ChatView.turnCount s
  /\ ChatView.inProgress s'
  /\ ChatView.finalSummary s' = ChatView.finalSummary s
  /\ ChatView.error s' = Some e
  /\ ChatView.messages s' = history
  /\ ChatView.userInput s' = [].
Proof.
  intros Hin Hi history Hfail r s'. subst r s'.
  rewrite send_unfold by assumption. cbv zeta. fold history.
  rewrite Hfail. cbn [fst snd]. chat_fields.
  unfold ChatView.inProgress. chat_fields. repeat split.
Qed.

(** After a guarded run nothing but the input field has changed. *)
Lemma sends_over u inputs : forall s st log,
  ChatView.isConversationOver s = true ->
  let r := sends JSON_parse u inputs (s, st, log) in
  snd (fst r) = st /\ snd r = log
  /\ ChatView.finalSummary (fst (fst r)) = ChatView.finalSummary s
  /\ ChatView.isConversationOver (fst (fst r)) = true
  /\ ChatView.messages (fst (fst r)) = ChatView.messages s
  /\ ChatView.turnCount (fst (fst r)) = ChatView.turnCount s.
Proof.
  induction inputs as [|[env input] inputs IH]; intros s st log Ho; simpl.
  - repeat split; assumption.
  - rewrite send_guarded by auto.
    destruct (IH (ChatView.setUserInput input s) st log Ho)
      as [H1 [H2 [H3 [H4 [H5 H6]]]]].
    repeat split; assumption.
Qed.

(** C3, what the code does.  When the closing turn succeeds and the summary
    then fails, the error is shown, but the conversation is already marked
    as over: whatever is sent afterwards, the gateway is not called again,
    nothing is persisted and no summary is ever set. *)
Theorem summarize_failure_blocks_retry env u s st log input reply log1 e log2 :
  ChatView.inProgress s -> truthy (trim input) = true ->
  ChatView.turnCount s + 1 = MAX_TURNS ->
  let history := ChatView.messages s ++ [mkMessage user input] in
  getFinalChatResponse env history log = (Ok reply, log1) ->
  getFinalSummary JSON_parse env (history ++ [mkMessage ai reply]) log1
    = (Throw e, log2) ->
  let r := sendTo env u input s st log in
  ChatView.error (fst (fst r)) = Some e
  /\ ChatView.isConversationOver (fst (fst r)) = true
  /\ forall inputs,
       let r' := sends JSON_parse u inputs r in
       snd (fst r') = st /\ snd r' = log2
       /\ ChatView.finalSummary (fst (fst r')) = ChatView.finalSummary s.
Proof.
  intros Hin Hi Ht history Hclose Hsum r. subst r.
  rewrite send_unfold by assumption. cbv zeta. fold history.
  apply Z.eqb_eq in Ht as Ht'. rewrite Ht'.
  replace (ChatView.turnCount s + 1 >=? MAX_TURNS) with true
    by (symmetry; apply Z.geb_le; lia).
  rewrite Hclose, Hsum. cbn [fst snd]. chat_fields.
  repeat split; try reflexivity.
  all: match goal with
       | |- context [sends _ _ _ (?s0, _, _)] =>
           destruct (sends_over u inputs s0 st log2 eq_refl)
             as [H1 [H2 [H3 _]]]
       end; auto.
Qed.

End HandlerProofs.

(* ===================================================================== *)
(** ** Message sequences *)
(* ===================================================================== *)

Lemma countUser_app a b : countUser (a ++ b) = (countUser a + countUser b)%nat.
Proof. unfold countUser. now rewrite filter_app, length_app. Qed.

Lemma countAi_app a b : countAi (a ++ b) = (countAi a + countAi b)%nat.
Proof. unfold countAi. now rewrite filter_app, length_app. Qed.

Lemma turnPairs_snoc_user l x :
  turnPairs (l ++ [mkMessage user x]) = turnPairs l.
Proof.
  induction l as [|m l IH]; [reflexivity|].
  destruct l as [|m' l'].
  - simpl. now rewrite andb_false_r.
  - change ((m :: m' :: l') ++ [mkMessage user x])
      with (m :: (m' :: l') ++ [mkMessage user x]).
    simpl turnPairs at 2. cbn [turnPairs app]. cbn [turnPairs app] in IH.
    now rewrite IH.
Qed.

Lemma turnPairs_snoc_turn l x y :
  turnPairs (l ++ [mkMessage user x; mkMessage ai y]) = S (turnPairs l).
Proof.
  induction l as [|m l IH]; [reflexivity|].
  destruct l as [|m' l'].
  - simpl. now rewrite andb_false_r.
  - cbn [turnPairs app]. cbn [turnPairs app] in IH.
    rewrite IH. now destruct (isUser m && isAi m').
Qed.

Lemma noAdjacentAi_snoc_user l x :
  noAdjacentAi (l ++ [mkMessage user x]) = noAdjacentAi l.
Proof.
  induction l as [|m l IH]; [reflexivity|].
  destruct l as [|m' l'].
  - simpl. now rewrite andb_false_r.
  - cbn [noAdjacentAi app]. cbn [noAdjacentAi app] in IH. now rewrite IH.
Qed.

Lemma noAdjacentAi_snoc_turn l x y :
  noAdjacentAi (l ++ [mkMessage user x; mkMessage ai y]) = noAdjacentAi l.
Proof.
  induction l as [|m l IH]; [reflexivity|].
  destruct l as [|m' l'].
  - simpl. now rewrite andb_false_r.
  - cbn [noAdjacentAi app]. cbn [noAdjacentAi app] in IH. now rewrite IH.
Qed.

Lemma alternates_snoc_turn x y : forall l,
  alternates l = true ->
  alternates (l ++ [mkMessage user x; mkMessage ai y]) = true.
Proof.
  assert (G : forall l,
             (alternates l = true ->
              alternates (l ++ [mkMessage user x; mkMessage ai y]) = true)
             /\ forall m, alternates (m :: l) = true ->
                  alternates ((m :: l) ++ [mkMessage user x; mkMessage ai y]) = true).
  { induction l as [|m' l [IH1 IH2]].
    - split; [reflexivity | discriminate].
    - split; [apply IH2|].
      intros m H. cbn [alternates app] in *.
      apply andb_true_iff in H as [H1 H2]. rewrite H1. simpl. now apply IH1. }
  intros l. apply G.
Qed.

Lemma lastIsAi_snoc l m : lastIsAi (l ++ [m]) = isAi m.
Proof. unfold lastIsAi. now rewrite rev_app_distr. Qed.

Lemma Body_countAi t f b : Body t f b -> countAi b = t.
Proof.
  induction 1; [reflexivity| |]; rewrite countAi_app;
    unfold countAi in *; simpl; lia.
Qed.

Lemma Body_countUser t f b : Body t f b -> countUser b = (t + f)%nat.
Proof.
  induction 1; [reflexivity| |]; rewrite countUser_app;
    unfold countUser in *; simpl; lia.
Qed.

Lemma Body_turnPairs t f b g : Body t f b -> turnPairs (g :: b) = t.
Proof.
  induction 1 as [|t f b x HB IH|t f b x y HB IH]; [reflexivity| |].
  - change (g :: b ++ [mkMessage user x]) with ((g :: b) ++ [mkMessage user x]).
    now rewrite turnPairs_snoc_user.
  - change (g :: b ++ [mkMessage user x; mkMessage ai y])
      with ((g :: b) ++ [mkMessage user x; mkMessage ai y]).
    rewrite turnPairs_snoc_turn. now f_equal.
Qed.

Lemma Body_noAdjacentAi t f b g : Body t f b -> noAdjacentAi (g :: b) = true.
Proof.
  induction 1 as [|t f b x HB IH|t f b x y HB IH]; [reflexivity| |].
  - change (g :: b ++ [mkMessage user x]) with ((g :: b) ++ [mkMessage user x]).
    now rewrite noAdjacentAi_snoc_user.
  - change (g :: b ++ [mkMessage user x; mkMessage ai y])
      with ((g :: b) ++ [mkMessage user x; mkMessage ai y]).
    now rewrite noAdjacentAi_snoc_turn.
Qed.

Lemma Body_alternates t b : Body t 0 b -> alternates b = true.
Proof.
  intros H. remember O as f eqn:F. revert F.
  induction H as [|t f b x HB IH|t f b x y HB IH]; intros F;
    [reflexivity|discriminate|].
  apply alternates_snoc_turn. auto.
Qed.

(* ===================================================================== *)
(** ** The conversation store *)
(* ===================================================================== *)

Lemma persisted_saveAll m st :
  persisted (saveAllConversations m st)
  = map written (List.concat (map snd (entries m))).
Proof.
  unfold persisted, saveAllConversations, getAllConversations.
  cbn [ls_conversations].
  induction (entries m) as [|[k v] l IH]; simpl; [reflexivity|].
  now rewrite map_app, IH.
Qed.

(** The enumeration of an object lists each property once. *)
Lemma insertAscending_perm {A} n (e : A) l :
  Permutation (map snd (insertAscending n e l)) (e :: map snd l).
Proof.
  induction l as [|[n' e'] l IH]; simpl; [reflexivity|].
  destruct (n <=? n'); simpl; [reflexivity|].
  rewrite IH. apply perm_swap.
Qed.

Lemma entries_perm {A} (m : list (JsString * A)) : Permutation (entries m) m.
Proof.
  unfold entries. induction m as [|p m IH]; simpl; [reflexivity|].
  destruct (arrayIndex (fst p)).
  - rewrite insertAscending_perm. simpl. now constructor.
  - symmetry. apply Permutation_cons_app. now symmetry.
Qed.

Lemma entries_In {A} (m : list (JsString * A)) p : In p (entries m) <-> In p m.
Proof.
  split; apply Permutation_in; [|symmetry]; apply entries_perm.
Qed.


Lemma indexed_insertAscending {A} n (p : JsString * A) acc :
  arrayIndex (fst p) = Some n -> indexed acc -> indexed (insertAscending n p acc).
Proof.
  intros Hp. unfold indexed.
  induction acc as [|[n' e'] acc IH]; simpl; intros H.
  - now constructor.
  - destruct (n <=? n'); [now constructor|].
    inversion H; subst. constructor; [assumption|]. now apply IH.
Qed.

Lemma indexed_fold {A} (m : list (JsString * A)) :
  indexed (fold_right (fun p acc => match arrayIndex (fst p) with
                                    | Some n => insertAscending n p acc
                                    | None => acc
                                    end) [] m).
Proof.
  induction m as [|p m IH]; simpl; [constructor|].
  destruct (arrayIndex (fst p)) eqn:E; [|exact IH].
  now apply indexed_insertAscending.
Qed.

Lemma insertAscending_In {A} n (e : A) l x :
  In x (insertAscending n e l) <-> x = (n, e) \/ In x l.
Proof.
  induction l as [|[n' e'] l IH]; simpl.
  - intuition.
  - destruct (n <=? n'); simpl; [intuition|]. rewrite IH. intuition.
Qed.

Lemma insertAscending_sorted {A} n (e : A) l :
  StronglySorted (fun a b => fst a <= fst b) l ->
  StronglySorted (fun a b => fst a <= fst b) (insertAscending n e l).
Proof.
  induction 1 as [|[n' e'] l Hs IH Hall]; simpl.
  - repeat constructor.
  - destruct (n <=? n') eqn:L.
    + apply Z.leb_le in L. constructor; [now constructor|].
      constructor; [exact L|].
      apply Forall_forall. intros x Hx.
      rewrite Forall_forall in Hall. specialize (Hall x Hx). simpl in *. lia.
    + apply Z.leb_gt in L. constructor; [exact IH|].
      apply Forall_forall. intros x Hx.
      apply insertAscending_In in Hx as [->|Hx]; [simpl; lia|].
      rewrite Forall_forall in Hall. now apply Hall.
Qed.

Lemma insertAscending_least {A} n (e : A) l :
  (forall x, In x l -> n <= fst x) -> insertAscending n e l = (n, e) :: l.
Proof.
  destruct l as [|[n' e'] l]; simpl; [reflexivity|]. intros H.
  assert (L : n <= n') by (apply (H (n', e')); now left).
  apply Z.leb_le in L. now rewrite L.
Qed.

Section Enumeration.

Context {A : Type}.

Local Abbreviation indexPart :=
  (fold_right (fun (p : JsString * A) acc =>
                 match arrayIndex (fst p) with
                 | Some n => insertAscending n p acc
                 | None => acc
                 end) []).

Local Abbreviation otherPart :=
  (filter (fun p : JsString * A => match arrayIndex (fst p) with
                                   | Some _ => false
                                   | None => true
                                   end)).

Lemma indexPart_sorted (m : list (JsString * A)) :
  StronglySorted (fun a b => fst a <= fst b) (indexPart m).
Proof.
  induction m as [|p m IH]; simpl; [constructor|].
  destruct (arrayIndex (fst p)); [|exact IH].
  now apply insertAscending_sorted.
Qed.

Lemma indexPart_In (m : list (JsString * A)) x :
  In x (indexPart m) -> In (snd x) m.
Proof.
  induction m as [|p m IH]; simpl; [tauto|].
  destruct (arrayIndex (fst p)); [|auto].
  intros H. apply insertAscending_In in H as [->|H]; [now left | auto].
Qed.

Lemma indexPart_nil (m : list (JsString * A)) :
  Forall (fun p => arrayIndex (fst p) = None) m -> indexPart m = [].
Proof.
  induction 1 as [|p m Hp _ IH]; simpl; [reflexivity|]. now rewrite Hp.
Qed.

Lemma StronglySorted_app {B} (R : B -> B -> Prop) a b :
  StronglySorted R a -> StronglySorted R b ->
  (forall x y, In x a -> In y b -> R x y) ->
  StronglySorted R (a ++ b).
Proof.
  induction 1 as [|x a Hs IH Hall]; simpl; intros Hb Hab; [exact Hb|].
  constructor.
  - apply IH; [exact Hb|]. intros u v Hu Hv. apply Hab; [now right | exact Hv].
  - apply Forall_app. split; [exact Hall|].
    apply Forall_forall. intros y Hy. apply Hab; [now left | exact Hy].
Qed.

Lemma indexed_enumerated (acc : list (Z * (JsString * A))) :
  indexed acc -> StronglySorted (fun a b => fst a <= fst b) acc ->
  StronglySorted enumeratedBefore (map fst (map snd acc)).
Proof.
  intros Hi Hs. induction Hs as [|x acc Hs IH Hall]; simpl; [constructor|].
  inversion Hi as [|? ? Hx Hi']; subst.
  constructor; [now apply IH|].
  apply Forall_forall. intros k Hk.
  apply in_map_iff in Hk as [p [<- Hp]].
  apply in_map_iff in Hp as [y [<- Hy]].
  unfold enumeratedBefore. rewrite Hx.
  unfold indexed in Hi'. rewrite Forall_forall in Hi', Hall.
  rewrite (Hi' y Hy). now apply Hall.
Qed.

Lemma otherPart_enumerated (m : list (JsString * A)) :
  StronglySorted enumeratedBefore (map fst (otherPart m)).
Proof.
  assert (H : forall l : list (JsString * A),
             Forall (fun p => arrayIndex (fst p) = None) l ->
             StronglySorted enumeratedBefore (map fst l)).
  { induction 1 as [|p l Hp Hl IH]; simpl; [constructor|].
    constructor; [exact IH|].
    apply Forall_forall. intros k Hk. apply in_map_iff in Hk as [q [<- Hq]].
    rewrite Forall_forall in Hl. unfold enumeratedBefore.
    now rewrite Hp, (Hl q Hq). }
  apply H. apply Forall_forall. intros p Hp.
  apply filter_In in Hp as [_ Hp]. now destruct (arrayIndex (fst p)).
Qed.

(** The enumeration is in the order of enumeration, and enumerating
    properties that were created in that order gives them as they are. *)
Lemma entries_enumerated (m : list (JsString * A)) :
  StronglySorted enumeratedBefore (map fst (entries m)).
Proof.
  unfold entries. rewrite map_app. apply StronglySorted_app.
  - apply indexed_enumerated; [apply indexed_fold | apply indexPart_sorted].
  - apply otherPart_enumerated.
  - intros k k' Hk Hk'.
    apply in_map_iff in Hk as [p [<- Hp]].
    apply in_map_iff in Hp as [x [<- Hx]].
    apply in_map_iff in Hk' as [q [<- Hq]].
    apply filter_In in Hq as [_ Hq].
    pose proof (indexed_fold m) as Hi. unfold indexed in Hi.
    rewrite Forall_forall in Hi. unfold enumeratedBefore.
    rewrite (Hi x Hx). now destruct (arrayIndex (fst q)).
Qed.

Lemma entries_fixed (l : list (JsString * A)) :
  StronglySorted enumeratedBefore (map fst l) -> entries l = l.
Proof.
  unfold entries. induction l as [|p l IH]; [reflexivity|].
  cbn [map]. intros H. inversion H as [|? ? Hs Hall]; subst.
  specialize (IH Hs). cbn [fold_right filter].
  destruct (arrayIndex (fst p)) as [n|] eqn:E.
  - rewrite insertAscending_least.
    + cbn [map snd app]. now rewrite IH.
    + intros [n' q] Hq. cbn [fst].
      pose proof (indexed_fold l) as Hi. unfold indexed in Hi.
      rewrite Forall_forall in Hi. pose proof (Hi _ Hq) as Hn. cbn [fst snd] in Hn.
      apply indexPart_In in Hq. cbn [snd] in Hq.
      rewrite Forall_forall in Hall.
      assert (Hb : enumeratedBefore (fst p) (fst q))
        by (apply Hall; now apply in_map).
      unfold enumeratedBefore in Hb. now rewrite E, Hn in Hb.
  - assert (Hnone : Forall (fun q => arrayIndex (fst q) = None) l).
    { apply Forall_forall. intros q Hq. rewrite Forall_forall in Hall.
      assert (Hb : enumeratedBefore (fst p) (fst q))
        by (apply Hall; now apply in_map).
      unfold enumeratedBefore in Hb. rewrite E in Hb.
      now destruct (arrayIndex (fst q)). }
    rewrite (indexPart_nil l Hnone) in IH |- *. cbn [map app] in IH |- *.
    now rewrite IH.
Qed.

End Enumeration.

Lemma concat_In_perm (l l' : ConvMap) x :
  Permutation l l' ->
  In x (List.concat (map snd l)) -> In x (List.concat (map snd l')).
Proof.
  intros P Hin. apply in_concat in Hin as [cs [Hcs Hx]].
  apply in_concat. exists cs. split; [|exact Hx].
  apply (Permutation_in _ (Permutation_map snd P)). exact Hcs.
Qed.

(** The list [saveConversation] extends. *)
Lemma getConversations_list n st l :
  getConversations n st = ConversationList l ->
  l = match lookup n (getAllConversations st) with Some cs => cs | None => [] end.
Proof.
  unfold getConversations, member. destruct (lookup _ _); [now intros [= <-]|].
  destruct (includes _ _); [discriminate | now intros [= <-]].
Qed.

Lemma assign_persisted n c x : forall m : ConvMap,
  In x (List.concat (map snd
          (assign n (match lookup n m with Some cs => cs | None => [] end ++ [c]) m))) ->
  In x (List.concat (map snd m)) \/ x = c.
Proof.
  induction m as [|[k v] m IH]; simpl.
  - intros [H|[]]; auto.
  - destruct (eqb n k); simpl; intros H.
    + rewrite <- app_assoc in H. apply in_app_or in H as [H|H].
      * left. apply in_or_app. now left.
      * simpl in H. destruct H as [H|H]; [auto|].
        left. apply in_or_app. now right.
    + apply in_app_or in H as [H|H].
      * left. apply in_or_app. now left.
      * apply IH in H as [H|H]; [|auto]. left. apply in_or_app. now right.
Qed.

Lemma persisted_saveConversation n c st st' x :
  saveConversation n c st = (Ok tt, st') ->
  In x (persisted st') ->
  (exists y, In y (persisted st) /\ x = written y) \/ x = written c.
Proof.
  unfold saveConversation.
  destruct (getConversations n st) as [l|] eqn:G; [|discriminate].
  intros [= <-]. rewrite persisted_saveAll. intros Hin.
  apply in_map_iff in Hin as [y [<- Hy]].
  apply (concat_In_perm _ _ _ (entries_perm _)) in Hy.
  apply getConversations_list in G. subst l.
  apply assign_persisted in Hy as [Hy| ->]; [left; eauto | now right].
Qed.

(* ===================================================================== *)
(** ** The chat view: what holds between two runs of the handler *)
(* ===================================================================== *)

Lemma ViewState_initial u : ViewState u 0 0 (ChatView.initialChat u).
Proof.
  exists []. simpl.
  split; [reflexivity|]. split; [apply Body_nil|]. split; [reflexivity|].
  split; [lia|]. split; [reflexivity|].
  split; [split; [discriminate | intros H; discriminate H] | reflexivity].
Qed.

Lemma ChatInv_initial u : ChatInv u (ChatView.initialChat u).
Proof. exists O, O. apply ViewState_initial. Qed.

Lemma GoodConversation_written c : GoodConversation c -> GoodConversation (written c).
Proof. intros H. exact H. Qed.

Section ChatProofs.

Variable JSON_parse : JsString -> option Json.

(** The guard of the handler is not a failed turn. *)
Lemma turnFails_guarded env input s log :
  truthy (trim input) = false \/ ChatView.isAITyping s = true
  \/ ChatView.isConversationOver s = true ->
  turnFails env input s log = false.
Proof.
  unfold turnFails. intros [-> | [-> | ->]]; cbn [negb orb];
    rewrite ?orb_true_r; reflexivity.
Qed.

(** One run of the handler: the turns that succeeded and failed so far, and
    what the run does to the store. *)
Lemma send_inv env u input s st log t f :
  ViewState u t f s ->
  let r := ChatView.send JSON_parse env u input s st log in
  (exists t',
      ViewState u t' (f + if turnFails env input s log then 1 else 0)
                (fst (fst r)))
  /\ storeEffect JSON_parse env u s (fst (fst r)) st (snd (fst r)) (snd r).
Proof.
  intros [b [Hm [HB [Ht [Hle [Hty [Hov Hfs]]]]]]] r. subst r.
  destruct (truthy (trim input)) eqn:Hi;
    [destruct (ChatView.isConversationOver s) eqn:Ho|].
  2:{ (* in progress *)
    assert (Hlt : (t < 5)%nat).
    { destruct (Nat.eq_dec t 5) as [E|E]; [|lia].
      apply Hov in E. congruence. }
    assert (Hnone : ChatView.finalSummary s = JNull) by (apply Hfs; lia).
    assert (Hin : ChatView.inProgress s) by (split; assumption).
    unfold turnFails. rewrite Hi, Hty, Ho. cbn [negb orb].
    rewrite send_unfold by assumption. cbv zeta.
    rewrite Ht, Hm, Hnone. unfold MAX_TURNS.
    destruct (Z.of_nat t + 1 =? 5) eqn:E.
    - apply Z.eqb_eq in E. assert (t = 4%nat) by lia. subst t.
      replace (Z.of_nat 4 + 1 >=? 5) with true by reflexivity.
      destruct (getFinalChatResponse _ _ _) as [[reply|e] log1];
        [destruct (getFinalSummary _ _ _ _) as [[sm|e] log2] eqn:Hsum;
         [save_cases|]|]; cbn [fst snd].
      + split.
        * exists 5%nat, (b ++ [mkMessage user input; mkMessage ai reply]).
          chat_fields. rewrite <- app_assoc, Nat.add_0_r. inv_goals.
        * right. eexists. exists log1.
          split; [exact Hsave|]. cbn [messages summary].
          split; [exact Hsum|]. split.
          -- exists u, f, b, input, reply. cbn [messages].
             rewrite <- app_assoc. auto.
          -- split; [chat_fields; reflexivity|]. split; [exact Hin|].
             split; [rewrite Ht; reflexivity|]. chat_fields. repeat split.
      + apply saveConversation_throws in Hsave as [_ ->]. split; [|now left].
        exists 5%nat, (b ++ [mkMessage user input; mkMessage ai reply]).
        chat_fields. rewrite <- app_assoc, Nat.add_0_r. inv_goals.
      + split; [|now left].
        exists 5%nat, (b ++ [mkMessage user input; mkMessage ai reply]).
        chat_fields. rewrite <- app_assoc, Nat.add_0_r. inv_goals.
      + split; [|now left].
        exists 4%nat, (b ++ [mkMessage user input]).
        chat_fields. rewrite Nat.add_1_r. inv_goals.
    - apply Z.eqb_neq in E.
      replace (Z.of_nat t + 1 >=? 5) with false
        by (symmetry; rewrite Z.geb_leb; apply Z.leb_gt; lia).
      destruct (getChatResponse _ _ _) as [[reply|e] log1]; cbn [fst snd];
        (split; [|now left]).
      + exists (S t), (b ++ [mkMessage user input; mkMessage ai reply]).
        chat_fields. rewrite <- app_assoc, Nat.add_0_r. inv_goals.
      + exists t, (b ++ [mkMessage user input]).
        chat_fields. rewrite Nat.add_1_r. inv_goals. }
  all: rewrite turnFails_guarded, send_guarded by auto; cbn [fst snd];
    (split; [|now left]); rewrite Nat.add_0_r;
    exists t, b; destruct s; chat_fields; cbn in *; subst;
    repeat split; auto; tauto.
Qed.

Lemma send_ChatInv env u input s st log :
  ChatInv u s ->
  ChatInv u (fst (fst (ChatView.send JSON_parse env u input s st log))).
Proof.
  intros [t [f V]].
  destruct (send_inv env u input s st log t f V) as [[t' V'] _].
  now exists t', (f + if turnFails env input s log then 1 else 0)%nat.
Qed.

End ChatProofs.

(* ===================================================================== *)
(** ** The application: what every reachable state satisfies *)
(* ===================================================================== *)

Lemma persisted_ext st st' :
  ls_conversations st' = ls_conversations st -> persisted st' = persisted st.
Proof. unfold persisted, getAllConversations. now intros ->. Qed.

Lemma length_counts (ms : list Message) :
  List.length ms = (countAi ms + countUser ms)%nat.
Proof.
  unfold countAi, countUser.
  induction ms as [|[[|] x] ms IH]; simpl; lia.
Qed.

Lemma GoodConversation_facts c :
  GoodConversation c ->
  turnPairs (messages c) = 5%nat
  /\ countAi (messages c) = 6%nat
  /\ (5 <= countUser (messages c))%nat
  /\ lastIsAi (messages c) = true
  /\ noAdjacentAi (messages c) = true
  /\ exists u rest, messages c = ChatView.greeting u :: rest
                    /\ (countUser (messages c) = 5%nat -> alternates rest = true).
Proof.
  intros [u [f [b [x [y [E HB]]]]]]. rewrite E.
  split; [|split; [|split; [|split; [|split]]]].
  - rewrite turnPairs_snoc_turn. f_equal. now apply Body_turnPairs with (f := f).
  - rewrite countAi_app.
    change (ChatView.greeting u :: b) with ([ChatView.greeting u] ++ b).
    rewrite countAi_app, (Body_countAi _ _ _ HB). reflexivity.
  - rewrite countUser_app.
    change (ChatView.greeting u :: b) with ([ChatView.greeting u] ++ b).
    rewrite countUser_app, (Body_countUser _ _ _ HB).
    unfold countUser. simpl. lia.
  - change [mkMessage user x; mkMessage ai y]
      with ([mkMessage user x] ++ [mkMessage ai y]).
    rewrite app_assoc. now rewrite lastIsAi_snoc.
  - rewrite noAdjacentAi_snoc_turn. now apply Body_noAdjacentAi with (t := 4%nat) (f := f).
  - exists u, (b ++ [mkMessage user x; mkMessage ai y]). split; [reflexivity|].
    rewrite countUser_app.
    change (ChatView.greeting u :: b) with ([ChatView.greeting u] ++ b).
    rewrite countUser_app, (Body_countUser _ _ _ HB).
    unfold countUser. simpl. intros F.
    assert (f = O) by lia. subst f.
    apply alternates_snoc_turn. now apply Body_alternates with (t := 4%nat).
Qed.

Section SystemProofs.

Variable toLowerCase : JsString -> JsString.
Variable JSON_parse : JsString -> option Json.

Local Abbreviation step := (act toLowerCase JSON_parse).
Local Abbreviation exec := (run toLowerCase JSON_parse).

(** The conversations after an action: unchanged, or, when the action is
    the message of the closing turn and the summary is returned, one
    conversation saved whose messages are the ones the chat view then
    shows and whose summary is the value returned. *)
Lemma act_conversations sys a :
  SysInv sys ->
  let sys' := step sys a in
  ls_conversations (storage sys') = ls_conversations (storage sys)
  \/ exists env input u s s' c log1,
       a = Send env input /\ chat sys = Some (u, s) /\ chat sys' = Some (u, s')
       /\ ChatView.inProgress s /\ ChatView.turnCount s + 1 = MAX_TURNS
       /\ ~ ChatView.complete s
       /\ ChatView.turnCount s' = MAX_TURNS
       /\ ChatView.isConversationOver s' = true
       /\ getFinalSummary JSON_parse env (messages c) log1
          = (Ok (summary c), events sys')
       /\ saveConversation (name u) c (storage sys) = (Ok tt, storage sys')
       /\ messages c = ChatView.messages s'
       /\ summary c = ChatView.finalSummary s'
       /\ GoodConversation c.
Proof.
  intros [Hst Hch].
  destruct a as [n p|n p| |n|u|env input|]; simpl; auto.
  - left. unfold signupUser. now destruct (existsb _ _).
  - left. unfold loginUser. destruct (find _ _); [|reflexivity].
    now destruct (negb _).
  - left. unfold resetStudentPassword. now destruct (findIndex _ _).
  - destruct (chat sys) as [[u s]|] eqn:C; [|auto].
    destruct (Hch u s eq_refl) as [t [f V]].
    destruct (send_inv JSON_parse env u input s (storage sys) (events sys) t f V)
      as [_ Heff].
    destruct (ChatView.send _ _ _ _ _ _ _) as [[s' st'] log'].
    cbn [fst snd] in Heff. simpl.
    destruct Heff as [->|[c [log1 [Hsave [Hsum [Hg [Hm [Hin [Ht [Hs [Ht' Ho]]]]]]]]]]];
      [now left|].
    right. exists env, input, u, s, s', c, log1.
    repeat split; auto; try apply Hin.
    unfold ChatView.complete.
    destruct V as [b [_ [_ [Ht0 [_ [_ [_ Hfs]]]]]]].
    rewrite Hfs; [discriminate|]. unfold MAX_TURNS in Ht. lia.
Qed.

Lemma SysInv_step sys a : SysInv sys -> SysInv (step sys a).
Proof.
  intros Inv. pose proof (act_conversations sys a Inv) as Hc.
  destruct Inv as [Hst Hch]. split.
  - intros c Hin. cbv zeta in Hc.
    destruct Hc as [E|[env [input [u [s [s' [c0 [log1 H]]]]]]]].
    + rewrite (persisted_ext _ _ E) in Hin. auto.
    + destruct H as [_ [_ [_ [_ [_ [_ [_ [_ [_ [Hsave [_ [_ Hg]]]]]]]]]]]].
      apply (persisted_saveConversation _ _ _ _ _ Hsave) in Hin
        as [[y [Hy ->]]| ->]; apply GoodConversation_written; auto.
  - destruct a as [n p|n p| |n|u0|env input|]; simpl; try exact Hch.
    + intros u s [= <- <-]. apply ChatInv_initial.
    + destruct (chat sys) as [[u0 s0]|] eqn:C; [|now rewrite C].
      pose proof (send_ChatInv JSON_parse env u0 input s0 (storage sys) (events sys)
                    (Hch u0 s0 eq_refl)) as Hinv.
      destruct (ChatView.send _ _ _ _ _ _ _) as [[s' st'] log'].
      cbn [fst snd] in Hinv. simpl. now intros u s [= <- <-].
    + discriminate.
Qed.

Lemma SysInv_reachable acts : SysInv (exec acts initialSystem).
Proof.
  unfold run.
  assert (G : forall sys, SysInv sys -> SysInv (fold_left step acts sys)).
  { induction acts as [|a acts IH]; intros sys Inv; simpl; [assumption|].
    apply IH. now apply SysInv_step. }
  apply G. split; [intros c []|discriminate].
Qed.





End SystemProofs.

(* ===================================================================== *)
(** ** One chat view: failed turns and the conversation saved *)
(* ===================================================================== *)

Section ViewRuns.

Variable JSON_parse : JsString -> option Json.

(** After a guarded run nothing but the input field has changed. *)
Lemma failedTurns_over u inputs : forall s st log,
  ChatView.isConversationOver s = true ->
  failedTurns JSON_parse u inputs (s, st, log) = O.
Proof.
  induction inputs as [|[env input] inputs IH]; intros s st log Ho;
    [reflexivity|].
  cbn [failedTurns fst snd].
  rewrite turnFails_guarded, send_guarded by auto.
  now rewrite IH.
Qed.

(** Several runs of the handler in one view: the turns that failed, and the
    one conversation that may have been saved. *)
Lemma sends_counts u inputs : forall s st log t f,
  ViewState u t f s ->
  let r := sends JSON_parse u inputs (s, st, log) in
  (exists t',
      ViewState u t' (f + failedTurns JSON_parse u inputs (s, st, log))
                (fst (fst r)))
  /\ (snd (fst r) = st
      \/ exists c,
           saveConversation (name u) c st = (Ok tt, snd (fst r))
           /\ GoodConversation c
           /\ messages c = ChatView.messages (fst (fst r))
           /\ ChatView.finalSummary (fst (fst r)) = summary c
           /\ ChatView.turnCount (fst (fst r)) = MAX_TURNS).
Proof.
  induction inputs as [|[env input] inputs IH]; intros s st log t f V.
  - cbn [sends fold_left failedTurns fst snd]. rewrite Nat.add_0_r.
    split; [now exists t | now left].
  - cbn [failedTurns fst snd].
    change (sends JSON_parse u ((env, input) :: inputs) (s, st, log))
      with (sends JSON_parse u inputs
                  (ChatView.send JSON_parse env u input s st log)).
    destruct (send_inv JSON_parse env u input s st log t f V) as [[t1 V1] Heff].
    destruct (ChatView.send JSON_parse env u input s st log)
      as [[s1 st1] log1] eqn:E.
    cbn [fst snd] in V1, Heff.
    destruct (IH s1 st1 log1 t1 _ V1) as [[t2 V2] Hst].
    rewrite <- Nat.add_assoc in V2.
    split; [now exists t2|].
    destruct Heff as [->|[c [l1 [Hsave [_ [Hg [Hm [_ [_ [Hs [Ht Ho]]]]]]]]]]];
      [exact Hst|].
    right. exists c.
    destruct (sends_over JSON_parse u inputs s1 st1 log1 Ho)
      as [H1 [_ [H3 [_ [H5 H6]]]]].
    rewrite H1, H3, H5, H6. auto.
Qed.

Lemma healthy_getChatResponse env h log :
  healthy JSON_parse env ->
  exists reply log1, getChatResponse env h log = (Ok reply, log1).
Proof.
  intros [[k [Hk Ht]] Hp].
  unfold getChatResponse, bind, emit, getAI, tryCatch, generateContent,
    textTrim, ret, throw.
  rewrite Hk, Ht.
  match goal with
  | |- context [provider env ?i ?req] => destruct (Hp i req) as [t [-> _]]
  end.
  eauto.
Qed.

Lemma healthy_getFinalChatResponse env h log :
  healthy JSON_parse env ->
  exists reply log1, getFinalChatResponse env h log = (Ok reply, log1).
Proof.
  intros [[k [Hk Ht]] Hp].
  unfold getFinalChatResponse, bind, emit, getAI, tryCatch, generateContent,
    textTrim, ret, throw.
  rewrite Hk, Ht.
  match goal with
  | |- context [provider env ?i ?req] => destruct (Hp i req) as [t [-> _]]
  end.
  eauto.
Qed.

Lemma healthy_getFinalSummary env h log :
  healthy JSON_parse env ->
  exists sm log1, getFinalSummary JSON_parse env h log = (Ok sm, log1).
Proof.
  intros [[k [Hk Ht]] Hp].
  unfold getFinalSummary, bind, emit, getAI, tryCatch, generateContent,
    textTrim, ret, throw.
  rewrite Hk, Ht.
  match goal with
  | |- context [provider env ?i ?req] => destruct (Hp i req) as [t [-> Hs]]
  end.
  destruct (JSON_parse (trim t)) as [sm|] eqn:P; [eauto|].
  exfalso. now apply (Hs _ eq_refl).
Qed.

(** A turn before the last one, in a healthy environment. *)
Lemma clean_turn u k s st log i :
  CleanChat u k s -> (k < 4)%nat -> goodInput JSON_parse i ->
  let r := ChatView.send JSON_parse (fst i) u (snd i) s st log in
  CleanChat u (S k) (fst (fst r)) /\ snd (fst r) = st
  /\ turnFails (fst i) (snd i) s log = false.
Proof.
  intros [b [Hm [HB [Ht Hin]]]] Hk [Hh Hi] r. subst r.
  unfold turnFails. rewrite Hi, (proj1 Hin), (proj2 Hin). cbn [negb orb].
  rewrite send_unfold by assumption. cbv zeta. rewrite Ht, Hm.
  unfold MAX_TURNS.
  replace (Z.of_nat k + 1 =? 5) with false by (symmetry; apply Z.eqb_neq; lia).
  replace (Z.of_nat k + 1 >=? 5) with false
    by (symmetry; rewrite Z.geb_leb; apply Z.leb_gt; lia).
  destruct (healthy_getChatResponse (fst i)
              ((ChatView.greeting u :: b) ++ [mkMessage user (snd i)]) log Hh)
    as [reply [log1 ->]].
  cbn [fst snd]. split; [|split; reflexivity].
  exists (b ++ [mkMessage user (snd i); mkMessage ai reply]).
  unfold ChatView.inProgress. chat_fields. rewrite <- app_assoc.
  repeat split; auto; try lia. now constructor.
Qed.

Lemma clean_turns u inputs : forall k s st log,
  CleanChat u k s -> (k + List.length inputs <= 4)%nat ->
  Forall (goodInput JSON_parse) inputs ->
  let r := sends JSON_parse u inputs (s, st, log) in
  CleanChat u (k + List.length inputs) (fst (fst r)) /\ snd (fst r) = st
  /\ failedTurns JSON_parse u inputs (s, st, log) = O.
Proof.
  induction inputs as [|i inputs IH]; intros k s st log Hc Hk Hall.
  - cbn [sends fold_left failedTurns fst snd List.length]. rewrite Nat.add_0_r. auto.
  - inversion Hall as [|? ? Hi Hall']; subst. cbn [List.length] in Hk.
    cbn [failedTurns].
    change (sends JSON_parse u (i :: inputs) (s, st, log))
      with (sends JSON_parse u inputs
                  (ChatView.send JSON_parse (fst i) u (snd i) s st log)).
    destruct (clean_turn u k s st log i Hc ltac:(lia) Hi) as [Hc' [Hst Hf]].
    rewrite Hf.
    destruct (ChatView.send _ _ _ _ _ _ _) as [[s' st'] log'].
    cbn [fst snd] in Hc', Hst. subst st'. cbn [List.length].
    replace (k + S (List.length inputs))%nat with (S k + List.length inputs)%nat by lia.
    apply IH; auto. lia.
Qed.

(** The closing turn after four clean turns, in a healthy environment. *)
Lemma clean_closing u s st log i :
  CleanChat u 4 s -> goodInput JSON_parse i ->
  getConversations (name u) st <> PrototypeMember ->
  let r := ChatView.send JSON_parse (fst i) u (snd i) s st log in
  turnFails (fst i) (snd i) s log = false
  /\ exists c rest,
       saveConversation (name u) c st = (Ok tt, snd (fst r))
       /\ messages c = ChatView.greeting u :: rest
       /\ List.length (messages c) = 11%nat
       /\ alternates rest = true.
Proof.
  intros [b [Hm [HB [Ht Hin]]]] [Hh Hi] Hsav r. subst r.
  unfold turnFails. rewrite Hi, (proj1 Hin), (proj2 Hin). cbn [negb orb].
  rewrite send_unfold by assumption. cbv zeta. rewrite Ht, Hm.
  replace (Z.of_nat 4 + 1 =? MAX_TURNS) with true by reflexivity.
  replace (Z.of_nat 4 + 1 >=? MAX_TURNS) with true by reflexivity.
  destruct (healthy_getFinalChatResponse (fst i)
              ((ChatView.greeting u :: b) ++ [mkMessage user (snd i)]) log Hh)
    as [reply [log1 ->]].
  destruct (healthy_getFinalSummary (fst i)
              (((ChatView.greeting u :: b) ++ [mkMessage user (snd i)])
                 ++ [mkMessage ai reply]) log1 Hh)
    as [sm [log2 ->]].
  split; [reflexivity|].
  save_cases.
  2:{ exfalso. unfold saveConversation in Hsave.
      destruct (getConversations (name u) st); [discriminate | now apply Hsav]. }
  cbn [fst snd]. eexists. exists (b ++ [mkMessage user (snd i); mkMessage ai reply]).
  split; [exact Hsave|]. cbn [messages]. rewrite <- app_assoc.
  split; [reflexivity|]. split.
  - simpl. rewrite length_app. simpl.
    pose proof (Body_countAi _ _ _ HB) as Ha.
    pose proof (Body_countUser _ _ _ HB) as Hu.
    pose proof (length_counts b). lia.
  - apply alternates_snoc_turn. now apply Body_alternates with (t := 4%nat).
Qed.

End ViewRuns.

(** C10, as the code has it.  Every conversation in the store begins with
    the greeting of the coach and ends with a message of the coach; it holds
    exactly [MAX_TURNS + 1] = 6 messages of the coach, no two of them
    adjacent, and at least [MAX_TURNS] = 5 user messages.  The conversation
    a chat view saves holds one user message more than 5 for every turn
    whose gateway call failed in that view: 5 + f user messages and 11 + f
    entries after f failed turns.  When no turn failed it has 11 entries
    and, after the greeting, strictly alternates user then coach; five
    inputs sent in environments where no gateway call fails are such a
    run. *)
Theorem persisted_messages_shape (JSON_parse : JsString -> option Json) :
  (forall toLowerCase acts c,
      In c (persisted (storage (run toLowerCase JSON_parse acts initialSystem))) ->
      (exists u rest,
          messages c = ChatView.greeting u :: rest
          /\ (countUser (messages c) = 5%nat ->
              alternates rest = true /\ List.length (messages c) = 11%nat))
      /\ countAi (messages c) = 6%nat
      /\ (5 <= countUser (messages c))%nat
      /\ List.length (messages c) = (6 + countUser (messages c))%nat
      /\ lastIsAi (messages c) = true
      /\ noAdjacentAi (messages c) = true)
  /\ (forall u inputs st log,
        let start := (ChatView.initialChat u, st, log) in
        let r := sends JSON_parse u inputs start in
        let failed := failedTurns JSON_parse u inputs start in
        snd (fst r) = st
        \/ exists c rest,
             saveConversation (name u) c st = (Ok tt, snd (fst r))
             /\ messages c = ChatView.greeting u :: rest
             /\ countUser (messages c) = (5 + failed)%nat
             /\ List.length (messages c) = (11 + failed)%nat
             /\ (failed = 0%nat -> alternates rest = true))
  /\ (forall u st log inputs,
        List.length inputs = 5%nat ->
        Forall (goodInput JSON_parse) inputs ->
        getConversations (name u) st <> PrototypeMember ->
        let start := (ChatView.initialChat u, st, log) in
        let r := sends JSON_parse u inputs start in
        failedTurns JSON_parse u inputs start = 0%nat
        /\ exists c rest,
             saveConversation (name u) c st = (Ok tt, snd (fst r))
             /\ messages c = ChatView.greeting u :: rest
             /\ List.length (messages c) = 11%nat
             /\ alternates rest = true).
Proof.
  split; [|split].
  - intros toLowerCase acts c Hin.
    destruct (SysInv_reachable toLowerCase JSON_parse acts) as [Hst _].
    destruct (GoodConversation_facts c (Hst c Hin))
      as [_ [Ha [Hu [Hl [Hn [u [rest [E Halt]]]]]]]].
    pose proof (length_counts (messages c)) as L.
    repeat split; auto; try lia.
    exists u, rest. split; [assumption|]. intros F. split; [auto|lia].
  - intros u inputs st log start r failed. subst r failed start.
    destruct (sends_counts JSON_parse u inputs (ChatView.initialChat u) st log
                0 0 (ViewState_initial u))
      as [[t' [b [Hm [HB [Ht _]]]]] [Hst|[c [Hsave [_ [Hc [_ Hturn]]]]]]];
      [now left|].
    right. exists c, b. rewrite Nat.add_0_l in HB.
    assert (E : t' = 5%nat) by (unfold MAX_TURNS in Hturn; lia). subst t'.
    assert (Hu : countUser (messages c)
                 = (5 + failedTurns JSON_parse u inputs
                          (ChatView.initialChat u, st, log))%nat).
    { rewrite Hc, Hm.
      change (ChatView.greeting u :: b) with ([ChatView.greeting u] ++ b).
      rewrite countUser_app, (Body_countUser _ _ _ HB). reflexivity. }
    assert (Ha : countAi (messages c) = 6%nat).
    { rewrite Hc, Hm.
      change (ChatView.greeting u :: b) with ([ChatView.greeting u] ++ b).
      rewrite countAi_app, (Body_countAi _ _ _ HB). reflexivity. }
    split; [exact Hsave|]. split; [now rewrite Hc|]. split; [exact Hu|].
    split; [rewrite length_counts; lia|].
    intros F. rewrite F in HB. now apply Body_alternates with (t := 5%nat).
  - intros u st log inputs Hlen Hall Hsav start r. subst r start.
    destruct inputs as [|i1 [|i2 [|i3 [|i4 [|i5 [|]]]]]]; try discriminate.
    change [i1; i2; i3; i4; i5] with ([i1; i2; i3; i4] ++ [i5]) in *.
    apply Forall_app in Hall as [Hpre Hlast].
    inversion Hlast as [|? ? Hi5 _]; subst.
    assert (C0 : CleanChat u 0 (ChatView.initialChat u)).
    { exists []. repeat split. constructor. }
    destruct (clean_turns JSON_parse u [i1; i2; i3; i4] 0 (ChatView.initialChat u)
                st log C0 ltac:(simpl; lia) Hpre) as [C4 [Hst Hf]].
    cbn [failedTurns sends fold_left app] in *.
    destruct (ChatView.send JSON_parse (fst i1) u (snd i1) _ st log)
      as [[s1 st1] log1].
    destruct (ChatView.send JSON_parse (fst i2) u (snd i2) s1 st1 log1)
      as [[s2 st2] log2].
    destruct (ChatView.send JSON_parse (fst i3) u (snd i3) s2 st2 log2)
      as [[s3 st3] log3].
    destruct (ChatView.send JSON_parse (fst i4) u (snd i4) s3 st3 log3)
      as [[s4 st4] log4].
    cbn [fst snd] in C4, Hst. subst st4.
    destruct (clean_closing JSON_parse u s4 st log4 i5 C4 Hi5 Hsav) as [Hf5 H].
    destruct (ChatView.send JSON_parse (fst i5) u (snd i5) s4 st log4)
      as [[s5 st5] log5].
    rewrite Hf5. split; [lia | exact H].
Qed.

(* ===================================================================== *)
(** ** The mood classification *)
(* ===================================================================== *)

Lemma quadrants_In q :
  In q quadrants <-> q = YELLOW \/ q = RED \/ q = BLUE \/ q = GREEN.
Proof. unfold quadrants. simpl. intuition congruence. Qed.

(** With the key set, the classification of a mood that can be written into
    the prompt sends one request and returns one of the four labels. *)
Lemma getMoodMeterQuadrant_returns toUpperCase env mood text log :
  keySet env -> toStringValue mood = Some text ->
  exists q,
    getMoodMeterQuadrant toUpperCase env mood log
    = (Ok q, log ++ [Called (GetMoodMeterQuadrant mood);
                     Sent (QuadrantRequest text)])
    /\ In q quadrants.
Proof.
  intros Hk Ht.
  unfold getMoodMeterQuadrant, bind, emit. rewrite getAI_keySet by assumption.
  unfold interpolate. rewrite Ht.
  unfold tryCatch, generateContent, textTrim, ret, throw.
  rewrite <- app_assoc. cbn [app].
  destruct (provider env _ _) as [|[t|]];
    [| destruct (includes quadrants (toUpperCase (trim t))) eqn:I |];
    eexists; (split; [reflexivity|]);
    try (apply quadrants_In; tauto).
  now apply includes_In.
Qed.

(** C5, as the code has it.  With the API key set, [getMoodMeterQuadrant]
    returns for every mood text, and what it returns is one of the four
    labels: the trimmed, upper-cased answer of the provider when that is one
    of the four labels, and BLUE in every other case, whether the provider
    rejects the request, answers without a text, or answers with anything
    else.  Without the API key it throws the missing-credential error before
    the provider is called. *)
Theorem getMoodMeterQuadrant_degrades toUpperCase env moodText log :
  let log0 := log ++ [Called (GetMoodMeterQuadrant (stringValue moodText))] in
  let answer := provider env (List.length log0) (QuadrantRequest moodText) in
  ((exists k, apiKey env = Some k /\ truthy k = true) ->
   exists q,
     getMoodMeterQuadrant toUpperCase env (stringValue moodText) log
     = (Ok q, log0 ++ [Sent (QuadrantRequest moodText)])
     /\ In q quadrants
     /\ (forall t, answer = Response (Some t) ->
                   In (toUpperCase (trim t)) quadrants -> q = toUpperCase (trim t))
     /\ ((forall t, answer = Response (Some t) ->
                    ~ In (toUpperCase (trim t)) quadrants) -> q = BLUE))
  /\ ((forall k, apiKey env = Some k -> truthy k = false) ->
      getMoodMeterQuadrant toUpperCase env (stringValue moodText) log
      = (Throw CredentialMissing, log0)).
Proof.
  intros log0 answer. split.
  - intros [k [Hk Ht]].
    unfold getMoodMeterQuadrant, interpolate, bind, emit, getAI, tryCatch,
      generateContent, textTrim, ret, throw.
    rewrite Hk, Ht. cbn [stringValue toStringValue toStringJson].
    fold (stringValue moodText). fold log0. fold answer.
    destruct answer as [|[t|]] eqn:A.
    + exists BLUE. repeat split; try (apply quadrants_In; auto).
      intros t [=].
    + destruct (includes quadrants (toUpperCase (trim t))) eqn:I.
      * exists (toUpperCase (trim t)). apply includes_In in I as I'.
        repeat split; auto.
        -- intros t' [= <-]. reflexivity.
        -- intros H. exfalso. now apply (H t).
      * exists BLUE. repeat split; try (apply quadrants_In; auto).
        intros t' [= <-] H. apply includes_In in H. congruence.
    + exists BLUE. repeat split; try (apply quadrants_In; auto).
      intros t [=].
  - intros H.
    unfold getMoodMeterQuadrant, bind, emit, getAI, tryCatch, generateContent,
      textTrim, ret, throw.
    destruct (apiKey env) as [k|]; [|reflexivity].
    now rewrite (H k eq_refl).
Qed.

(* ===================================================================== *)
(** ** The dashboard *)
(* ===================================================================== *)

Lemma insertDesc_In c l x : In x (insertDesc c l) <-> x = c \/ In x l.
Proof.
  induction l as [|y l IH]; simpl.
  - intuition.
  - destruct (timestamp y <=? timestamp c); simpl; [intuition|].
    rewrite IH. intuition.
Qed.

Lemma sortDesc_In l x : In x (sortDesc l) <-> In x l.
Proof.
  induction l as [|y l IH]; simpl; [reflexivity|].
  rewrite insertDesc_In, IH. intuition.
Qed.




Lemma sortDesc_nil cs : sortDesc cs = [] -> cs = [].
Proof.
  destruct cs as [|c cs]; [reflexivity|]. intros E.
  assert (H : In c (sortDesc (c :: cs))) by (apply sortDesc_In; now left).
  rewrite E in H. contradiction.
Qed.

(** What the loop of [fetchMoods] collects. *)
Lemma moodOf_throws v e : moodOf v = Throw e -> e = TypeError.
Proof. destruct v; simpl; congruence. Qed.

Lemma created_keys {A} k (v : A) n :
  In n (map fst (created k v)) -> n = k /\ k <> lit "__proto__".
Proof.
  unfold created. destruct (eqb k (lit "__proto__")) eqn:E; simpl; [tauto|].
  apply eqb_neq in E. intros [<-|[]]. auto.
Qed.

Lemma created_other {A} k (v : A) :
  k <> lit "__proto__" -> created k v = [(k, v)].
Proof. intros H. unfold created. apply eqb_neq in H. now rewrite H. Qed.

Lemma latestMoods_throws m e : latestMoods m = Throw e -> e = TypeError.
Proof.
  induction m as [|[k cs] m IH]; simpl; [discriminate|].
  destruct (sortDesc cs) as [|c rest]; [exact IH|].
  destruct (moodOf (summary c)) eqn:M; [|intros [= <-]; now apply (moodOf_throws _ _ M)].
  destruct (latestMoods m); [discriminate|]. intros [= <-]. now apply IH.
Qed.

Lemma latestMoods_keys m l n :
  latestMoods m = Ok l -> In n (map fst l) -> In n (map fst m).
Proof.
  revert l. induction m as [|[k cs] m IH]; simpl; intros l.
  - now intros [= <-].
  - destruct (sortDesc cs) as [|c rest]; [intros H Hn; right; eauto|].
    destruct (moodOf (summary c)); [|discriminate].
    destruct (latestMoods m) as [l'|]; [|discriminate].
    intros [= <-]. rewrite map_app, in_app_iff.
    intros [H|H]; [apply created_keys in H as [-> _]; now left | right; eauto].
Qed.


Lemma latestMoods_In m l n cs c rest :
  latestMoods m = Ok l -> In (n, cs) m -> sortDesc cs = c :: rest ->
  n <> lit "__proto__" ->
  exists mood, moodOf (summary c) = Ok mood
               /\ In (n, (mood, timestamp c)) l.
Proof.
  intros H Hin E Hn. revert l H.
  induction m as [|[k v] m IH]; simpl; intros l H; [contradiction|].
  destruct Hin as [[= -> ->]|Hin].
  - rewrite E in H. destruct (moodOf (summary c)) as [mood|]; [|discriminate].
    destruct (latestMoods m); [|discriminate]. injection H as <-.
    exists mood. split; [reflexivity|].
    rewrite created_other by assumption. now left.
  - destruct (sortDesc v) as [|c' rest']; [eauto|].
    destruct (moodOf (summary c')); [|discriminate].
    destruct (latestMoods m) as [l'|]; [|discriminate]. injection H as <-.
    destruct (IH Hin l' eq_refl) as [mood [H1 H2]].
    exists mood. split; [assumption|]. apply in_or_app. now right.
Qed.

Lemma latestMoods_inv m l n x :
  latestMoods m = Ok l -> In (n, x) l ->
  n <> lit "__proto__"
  /\ exists cs c rest, In (n, cs) m /\ sortDesc cs = c :: rest
                       /\ moodOf (summary c) = Ok (fst x) /\ snd x = timestamp c.
Proof.
  revert l. induction m as [|[k v] m IH]; simpl; intros l.
  - intros [= <-] [].
  - destruct (sortDesc v) as [|c rest] eqn:E.
    + intros H Hin. destruct (IH l H Hin) as [Hn [cs [c [rest [H1 H2]]]]].
      split; [exact Hn|]. exists cs, c, rest. auto.
    + destruct (moodOf (summary c)) as [mood|] eqn:M; [|discriminate].
      destruct (latestMoods m) as [l'|]; [|discriminate].
      intros [= <-] Hin. apply in_app_or in Hin as [Hin|Hin].
      * unfold created in Hin.
        destruct (eqb k (lit "__proto__")) eqn:P; [contradiction|].
        apply eqb_neq in P. destruct Hin as [[= -> <-]|[]].
        split; [exact P|]. exists v, c, rest. auto.
      * destruct (IH l' eq_refl Hin) as [Hn [cs [c' [rest' [H1 H2]]]]].
        split; [exact Hn|]. exists cs, c', rest'. auto.
Qed.

Lemma latestMoods_null m n cs c rest :
  In (n, cs) m -> sortDesc cs = c :: rest -> summary c = JNull ->
  latestMoods m = Throw TypeError.
Proof.
  intros Hin E Hnull.
  induction m as [|[k v] m IH]; simpl; [contradiction|].
  destruct Hin as [[= -> ->]|Hin].
  - now rewrite E, Hnull.
  - rewrite (IH Hin).
    destruct (sortDesc v) as [|c' rest']; [reflexivity|].
    destruct (moodOf (summary c')) eqn:M; [reflexivity|].
    now rewrite (moodOf_throws _ _ M).
Qed.

(** The loop returns when no latest summary is null. *)
Lemma latestMoods_returns m :
  (forall n cs c, In (n, cs) m -> In c cs -> summary c <> JNull) ->
  exists l, latestMoods m = Ok l.
Proof.
  induction m as [|[k v] m IH]; simpl; intros H; [eauto|].
  destruct IH as [l' E]; [intros n cs c Hin; apply (H n cs c); now right|].
  rewrite E.
  destruct (sortDesc v) as [|c rest] eqn:S; [eauto|].
  assert (Hc : summary c <> JNull).
  { apply (H k v c); [now left|]. apply sortDesc_In. rewrite S. now left. }
  destruct (summary c); simpl; eauto. contradiction.
Qed.

(** The loop creates the properties in the order of the enumeration, so
    [Object.entries] gives them in the order of their creation. *)
Lemma latestMoods_enumerated m l :
  latestMoods m = Ok l ->
  StronglySorted enumeratedBefore (map fst m) ->
  StronglySorted enumeratedBefore (map fst l).
Proof.
  revert l. induction m as [|[k cs] m IH]; simpl; intros l.
  - intros [= <-] _. constructor.
  - intros H Hs. inversion Hs as [|? ? Hs' Hall]; subst.
    destruct (sortDesc cs) as [|c rest]; [auto|].
    destruct (moodOf (summary c)); [|discriminate].
    destruct (latestMoods m) as [l'|] eqn:E; [|discriminate].
    injection H as <-. unfold created.
    destruct (eqb k (lit "__proto__")); simpl; [auto|].
    constructor; [auto|].
    apply Forall_forall. intros n Hn. rewrite Forall_forall in Hall.
    apply Hall. now apply (latestMoods_keys m l').
Qed.

Lemma latestMoods_entries (m : ConvMap) l :
  latestMoods (entries m) = Ok l -> entries l = l.
Proof.
  intros H. apply entries_fixed.
  apply (latestMoods_enumerated _ _ H). apply entries_enumerated.
Qed.

Lemma persisted_In st n cs c :
  In (n, cs) (getAllConversations st) -> In c cs -> In c (persisted st).
Proof.
  intros Hin Hc. unfold persisted. apply in_concat. exists cs. split; [|exact Hc].
  apply in_map_iff. exists (n, cs). auto.
Qed.

Lemma classifiable_moodOf v :
  classifiable v = true ->
  exists mood, moodOf v = Ok mood /\ printable mood = true.
Proof.
  unfold classifiable. destruct (moodOf v) as [mood|]; [eauto | discriminate].
Qed.

Lemma printable_text mood :
  printable mood = true -> toStringValue mood = Some (promptOf mood).
Proof.
  unfold printable, promptOf. now destruct (toStringValue mood).
Qed.

Lemma classifiedAs_later toUpperCase env log pre log' mood q :
  classifiedAs toUpperCase env (log ++ pre) log' mood q ->
  classifiedAs toUpperCase env log log' mood q.
Proof.
  intros [before [during [after [E H]]]].
  exists (pre ++ before), during, after.
  rewrite !app_assoc in *. auto.
Qed.

Section DashboardProofs.

Variable toUpperCase : JsString -> JsString.
Variable env : Env.
Hypothesis Hkey : keySet env.

Local Abbreviation classifyIn := (classify toUpperCase env).

Lemma classify_keySet entry log :
  printable (fst (snd entry)) = true ->
  exists sm,
    classifyIn entry log
    = (Ok sm, log ++ [Called (GetMoodMeterQuadrant (fst (snd entry)));
                      Sent (QuadrantRequest (promptOf (fst (snd entry))))])
    /\ entryOf toUpperCase env log
         (log ++ [Called (GetMoodMeterQuadrant (fst (snd entry)));
                  Sent (QuadrantRequest (promptOf (fst (snd entry))))])
         entry sm.
Proof.
  intros Hp. destruct entry as [n [mood ts]]. cbn [fst snd] in *.
  destruct (getMoodMeterQuadrant_returns toUpperCase env mood (promptOf mood) log
              Hkey (printable_text mood Hp)) as [q [E Hq]].
  unfold classify, bind. rewrite E. unfold ret.
  eexists. split; [reflexivity|].
  repeat split; auto. cbn [fst snd sm_quadrant].
  exists [], [Called (GetMoodMeterQuadrant mood); Sent (QuadrantRequest (promptOf mood))], [].
  rewrite !app_nil_r. auto.
Qed.

Lemma promiseAll_keySet entries : forall log,
  Forall (fun e => printable (fst (snd e)) = true) entries ->
  exists moods evs,
    promiseAll (map classifyIn entries) log = (Ok moods, log ++ evs)
    /\ Forall2 (entryOf toUpperCase env log (log ++ evs)) entries moods
    /\ requests evs = map (fun e => QuadrantRequest (promptOf (fst (snd e)))) entries
    /\ calls evs = map (fun e => GetMoodMeterQuadrant (fst (snd e))) entries.
Proof.
  induction entries as [|entry entries IH]; intros log Hall; simpl.
  - exists [], []. rewrite app_nil_r. repeat split; constructor.
  - inversion Hall as [|? ? Hp Hall']; subst.
    destruct (classify_keySet entry log Hp) as [sm [-> Hsm]].
    set (pair := [Called (GetMoodMeterQuadrant (fst (snd entry)));
                  Sent (QuadrantRequest (promptOf (fst (snd entry))))]) in *.
    destruct (IH (log ++ pair) Hall') as [moods [evs [-> [HF [Hr Hc]]]]].
    exists (sm :: moods), (pair ++ evs).
    rewrite <- app_assoc. split; [reflexivity|]. split; [|split].
    + constructor.
      * destruct Hsm as [H1 [H2 [H3 [H4 [before [during [after [E H]]]]]]]].
        repeat split; auto.
        exists before, during, (after ++ evs).
        split; [|exact H].
        rewrite (app_assoc log pair evs), E. now rewrite <- !app_assoc.
      * apply Forall2_impl with (R1 := entryOf toUpperCase env (log ++ pair)
                                               ((log ++ pair) ++ evs)); [|exact HF].
        intros e m [H1 [H2 [H3 [H4 H5]]]]. repeat split; auto.
        apply classifiedAs_later with (pre := pair).
        now rewrite (app_assoc log pair evs).
    + subst pair. simpl. now rewrite Hr.
    + subst pair. simpl. now rewrite Hc.
Qed.

End DashboardProofs.

Lemma push_bucket sm b0 :
  In (sm_quadrant sm) quadrants ->
  exists b1, push sm b0 = Ok b1
    /\ forall q, In q quadrants ->
         exists l0, bucket q b0 = Some l0
           /\ bucket q b1 = Some (l0 ++ if eqb (sm_quadrant sm) q then [sm] else []).
Proof.
  intros Hq. apply quadrants_In in Hq.
  unfold push.
  destruct Hq as [Hq|[Hq|[Hq|Hq]]]; rewrite Hq; simpl;
    (eexists; split; [reflexivity|]);
    intros q Hq'; apply quadrants_In in Hq';
    destruct Hq' as [-> | [-> | [-> | ->]]]; simpl;
    eexists; split; try reflexivity; now rewrite ?app_nil_r.
Qed.

Lemma moodsByQuadrant_buckets moods :
  Forall (fun sm => In (sm_quadrant sm) quadrants) moods ->
  exists b, moodsByQuadrant moods = Ok b
    /\ forall q, In q quadrants ->
         bucket q b = Some (filter (fun sm => eqb (sm_quadrant sm) q) moods).
Proof.
  unfold moodsByQuadrant. intros Hall.
  assert (G : forall b0,
             exists b,
               fold_left (fun acc m => match acc with
                                       | Ok b => push m b
                                       | Throw e => Throw e
                                       end) moods (Ok b0) = Ok b
               /\ forall q, In q quadrants ->
                    exists l0, bucket q b0 = Some l0
                      /\ bucket q b
                         = Some (l0 ++ filter (fun sm => eqb (sm_quadrant sm) q) moods)).
  { induction Hall as [|sm moods Hsm Hall IH]; intros b0; simpl.
    - exists b0. split; [reflexivity|]. intros q Hq.
      apply quadrants_In in Hq. unfold bucket.
      destruct Hq as [-> | [-> | [-> | ->]]]; simpl;
        eexists; split; try reflexivity; now rewrite app_nil_r.
    - destruct (push_bucket sm b0 Hsm) as [b1 [-> H1]].
      destruct (IH b1) as [b [E H2]]. exists b. split; [assumption|].
      intros q Hq. destruct (H1 q Hq) as [l0 [E0 E1]].
      destruct (H2 q Hq) as [l1 [E1' E2]].
      exists l0. split; [assumption|]. rewrite E2.
      rewrite E1 in E1'. injection E1' as <-.
      rewrite <- app_assoc. now destruct (eqb (sm_quadrant sm) q). }
  destruct (G (mkBuckets [] [] [] [])) as [b [E H]].
  exists b. split; [assumption|]. intros q Hq.
  destruct (H q Hq) as [l0 [E0 E1]]. rewrite E1. f_equal.
  apply quadrants_In in Hq. unfold bucket in E0.
  destruct Hq as [-> | [-> | [-> | ->]]]; simpl in E0; injection E0 as <-;
    reflexivity.
Qed.





Section Forall2Facts.

Context {A B : Type} (R : A -> B -> Prop).


Lemma Forall2_In_right l l' y :
  Forall2 R l l' -> In y l' -> exists x, In x l /\ R x y.
Proof.
  induction 1 as [|a b l l' Hab H IH]; simpl; [contradiction|].
  intros [<-|Hin]; [eauto|]. destruct (IH Hin) as [x [Hx Hr]]. eauto.
Qed.

End Forall2Facts.


(** The moods the dashboard fetches when the key is set and every stored
    summary can be classified (shared by the properties of the
    dashboard). *)
Lemma fetchMoods_keySet toUpperCase env st log :
  keySet env ->
  (forall c, In c (persisted st) -> classifiable (summary c) = true) ->
  exists latest moods evs,
    latestMoods (entries (getAllConversations st)) = Ok latest
    /\ fetchMoods toUpperCase env st log = (Ok moods, log ++ evs)
    /\ Forall2 (entryOf toUpperCase env log (log ++ evs)) latest moods
    /\ requests evs = map (fun e => QuadrantRequest (promptOf (fst (snd e)))) latest
    /\ calls evs = map (fun e => GetMoodMeterQuadrant (fst (snd e))) latest.
Proof.
  intros Hk Hcl.
  destruct (latestMoods_returns (entries (getAllConversations st))) as [latest L].
  { intros n cs c Hin Hc Hnull. apply -> (@entries_In (list Conversation)) in Hin.
    pose proof (Hcl c (persisted_In st n cs c Hin Hc)) as H.
    rewrite Hnull in H. discriminate H. }
  assert (Hp : Forall (fun e => printable (fst (snd e)) = true) latest).
  { apply Forall_forall. intros [n x] Hin.
    destruct (latestMoods_inv _ _ _ _ L Hin) as [_ [cs [c [rest [H1 [H2 [H3 _]]]]]]].
    apply -> (@entries_In (list Conversation)) in H1.
    assert (Hc : In c cs) by (apply sortDesc_In; rewrite H2; now left).
    destruct (classifiable_moodOf _ (Hcl c (persisted_In st n cs c H1 Hc)))
      as [mood [M P]].
    cbn [fst snd]. congruence. }
  destruct (promiseAll_keySet toUpperCase env Hk latest log Hp)
    as [moods [evs [E [HF [Hr Hc]]]]].
  exists latest, moods, evs. unfold fetchMoods.
  rewrite L, (latestMoods_entries _ _ L). auto.
Qed.


(* ===================================================================== *)
(** ** Concrete instances *)
(* ===================================================================== *)

Example parse_summary :
  JsonText.parse (JsonText.summaryText "angry" "take care")
  = Some (summaryValue (mkSummary (lit "angry") (lit "take care"))).
Proof. vm_compute. reflexivity. Qed.

Example parse_rejects_plain_text :
  JsonText.parse (lit "ok") = None /\ JsonText.parse (lit "null") = Some JNull.
Proof. split; vm_compute; reflexivity. Qed.

(** C2 fails as stated: the provider rejects the first turn of a fresh
    conversation, and the message history is no longer what it was. *)
Lemma failed_turn_changes_history :
  fst (getChatResponse envRejecting
         (ChatView.messages (ChatView.initialChat bob) ++ [mkMessage user (lit "hi")])
         [])
  = Throw ChatError
  /\ ChatView.messages
       (fst (fst (ChatView.send JsonText.parse envRejecting bob (lit "hi")
                                (ChatView.initialChat bob) emptyStorage [])))
     <> ChatView.messages (ChatView.initialChat bob).
Proof. split; [reflexivity | vm_compute; discriminate]. Qed.


(** C5 fails as stated: without the API key the classification throws. *)
Lemma getMoodMeterQuadrant_raises :
  fst (getMoodMeterQuadrant asciiUpper envNoKey (stringValue (lit "sad")) [])
  = Throw CredentialMissing
  /\ ~ exists q, fst (getMoodMeterQuadrant asciiUpper envNoKey
                        (stringValue (lit "sad")) []) = Ok q
                 /\ In q quadrants.
Proof. split; [reflexivity | intros [q [H _]]; discriminate H]. Qed.


(** C10 fails as stated: after one failed turn and five turns that succeed,
    the conversation in the store has twelve messages. *)
Lemma persisted_with_failed_turn :
  exists c,
    In c (persisted (storage (run asciiLower JsonText.parse runWithFailedTurn
                                  initialSystem)))
    /\ List.length (messages c) = 12%nat
    /\ List.length (messages c) <> 11%nat.
Proof.
  eexists. split; [vm_compute; left; reflexivity|].
  split; [reflexivity | discriminate].
Qed.

Lemma handleSendMessage_invokes_witness :
  ChatView.inProgress (ChatView.initialChat bob)
  /\ truthy (trim (lit "hi")) = true
  /\ exists evs,
       snd (ChatView.send JsonText.parse (envAnswer (lit "ok")) bob (lit "hi")
                          (ChatView.initialChat bob) emptyStorage [])
       = [] ++ evs
       /\ calls evs
          = [GetChatResponse (ChatView.messages (ChatView.initialChat bob)
                                ++ [mkMessage user (lit "hi")])].
Proof.
  assert (H1 : ChatView.inProgress (ChatView.initialChat bob))
    by (split; reflexivity).
  assert (H2 : truthy (trim (lit "hi")) = true) by reflexivity.
  split; [exact H1|]. split; [exact H2|].
  destruct (handleSendMessage_invokes JsonText.parse (envAnswer (lit "ok")) bob
              (ChatView.initialChat bob) emptyStorage [] (lit "hi") H1 H2)
    as [_ [evs [E [Hlt _]]]].
  exists evs. split; [exact E|]. apply Hlt. reflexivity.
Defined.

Lemma failed_turn_keeps_count_witness :
  ChatView.inProgress (ChatView.initialChat bob)
  /\ truthy (trim (lit "hi")) = true
  /\ ChatView.turnCount
       (fst (fst (ChatView.send JsonText.parse envRejecting bob (lit "hi")
                                (ChatView.initialChat bob) emptyStorage [])))
     = ChatView.turnCount (ChatView.initialChat bob)
  /\ ChatView.error
       (fst (fst (ChatView.send JsonText.parse envRejecting bob (lit "hi")
                                (ChatView.initialChat bob) emptyStorage [])))
     = Some ChatError.
Proof.
  assert (H1 : ChatView.inProgress (ChatView.initialChat bob))
    by (split; reflexivity).
  assert (H2 : truthy (trim (lit "hi")) = true) by reflexivity.
  split; [exact H1|]. split; [exact H2|].
  destruct (failed_turn_keeps_count JsonText.parse envRejecting bob
              (ChatView.initialChat bob) emptyStorage [] (lit "hi")
              ChatError _ H1 H2 eq_refl)
    as [_ [Ht [_ [_ [He _]]]]].
  split; [exact Ht | exact He].
Defined.

Lemma summarize_failure_blocks_retry_witness :
  ChatView.inProgress fourTurns
  /\ ChatView.turnCount fourTurns + 1 = MAX_TURNS
  /\ ChatView.isConversationOver
       (fst (fst (ChatView.send JsonText.parse envSummaryRejected bob (lit "a")
                                fourTurns emptyStorage [])))
     = true
  /\ persisted
       (snd (fst (sends JsonText.parse bob
                    (repeat (envAngry, lit "again") 3)
                    (ChatView.send JsonText.parse envSummaryRejected bob (lit "a")
                                   fourTurns emptyStorage []))))
     = [].
Proof.
  assert (H1 : ChatView.inProgress fourTurns) by (split; reflexivity).
  assert (H2 : truthy (trim (lit "a")) = true) by reflexivity.
  assert (H3 : ChatView.turnCount fourTurns + 1 = MAX_TURNS) by reflexivity.
  split; [exact H1|]. split; [exact H3|].
  destruct (summarize_failure_blocks_retry JsonText.parse envSummaryRejected bob
              fourTurns emptyStorage [] (lit "a") _ _ SummaryError _
              H1 H2 H3 eq_refl eq_refl)
    as [_ [Ho Hlater]].
  split; [exact Ho|].
  destruct (Hlater (repeat (envAngry, lit "again") 3)) as [Hst _].
  rewrite Hst. reflexivity.
Defined.


Lemma getMoodMeterQuadrant_degrades_witness :
  fst (getMoodMeterQuadrant asciiUpper (envAnswer (lit "purple"))
         (stringValue (lit "sad")) [])
  = Ok BLUE.
Proof.
  destruct (proj1 (getMoodMeterQuadrant_degrades asciiUpper
                     (envAnswer (lit "purple")) (lit "sad") [])
                  (ex_intro _ (lit "key") (conj eq_refl eq_refl)))
    as [q [E [_ [_ Hblue]]]].
  rewrite E. cbn [fst]. f_equal. apply Hblue.
  intros t Ht. vm_compute in Ht. injection Ht as <-. vm_compute.
  intros [H|[H|[H|[H|[]]]]]; discriminate H.
Defined.


Lemma signupUser_duplicate_or_append_witness :
  signupUser asciiLower (lit "bob") (lit "0000") signedUp
  = (Throw DuplicateName, signedUp)
  /\ fst (signupUser asciiLower (lit "Amy") (lit "4321") signedUp) = Ok amy.
Proof.
  split.
  - apply (proj1 (signupUser_duplicate_or_append asciiLower (lit "bob")
                    (lit "0000") signedUp)).
    exists bob. split; [vm_compute; left; reflexivity | reflexivity].
  - destruct (proj2 (signupUser_duplicate_or_append asciiLower (lit "Amy")
                       (lit "4321") signedUp)) as [E _].
    + intros u Hin. vm_compute in Hin. destruct Hin as [<-|[]].
      vm_compute. discriminate.
    + rewrite E. reflexivity.
Defined.

Lemma loginUser_after_signup_witness :
  fst (loginUser asciiLower (lit "BOB") (lit "1234")
         (storage (run asciiLower JsonText.parse
                       [Signup (lit "Amy") (lit "4321"); ResetPassword (lit "Amy");
                        Login (lit "amy") (lit "0000")]
                       (mkSystem signedUp None []))))
  = Ok bob
  /\ name bob = lit "Bob".
Proof.
  destruct (proj1 (loginUser_after_signup asciiLower JsonText.parse)
              initialSystem (lit "Bob") (lit "1234") bob signedUp
              [Signup (lit "Amy") (lit "4321"); ResetPassword (lit "Amy");
               Login (lit "amy") (lit "0000")]
              (lit "BOB"))
    as [E Hn].
  - reflexivity.
  - repeat constructor; discriminate.
  - reflexivity.
  - split; [|exact Hn]. cbn [chat events initialSystem] in E.
    rewrite E. reflexivity.
Defined.

Lemma resetStudentPassword_exact_name_witness :
  In bob (getAllUsers signedUp)
  /\ resetStudentPassword (lit "bob") signedUp = signedUp
  /\ exists i,
       nth_error (getAllUsers (resetStudentPassword (lit "Bob") signedUp)) i
       = Some (mkUser (lit "Bob") (simpleHash (lit "0000"))).
Proof.
  assert (H1 : In bob (getAllUsers signedUp)) by (vm_compute; left; reflexivity).
  split; [exact H1|]. split.
  - apply (proj1 (resetStudentPassword_exact_name asciiLower JsonText.parse)
                 [Signup (lit "Bob") (lit "1234")] bob (lit "bob")).
    + exact H1.
    + reflexivity.
    + vm_compute. discriminate.
  - destruct (proj1 (proj2 (resetStudentPassword_exact_name asciiLower JsonText.parse))
                    signedUp (lit "Bob") (ex_intro _ bob (conj H1 eq_refl)))
      as [i [u [_ [_ [_ [H _]]]]]].
    exists i. exact H.
Defined.

Lemma persisted_messages_shape_witness :
  exists c rest,
    saveConversation (name amy) c emptyStorage
    = (Ok tt,
       snd (fst (sends JsonText.parse amy (repeat (envAngry, lit "a") 5)
                       (ChatView.initialChat amy, emptyStorage, []))))
    /\ messages c = ChatView.greeting amy :: rest
    /\ List.length (messages c) = 11%nat
    /\ alternates rest = true.
Proof.
  assert (Hh : goodInput JsonText.parse (envAngry, lit "a")).
  { split; [|reflexivity]. split; [exists (lit "key"); split; reflexivity|].
    intros i req. destruct req; eexists; (split; [reflexivity|]);
      intros tr E; try discriminate E. vm_compute. discriminate. }
  apply (proj2 (proj2 (proj2 (persisted_messages_shape JsonText.parse)) amy
                      emptyStorage [] (repeat (envAngry, lit "a") 5)
                      eq_refl
                      ltac:(repeat (apply Forall_cons; [exact Hh|]); apply Forall_nil)
                      ltac:(vm_compute; discriminate))).
Defined.

(* ===================================================================== *)
(** ** The hash *)
(* ===================================================================== *)

Lemma toInt32_range z : - 2^31 <= toInt32 z < 2^31.
Proof.
  unfold toInt32. pose proof (Z.mod_pos_bound (z + 2^31) (2^32) ltac:(lia)). lia.
Qed.

Lemma toInt32_small z : - 2^31 <= z < 2^31 -> toInt32 z = z.
Proof.
  intros H. unfold toInt32. rewrite Z.mod_small by lia. lia.
Qed.

Lemma toInt32_add_l a b : toInt32 (toInt32 a + b) = toInt32 (a + b).
Proof.
  unfold toInt32. f_equal.
  replace ((a + 2^31) mod 2^32 - 2^31 + b + 2^31)
    with ((a + 2^31) mod 2^32 + b) by lia.
  rewrite Zplus_mod_idemp_l. f_equal. lia.
Qed.

Lemma toInt32_mul_r k a : toInt32 (k * toInt32 a) = toInt32 (k * a).
Proof.
  unfold toInt32. f_equal.
  replace (k * ((a + 2^31) mod 2^32 - 2^31) + 2^31)
    with (k * ((a + 2^31) mod 2^32) + (2^31 - k * 2^31)) by lia.
  replace (k * a + 2^31) with (k * (a + 2^31) + (2^31 - k * 2^31)) by lia.
  rewrite <- (Zplus_mod_idemp_l (k * ((a + 2^31) mod 2^32))).
  rewrite <- (Zplus_mod_idemp_l (k * (a + 2^31))).
  f_equal. f_equal. now rewrite Zmult_mod_idemp_r.
Qed.

(** One round of the loop is [31 * hash + char], wrapped. *)
Lemma simpleHash_step_31 h c : simpleHash_step h c = toInt32 (31 * h + c).
Proof.
  unfold simpleHash_step. rewrite Z.shiftl_mul_pow2 by lia.
  replace (toInt32 (h * 2^5) - h + c) with (toInt32 (h * 2^5) + (c - h)) by lia.
  rewrite toInt32_add_l. f_equal. lia.
Qed.

Lemma simpleHash_fold s : forall h x,
  h = toInt32 x ->
  fold_left simpleHash_step s h
  = toInt32 (fold_left (fun h c => 31 * h + c) s x).
Proof.
  induction s as [|c s IH]; intros h x ->; simpl; [reflexivity|].
  apply IH. rewrite simpleHash_step_31.
  rewrite <- toInt32_add_l, toInt32_mul_r, toInt32_add_l. reflexivity.
Qed.

Lemma lit_inj a b : lit a = lit b -> a = b.
Proof.
  unfold lit. intros H.
  rewrite <- (string_of_list_ascii_of_string a), <- (string_of_list_ascii_of_string b).
  f_equal. revert H. generalize (list_ascii_of_string a) (list_ascii_of_string b).
  induction l as [|x l IH]; intros [|y l']; simpl; try discriminate; auto.
  intros [= H1 H2]. f_equal; [|now apply IH].
  apply N2Z.inj in H1.
  rewrite <- (ascii_N_embedding x), <- (ascii_N_embedding y). now rewrite H1.
Qed.

Lemma to_int_proper z : Z.to_int z <> Decimal.Pos Decimal.Nil
                        /\ Z.to_int z <> Decimal.Neg Decimal.Nil.
Proof.
  split; intros H.
  - assert (E : z = Z.of_int (Decimal.Pos Decimal.Nil))
      by (rewrite <- H; symmetry; apply DecimalZ.of_to).
    subst z. discriminate H.
  - assert (E : z = Z.of_int (Decimal.Neg Decimal.Nil))
      by (rewrite <- H; symmetry; apply DecimalZ.of_to).
    subst z. discriminate H.
Qed.

(** [toString] tells integers apart. *)
Lemma toString_inj a b : toString a = toString b -> a = b.
Proof.
  unfold toString. intros H. apply lit_inj in H.
  apply DecimalZ.to_int_inj.
  destruct (to_int_proper a) as [A1 A2], (to_int_proper b) as [B1 B2].
  pose proof (NilZero.isi _ A1 A2) as Ia.
  pose proof (NilZero.isi _ B1 B2) as Ib.
  rewrite H in Ia. congruence.
Qed.

Lemma toInt32_eq_iff a b : toInt32 a = toInt32 b <-> a mod 2^32 = b mod 2^32.
Proof.
  unfold toInt32. split; intros H.
  - assert (E : (a + 2^31) mod 2^32 = (b + 2^31) mod 2^32) by lia.
    replace a with (a + 2^31 - 2^31) by lia.
    replace b with (b + 2^31 - 2^31) by lia.
    rewrite <- (Zminus_mod_idemp_l (a + 2^31)), <- (Zminus_mod_idemp_l (b + 2^31)).
    now rewrite E.
  - rewrite <- (Zplus_mod_idemp_l a), <- (Zplus_mod_idemp_l b). now rewrite H.
Qed.

(** X1. [simpleHash] is the decimal writing of the 31-polynomial of the
    code units wrapped to a signed 32-bit integer; two strings have the same
    hash exactly when their polynomials agree modulo 2^32. *)
Theorem simpleHash_polynomial (s s' : JsString) :
  simpleHash s = toString (toInt32 (polyHash s))
  /\ - 2^31 <= toInt32 (polyHash s) < 2^31
  /\ (simpleHash s = simpleHash s'
      <-> (polyHash s) mod 2^32 = (polyHash s') mod 2^32).
Proof.
  assert (E : forall x, simpleHash x = toString (toInt32 (polyHash x))).
  { intros x. unfold simpleHash, polyHash. f_equal.
    apply simpleHash_fold. reflexivity. }
  split; [apply E|]. split; [apply toInt32_range|].
  rewrite !E. rewrite <- toInt32_eq_iff. split.
  - apply toString_inj.
  - now intros ->.
Qed.

Lemma isDigit_bounds c : isDigit c = true -> 48 <= c <= 57.
Proof. unfold isDigit. intros H. apply andb_true_iff in H as [H1 H2]. lia. Qed.

Lemma validatePassword_digits pw :
  validatePassword pw = true ->
  exists a b c d, pw = [a; b; c; d]
    /\ 48 <= a <= 57 /\ 48 <= b <= 57 /\ 48 <= c <= 57 /\ 48 <= d <= 57.
Proof.
  destruct pw as [|a [|b [|c [|d [|]]]]]; simpl; try discriminate.
  intros H. apply andb_true_iff in H as [H Hd].
  apply andb_true_iff in H as [H Hc]. apply andb_true_iff in H as [Ha Hb].
  exists a, b, c, d. split; [reflexivity|].
  repeat split; now apply isDigit_bounds.
Qed.

Lemma toInt32_small_nat z : 0 <= z < 2000000 -> toInt32 z = z.
Proof.
  intros H. apply toInt32_small.
  assert (2000000 < 2^31) by reflexivity.
  assert (- 2^31 < 0) by reflexivity.
  split; [apply Z.le_trans with 0 | apply Z.lt_trans with 2000000];
    try apply H; auto using Z.lt_le_incl.
Qed.

Lemma base31_digit x y d d' :
  31 * x + d = 31 * y + d' -> 48 <= d <= 57 -> 48 <= d' <= 57 ->
  x = y /\ d = d'.
Proof. intros. lia. Qed.

Lemma simpleHash_eq_fold p q :
  simpleHash p = simpleHash q ->
  toInt32 (polyHash p) = toInt32 (polyHash q).
Proof.
  intros H. unfold simpleHash in H. apply toString_inj in H.
  rewrite (simpleHash_fold p 0 0 eq_refl) in H.
  rewrite (simpleHash_fold q 0 0 eq_refl) in H. exact H.
Qed.

Lemma polyHash_digits a b c d :
  48 <= a <= 57 -> 48 <= b <= 57 -> 48 <= c <= 57 -> 48 <= d <= 57 ->
  toInt32 (polyHash [a; b; c; d]) = 31 * (31 * (31 * a + b) + c) + d.
Proof.
  intros Ba Bb Bc Bd. unfold polyHash. cbn [fold_left].
  rewrite toInt32_small_nat by lia. lia.
Qed.

Lemma digits_inj a b c d a' b' c' d' :
  48 <= a <= 57 -> 48 <= b <= 57 -> 48 <= c <= 57 -> 48 <= d <= 57 ->
  48 <= a' <= 57 -> 48 <= b' <= 57 -> 48 <= c' <= 57 -> 48 <= d' <= 57 ->
  31 * (31 * (31 * a + b) + c) + d = 31 * (31 * (31 * a' + b') + c') + d' ->
  [a; b; c; d] = [a'; b'; c'; d'].
Proof.
  intros Ba Bb Bc Bd Ba' Bb' Bc' Bd' H.
  destruct (base31_digit _ _ _ _ H Bd Bd') as [H1 ->].
  destruct (base31_digit _ _ _ _ H1 Bc Bc') as [H2 ->].
  destruct (base31_digit _ _ _ _ H2 Bb Bb') as [H3 ->].
  now rewrite H3.
Qed.

(** The hash tells the passwords of the form apart (shared by the
    properties of the forms). *)
Lemma simpleHash_valid_inj p q :
  validatePassword p = true -> validatePassword q = true ->
  simpleHash p = simpleHash q -> p = q.
Proof.
  intros Hp Hq H. apply simpleHash_eq_fold in H.
  destruct (validatePassword_digits p Hp) as [a [b [c [d [Ep [Ba [Bb [Bc Bd]]]]]]]].
  destruct (validatePassword_digits q Hq)
    as [a' [b' [c' [d' [Eq [Ba' [Bb' [Bc' Bd']]]]]]]].
  rewrite Ep, Eq in *.
  rewrite !polyHash_digits in H by assumption.
  now apply digits_inj.
Qed.

(** X2. On the passwords the sign-in form accepts (four digits),
    [simpleHash] is injective: two different passwords never have the same
    hash. *)
Theorem simpleHash_injective_on_passwords p q :
  validatePassword p = true -> validatePassword q = true ->
  simpleHash p = simpleHash q -> p = q.
Proof. exact (simpleHash_valid_inj p q). Qed.

(* ===================================================================== *)
(** ** The conversation store: reading back what was saved *)
(* ===================================================================== *)

Lemma lookup_assign_same n v (m : ConvMap) : lookup n (assign n v m) = Some v.
Proof.
  induction m as [|[k w] m IH]; simpl.
  - now rewrite eqb_refl.
  - destruct (eqb n k) eqn:E; simpl; now rewrite E.
Qed.

Lemma lookup_assign_other n k v (m : ConvMap) :
  k <> n -> lookup k (assign n v m) = lookup k m.
Proof.
  intros Hk. induction m as [|[k' w] m IH]; simpl.
  - apply eqb_neq in Hk. now rewrite Hk.
  - destruct (eqb n k') eqn:E; simpl.
    + apply eqb_eq in E. subst k'. apply eqb_neq in Hk. now rewrite Hk.
    + now rewrite IH.
Qed.

Lemma lookup_written k (m : ConvMap) :
  lookup k (map (fun p => (fst p, map written (snd p))) m)
  = option_map (map written) (lookup k m).
Proof.
  induction m as [|[k' v] m IH]; simpl; [reflexivity|].
  now destruct (eqb k k').
Qed.

(** Enumerating an object does not change what a name looks up. *)
Lemma lookup_indexed k acc :
  indexed acc -> arrayIndex k = None -> lookup k (map snd acc) = None.
Proof.
  intros H Hk. induction H as [|[n [k' v]] acc Hx _ IH]; simpl; [reflexivity|].
  simpl in Hx. destruct (eqb k k') eqn:E; [|exact IH].
  apply eqb_eq in E. subst k'. congruence.
Qed.

Lemma lookup_insertAscending k n p acc :
  arrayIndex (fst p) = Some n -> indexed acc ->
  lookup k (map snd (insertAscending n p acc))
  = if eqb k (fst p) then Some (snd p) else lookup k (map snd acc).
Proof.
  intros Hp H. destruct p as [kp vp]. simpl in Hp |- *.
  induction H as [|[n' [k' v']] acc Hx _ IH]; simpl; [reflexivity|].
  simpl in Hx.
  destruct (n <=? n') eqn:L; simpl; [reflexivity|].
  rewrite IH.
  destruct (eqb k k') eqn:E1, (eqb k kp) eqn:E2; try reflexivity.
  apply eqb_eq in E1, E2. subst k' kp.
  rewrite Hp in Hx. injection Hx as ->. lia.
Qed.

Lemma lookup_app k (a b : ConvMap) :
  lookup k (a ++ b)
  = match lookup k a with Some v => Some v | None => lookup k b end.
Proof.
  induction a as [|[k' v] a IH]; simpl; [reflexivity|].
  now destruct (eqb k k').
Qed.

Lemma lookup_entries k (m : ConvMap) : lookup k (entries m) = lookup k m.
Proof.
  unfold entries. induction m as [|[k' v] m IH]; [reflexivity|].
  cbn [fold_right filter fst lookup].
  rewrite lookup_app in IH |- *.
  destruct (arrayIndex k') as [n|] eqn:E.
  - rewrite (lookup_insertAscending k n (k', v)); [|exact E|apply indexed_fold].
    cbn [fst snd]. destruct (eqb k k'); [reflexivity|exact IH].
  - cbn [lookup]. destruct (eqb k k') eqn:E1.
    + apply eqb_eq in E1. subst k'.
      rewrite lookup_indexed; [reflexivity|apply indexed_fold|exact E].
    + exact IH.
Qed.

Lemma getConversations_saveAll k m st :
  getConversations k (saveAllConversations m st)
  = match lookup k m with
    | Some cs => ConversationList (map written cs)
    | None => if includes objectPrototypeNames k then PrototypeMember
              else ConversationList []
    end.
Proof.
  unfold getConversations, member, saveAllConversations, getAllConversations.
  cbn [ls_conversations]. rewrite lookup_written, lookup_entries.
  destruct (lookup k m); cbn [option_map]; [reflexivity|].
  now destruct (includes objectPrototypeNames k).
Qed.

Lemma getConversations_lookup k st :
  getConversations k st
  = match lookup k (getAllConversations st) with
    | Some cs => ConversationList cs
    | None => if includes objectPrototypeNames k then PrototypeMember
              else ConversationList []
    end.
Proof.
  unfold getConversations, member.
  destruct (lookup _ _); [reflexivity|]. now destruct (includes _ _).
Qed.

(** What every name reads after a conversation was saved (shared by the
    properties of the store). *)
Lemma getConversations_saved n c st st' l :
  getConversations n st = ConversationList l ->
  saveConversation n c st = (Ok tt, st') ->
  getConversations n st' = ConversationList (map written l ++ [written c])
  /\ forall k, k <> n -> getConversations k st' = reread (getConversations k st).
Proof.
  intros G. unfold saveConversation. rewrite G. intros [= <-]. split.
  - rewrite getConversations_saveAll, lookup_assign_same.
    now rewrite map_app.
  - intros k Hk. rewrite getConversations_saveAll, lookup_assign_other by assumption.
    rewrite (getConversations_lookup k st).
    destruct (lookup k (getAllConversations st)); [reflexivity|].
    now destruct (includes _ _).
Qed.

Lemma jsonRoundTrip_idempotent :
  forall v, jsonRoundTrip (jsonRoundTrip v) = jsonRoundTrip v.
Proof.
  fix IH 1. intros [| b | [|d|neg] | s | items | props]; simpl; try reflexivity.
  - f_equal. rewrite map_map. revert items. fix IHl 1.
    intros [|x items]; simpl; [reflexivity|]. now rewrite IH, IHl.
  - f_equal. rewrite map_map. revert props. fix IHl 1.
    intros [|[k x] props]; simpl; [reflexivity|]. now rewrite IH, IHl.
Qed.

Lemma jsonRoundTrip_finite :
  forall v, finiteJson v = true -> jsonRoundTrip v = v.
Proof.
  fix IH 1. intros [| b | [|d|neg] | s | items | props]; simpl;
    try reflexivity; try discriminate.
  - intros H. f_equal. revert items H. fix IHl 1.
    intros [|x items]; simpl; [reflexivity|].
    intros H. apply andb_true_iff in H as [H1 H2].
    now rewrite IH, IHl.
  - intros H. f_equal. revert props H. fix IHl 1.
    intros [|[k x] props]; simpl; [reflexivity|].
    intros H. apply andb_true_iff in H as [H1 H2].
    now rewrite IH, IHl.
Qed.

Lemma written_idempotent c : written (written c) = written c.
Proof. unfold written. simpl. now rewrite jsonRoundTrip_idempotent. Qed.

(** X3. Reading back what [saveConversation] stored.  For a name under
    which the store reads a list (every name but those [Object.prototype]
    defines, and those too once they are keys of the store) the call
    returns, the list of the name is the list it was with the new
    conversation at the end, the lists of all other names are what they
    were, and the users and the session are untouched; saving twice keeps
    the order of saving.  Conversations are read back as written to JSON:
    id, timestamp and messages as they were, and the summary too unless it
    holds an infinite number, which comes back as null.  For a name that
    reads as a member of the prototype the call throws a TypeError and
    nothing is stored. *)
Theorem saveConversation_getConversations n c st :
  (forall l,
      getConversations n st = ConversationList l ->
      let st' := snd (saveConversation n c st) in
      fst (saveConversation n c st) = Ok tt
      /\ getConversations n st' = ConversationList (map written l ++ [written c])
      /\ (forall k, k <> n ->
            getConversations k st' = reread (getConversations k st))
      /\ (forall c',
            getConversations n (snd (saveConversation n c' st'))
            = ConversationList (map written l ++ [written c; written c']))
      /\ ls_users st' = ls_users st
      /\ ss_currentUser st' = ss_currentUser st)
  /\ (getConversations n st = PrototypeMember ->
      saveConversation n c st = (Throw TypeError, st))
  /\ (getConversations n st = PrototypeMember
      <-> lookup n (getAllConversations st) = None /\ In n objectPrototypeNames)
  /\ id (written c) = id c /\ timestamp (written c) = timestamp c
  /\ messages (written c) = messages c
  /\ written (written c) = written c
  /\ (finiteJson (summary c) = true -> written c = c).
Proof.
  split; [|split; [|split]].
  - intros l G st'.
    assert (E : saveConversation n c st = (Ok tt, st')).
    { unfold st', saveConversation. now rewrite G. }
    destruct (getConversations_saved n c st st' l G E) as [Hsame Hother].
    split; [now rewrite E|]. split; [exact Hsame|]. split; [exact Hother|].
    split; [|split; [apply saveConversation_users | apply saveConversation_session]].
    intros c'.
    assert (E' : saveConversation n c' st'
                 = (Ok tt, snd (saveConversation n c' st'))).
    { unfold saveConversation. now rewrite Hsame. }
    destruct (getConversations_saved n c' st' _ _ Hsame E') as [H _].
    rewrite H, map_app, map_map, <- app_assoc. simpl.
    rewrite written_idempotent. f_equal. f_equal.
    apply map_ext. intros x. apply written_idempotent.
  - intros G. unfold saveConversation. now rewrite G.
  - rewrite getConversations_lookup.
    destruct (lookup n (getAllConversations st)) as [cs|].
    + split; [discriminate | intros [H _]; discriminate H].
    + destruct (includes objectPrototypeNames n) eqn:I.
      * apply includes_In in I. tauto.
      * split; [discriminate|]. intros [_ H]. apply includes_In in H. congruence.
  - repeat split; try apply written_idempotent.
    intros H. destruct c as [i t ms sm]. unfold written. simpl in *.
    now rewrite jsonRoundTrip_finite.
Qed.

(* ===================================================================== *)
(** ** The history list *)
(* ===================================================================== *)








Lemma lookup_In (m : ConvMap) n cs :
  NoDup (map fst m) -> In (n, cs) m -> lookup n m = Some cs.
Proof.
  induction m as [|[k v] m IH]; simpl; [contradiction|].
  intros Hnd [[= -> ->]|Hin]; [now rewrite eqb_refl|].
  inversion Hnd as [|? ? Hnot Hnd']; subst.
  destruct (eqb n k) eqn:E; [|auto].
  apply eqb_eq in E. subst k. exfalso. apply Hnot.
  apply in_map_iff. exists (n, cs). auto.
Qed.

(** X5. The dashboard and the history view agree: for every name of the
    conversation store, the history view returns its list, and when the
    loop of the dashboard returns, the mood and the timestamp it takes for
    that student are those of the conversation at the top of the student's
    history list; a student whose history list is empty is not taken, and
    neither is the name [__proto__], for which the loop creates no
    property.  When the summary at the top of a history list is null, the
    loop of the dashboard throws a TypeError. *)
Theorem dashboard_takes_top_of_history st n cs :
  NoDup (map fst (getAllConversations st)) ->
  In (n, cs) (getAllConversations st) ->
  historyList n st = Ok (sortDesc cs)
  /\ (forall c rest latest,
        n <> lit "__proto__" ->
        historyList n st = Ok (c :: rest) ->
        latestMoods (entries (getAllConversations st)) = Ok latest ->
        exists mood, moodOf (summary c) = Ok mood
                     /\ In (n, (mood, timestamp c)) latest)
  /\ (forall latest,
        historyList n st = Ok [] \/ n = lit "__proto__" ->
        latestMoods (entries (getAllConversations st)) = Ok latest ->
        ~ In n (map fst latest))
  /\ (forall c rest,
        historyList n st = Ok (c :: rest) -> summary c = JNull ->
        latestMoods (entries (getAllConversations st)) = Throw TypeError).
Proof.
  intros Hnd Hin.
  assert (E : historyList n st = Ok (sortDesc cs)).
  { unfold historyList. rewrite getConversations_lookup.
    now rewrite (lookup_In _ _ _ Hnd Hin). }
  assert (Hin' : In (n, cs) (entries (getAllConversations st)))
    by now apply entries_In.
  rewrite E. split; [reflexivity|]. split; [|split].
  - intros c rest latest Hn [= Hs] L.
    now apply latestMoods_In with (m := entries (getAllConversations st))
                                  (cs := cs) (rest := rest).
  - intros latest Hor L Hn.
    apply in_map_iff in Hn as [[k x] [Hk Hx]]. simpl in Hk. subst k.
    destruct (latestMoods_inv _ _ _ _ L Hx) as [Hp [cs' [c [rest [H1 [H2 _]]]]]].
    destruct Hor as [[= Hs]|Hs]; [|contradiction].
    apply sortDesc_nil in Hs. subst cs.
    apply -> (@entries_In (list Conversation)) in H1.
    pose proof (lookup_In _ _ _ Hnd Hin) as L1.
    pose proof (lookup_In _ _ _ Hnd H1) as L2.
    assert (cs' = []) by congruence. subst cs'. discriminate H2.
  - intros c rest [= Hs] Hnull.
    now apply latestMoods_null with (n := n) (cs := cs) (c := c) (rest := rest).
Qed.

(* ===================================================================== *)
(** ** Whitespace *)
(* ===================================================================== *)

Lemma trimStart_split s :
  exists w, s = w ++ trimStart s /\ blank w = true.
Proof.
  induction s as [|c s [w [E Hw]]]; simpl.
  - exists []. auto.
  - destruct (isWhiteSpace c) eqn:Hc.
    + exists (c :: w). simpl. rewrite Hc, Hw. split; [now f_equal | reflexivity].
    + exists []. auto.
Qed.

Lemma trimStart_blank s : trimStart s = [] <-> blank s = true.
Proof.
  induction s as [|c s IH]; simpl; [tauto|].
  destruct (isWhiteSpace c); simpl; [assumption|].
  split; discriminate.
Qed.

Lemma blank_rev s : blank (rev s) = blank s.
Proof.
  unfold blank. induction s as [|c s IH]; simpl; [reflexivity|].
  rewrite forallb_app, IH. simpl. rewrite andb_true_r. apply andb_comm.
Qed.

Lemma trimStart_rev_nil s :
  trimStart (rev (trimStart s)) = [] -> trimStart s = [].
Proof.
  intros H. apply trimStart_blank in H. rewrite blank_rev in H.
  destruct (trimStart s) as [|c r] eqn:E; [reflexivity|].
  exfalso. assert (Hc : isWhiteSpace c = false).
  { clear H. induction s as [|x s IH]; simpl in E; [discriminate|].
    destruct (isWhiteSpace x) eqn:Hx; [auto|]. injection E as -> _. exact Hx. }
  simpl in H. rewrite Hc in H. discriminate.
Qed.

(** [trim] gives the empty string exactly on whitespace-only strings. *)
Lemma trim_blank s : truthy (trim s) = false <-> blank s = true.
Proof.
  unfold trim. split.
  - intros H. apply trimStart_blank.
    apply trimStart_rev_nil.
    destruct (trimStart (rev (trimStart s))) as [|c r]; [reflexivity|].
    simpl in H. destruct (rev r ++ [c]) eqn:E; [|discriminate].
    now apply app_eq_nil in E as [_ E].
  - intros H. apply trimStart_blank in H. now rewrite H.
Qed.

(* ===================================================================== *)
(** ** The gateway: credential and errors *)
(* ===================================================================== *)

Section GatewayProofs.

Variable toUpperCase : JsString -> JsString.
Variable JSON_parse : JsString -> option Json.

(** X6. Without an API key (none stored, or the empty string) none of the
    four operations of the gateway sends anything to the provider: each
    throws the missing-credential error right after being called.  In the
    chat view such a message is not counted as a turn, the error shown is
    the missing credential, and nothing is persisted. *)
Theorem no_key_no_request env :
  noKey env ->
  (forall h log,
      getChatResponse env h log
      = (Throw CredentialMissing, log ++ [Called (GetChatResponse h)])
      /\ getFinalChatResponse env h log
         = (Throw CredentialMissing, log ++ [Called (GetFinalChatResponse h)])
      /\ getFinalSummary JSON_parse env h log
         = (Throw CredentialMissing, log ++ [Called (GetFinalSummary h)]))
  /\ (forall m log,
        getMoodMeterQuadrant toUpperCase env m log
        = (Throw CredentialMissing, log ++ [Called (GetMoodMeterQuadrant m)]))
  /\ (forall u s st log input,
        ChatView.inProgress s -> truthy (trim input) = true ->
        let r := ChatView.send JSON_parse env u input s st log in
        ChatView.error (fst (fst r)) = Some CredentialMissing
        /\ ChatView.turnCount (fst (fst r)) = ChatView.turnCount s
        /\ snd (fst r) = st
        /\ requests (snd r) = requests log).
Proof.
  intros Hno.
  assert (A : forall h log,
             getChatResponse env h log
             = (Throw CredentialMissing, log ++ [Called (GetChatResponse h)])).
  { intros h log. unfold getChatResponse, bind, emit.
    now rewrite getAI_noKey. }
  assert (B : forall h log,
             getFinalChatResponse env h log
             = (Throw CredentialMissing, log ++ [Called (GetFinalChatResponse h)])).
  { intros h log. unfold getFinalChatResponse, bind, emit.
    now rewrite getAI_noKey. }
  split; [|split].
  - intros h log. split; [apply A|]. split; [apply B|].
    unfold getFinalSummary, bind, emit. now rewrite getAI_noKey.
  - intros m log. unfold getMoodMeterQuadrant, bind, emit.
    now rewrite getAI_noKey.
  - intros u s st log input Hin Hi r. subst r.
    rewrite send_unfold by assumption. cbv zeta.
    destruct (ChatView.turnCount s + 1 =? MAX_TURNS);
      rewrite ?A, ?B; cbn [fst snd]; chat_fields;
      rewrite requests_app, app_nil_r; auto.
Qed.

(** X7. With the API key set, each of the two chat operations sends exactly
    one request, built from the whole history, and returns the text of the
    answer trimmed; whatever goes wrong with the provider (the request is
    rejected, the answer has no text) is surfaced as the one generic error
    of the operation. *)
Theorem chat_operations_with_key env h log :
  keySet env ->
  (let log0 := log ++ [Called (GetChatResponse h)] in
   let req := ChatRequest Gemini25Pro (buildChatHistory h) AskOpenQuestion in
   getChatResponse env h log
   = (match provider env (List.length log0) req with
      | Response (Some t) => Ok (trim t)
      | _ => Throw ChatError
      end, log0 ++ [Sent req]))
  /\ (let log0 := log ++ [Called (GetFinalChatResponse h)] in
      let req := ChatRequest Gemini25Pro (buildChatHistory h) SayClosingRemark in
      getFinalChatResponse env h log
      = (match provider env (List.length log0) req with
         | Response (Some t) => Ok (trim t)
         | _ => Throw FinalChatError
         end, log0 ++ [Sent req])).
Proof.
  intros Hk. split; cbv zeta.
  - unfold getChatResponse, bind, emit. rewrite getAI_keySet by assumption.
    unfold tryCatch, generateContent, textTrim, ret, throw.
    destruct (provider env _ _) as [|[t|]]; reflexivity.
  - unfold getFinalChatResponse, bind, emit. rewrite getAI_keySet by assumption.
    unfold tryCatch, generateContent, textTrim, ret, throw.
    destruct (provider env _ _) as [|[t|]]; reflexivity.
Qed.

(** X8. With the API key set, [getFinalSummary] sends exactly one request,
    which carries the transcript of the history, and returns whatever value
    [JSON.parse] reads from the trimmed answer, be it an object with the two
    fields, null, a number or anything else; a rejected request, an answer
    without text and an answer [JSON.parse] rejects all surface as the one
    generic summary error. *)
Theorem summary_operation_with_key env h log :
  keySet env ->
  let log0 := log ++ [Called (GetFinalSummary h)] in
  let req := SummaryRequest (transcript h) in
  getFinalSummary JSON_parse env h log
  = (match provider env (List.length log0) req with
     | Response (Some t) =>
         match JSON_parse (trim t) with
         | Some sm => Ok sm
         | None => Throw SummaryError
         end
     | _ => Throw SummaryError
     end, log0 ++ [Sent req]).
Proof.
  intros Hk. cbv zeta.
  unfold getFinalSummary, bind, emit. rewrite getAI_keySet by assumption.
  unfold tryCatch, generateContent, textTrim, ret, throw.
  destruct (provider env _ _) as [|[t|]]; try reflexivity.
  destruct (JSON_parse (trim t)); reflexivity.
Qed.

(** X9. An input made of whitespace only is never sent: whatever the state
    of the chat view, the handler changes nothing but the input field; no
    message is added, the gateway is not called and nothing is stored. *)
Theorem blank_input_is_ignored env u input s st log :
  blank input = true ->
  ChatView.send JSON_parse env u input s st log
  = (ChatView.setUserInput input s, st, log).
Proof.
  intros H. apply send_guarded. left. now apply trim_blank.
Qed.

End GatewayProofs.

(* ===================================================================== *)
(** ** The chat view: the counter and the one conversation *)
(* ===================================================================== *)

Section ChatViewProofs.

Variable toLowerCase : JsString -> JsString.
Variable JSON_parse : JsString -> option Json.

(** X10. One chat view stores at most one conversation.  However many
    messages are sent in it and whatever the gateway answers, the store at
    the end is the store at the start, or what one call of
    [saveConversation] for the user of the view made of it; the
    conversation saved carries the messages the view shows, and its summary
    is the value the view holds as [finalSummary], whatever [JSON.parse]
    returned.  The user list is untouched, and so are the conversations of
    all other names, up to their being written again. *)
Theorem chat_view_stores_at_most_once u inputs st log :
  let r := sends JSON_parse u inputs (ChatView.initialChat u, st, log) in
  (snd (fst r) = st
   \/ exists c,
        saveConversation (name u) c st = (Ok tt, snd (fst r))
        /\ messages c = ChatView.messages (fst (fst r))
        /\ summary c = ChatView.finalSummary (fst (fst r))
        /\ ChatView.turnCount (fst (fst r)) = MAX_TURNS)
  /\ (forall k, k <> name u ->
        getConversations k (snd (fst r)) = getConversations k st
        \/ getConversations k (snd (fst r)) = reread (getConversations k st))
  /\ ls_users (snd (fst r)) = ls_users st.
Proof.
  intros r.
  destruct (sends_counts JSON_parse u inputs (ChatView.initialChat u) st log
              0 0 (ViewState_initial u)) as [_ H].
  fold r in H.
  destruct H as [E|[c [Hsave [_ [Hm [Hs Ht]]]]]].
  - rewrite E. split; [now left|]. split; [now left | reflexivity].
  - split; [right; exists c; auto|]. split.
    + intros k Hk. right.
      unfold saveConversation in Hsave.
      destruct (getConversations (name u) st) as [l|] eqn:G; [|discriminate].
      assert (E : saveConversation (name u) c st = (Ok tt, snd (fst r)))
        by (unfold saveConversation; now rewrite G).
      now apply (getConversations_saved (name u) c st (snd (fst r)) l G E).
    + pose proof (saveConversation_users (name u) c st) as Hu.
      now rewrite Hsave in Hu.
Qed.

(** X11. In every chat view the application can reach, the turn counter is
    the number of answers of the coach after the greeting; it lies between
    0 and [MAX_TURNS], the conversation is over exactly when it is
    [MAX_TURNS], and while the conversation is not over the header shows a
    turn number between 1 and [MAX_TURNS]. *)
Theorem turn_count_counts_answers acts u s :
  chat (run toLowerCase JSON_parse acts initialSystem) = Some (u, s) ->
  Z.of_nat (countAi (ChatView.messages s)) = ChatView.turnCount s + 1
  /\ 0 <= ChatView.turnCount s <= MAX_TURNS
  /\ (ChatView.isConversationOver s = true <-> ChatView.turnCount s = MAX_TURNS)
  /\ (ChatView.isConversationOver s = false ->
      1 <= ChatView.turnCount s + 1 <= MAX_TURNS)
  /\ ChatView.isAITyping s = false.
Proof.
  intros C.
  destruct (SysInv_reachable toLowerCase JSON_parse acts) as [_ Hch].
  destruct (Hch u s C) as [t [f [b [Hm [HB [Ht [Hle [Hty [Hov _]]]]]]]]].
  rewrite Hm, Ht. unfold MAX_TURNS.
  change (ChatView.greeting u :: b) with ([ChatView.greeting u] ++ b).
  rewrite countAi_app, (Body_countAi _ _ _ HB).
  split; [unfold countAi; simpl; lia|].
  split; [lia|]. split; [|split; [|assumption]].
  - rewrite Hov. lia.
  - intros Ho. assert (t <> 5%nat) by (intros E; apply Hov in E; congruence). lia.
Qed.

End ChatViewProofs.

(* ===================================================================== *)
(** ** The teacher password *)
(* ===================================================================== *)

Lemma toString_truthy z : truthy (toString z) = true.
Proof.
  unfold toString.
  destruct (to_int_proper z) as [A1 A2].
  pose proof (NilZero.isi _ A1 A2) as I.
  destruct (NilZero.string_of_int (Z.to_int z)); [discriminate I | reflexivity].
Qed.

Lemma simpleHash_truthy s : truthy (simpleHash s) = true.
Proof. apply toString_truthy. Qed.

Lemma getTeacherPassword_truthy item : truthy (getTeacherPassword item) = true.
Proof.
  unfold getTeacherPassword. destruct item as [p|]; [|apply simpleHash_truthy].
  destruct (truthy p) eqn:E; [assumption | apply simpleHash_truthy].
Qed.

Lemma getTeacherPassword_Some p :
  truthy p = true -> getTeacherPassword (Some p) = p.
Proof. unfold getTeacherPassword. now intros ->. Qed.

Lemma verifyTeacherPassword_item p item :
  snd (verifyTeacherPassword p item) = Some (getTeacherPassword item).
Proof.
  unfold verifyTeacherPassword, getTeacherPassword. simpl.
  destruct item as [q|]; [|reflexivity]. now destruct (truthy q).
Qed.

Lemma verifyTeacherPassword_true p item :
  fst (verifyTeacherPassword p item) = true
  <-> simpleHash p = getTeacherPassword item.
Proof. unfold verifyTeacherPassword. simpl. apply eqb_eq. Qed.

(** X12. [verifyTeacherPassword] accepts exactly the passwords whose hash
    is the effective teacher password: the stored one, or the hash of
    "0000" when nothing (or the empty string) is stored, so "0000" is
    accepted on a fresh installation.  Verifying never changes the
    effective password: it only writes it down, and a second verification
    gives the same answer and changes nothing. *)
Theorem verifyTeacherPassword_lazy_default p item :
  let r := verifyTeacherPassword p item in
  (fst r = true <-> simpleHash p = getTeacherPassword item)
  /\ snd r = Some (getTeacherPassword item)
  /\ getTeacherPassword (snd r) = getTeacherPassword item
  /\ verifyTeacherPassword p (snd r) = r
  /\ fst (verifyTeacherPassword (lit "0000") None) = true.
Proof.
  cbv zeta.
  pose proof (verifyTeacherPassword_item p item) as Hi.
  pose proof (getTeacherPassword_truthy item) as Ht.
  split; [apply verifyTeacherPassword_true|]. split; [exact Hi|].
  rewrite Hi. split; [now apply getTeacherPassword_Some|].
  split; [|apply eqb_refl].
  unfold verifyTeacherPassword at 1.
  rewrite (getTeacherPassword_Some _ Ht), Ht.
  unfold verifyTeacherPassword. f_equal.
  change (Some (getTeacherPassword item))
    with (snd (eqb (simpleHash p) (getTeacherPassword item),
               Some (getTeacherPassword item))).
  cbn [snd]. symmetry. apply Hi.
Qed.

(** X13. [changeTeacherPassword] with a current password that does not
    verify throws and leaves the effective teacher password as it was.
    With one that verifies it stores the hash of the new password; from
    then on exactly the passwords with that hash verify, so the new
    password does, and a four-digit password different from a four-digit
    new password does not.  The settings form refuses a new password that
    is not made of at least four digits without touching the store. *)
Theorem changeTeacherPassword_effect oldPassword newPassword item :
  let r := changeTeacherPassword oldPassword newPassword item in
  (simpleHash oldPassword <> getTeacherPassword item ->
   fst r = Failed CurrentPasswordMismatch
   /\ getTeacherPassword (snd r) = getTeacherPassword item)
  /\ (simpleHash oldPassword = getTeacherPassword item ->
      fst r = Done tt
      /\ snd r = Some (simpleHash newPassword)
      /\ (forall p, fst (verifyTeacherPassword p (snd r)) = true
                    <-> simpleHash p = simpleHash newPassword)
      /\ (forall p, validatePassword p = true ->
                    validatePassword newPassword = true -> p <> newPassword ->
                    fst (verifyTeacherPassword p (snd r)) = false))
  /\ (validateNewPassword newPassword = false ->
      handleChangePassword oldPassword newPassword item
      = (NewPasswordFormat, item))
  /\ (validateNewPassword newPassword = true ->
      handleChangePassword oldPassword newPassword item
      = (match fst r with
         | Done _ => PasswordChanged
         | Failed e => SettingsThrown e
         end, snd r)).
Proof.
  cbv zeta. unfold changeTeacherPassword.
  destruct (verifyTeacherPassword oldPassword item) as [ok item1] eqn:V.
  assert (Hok : ok = true <-> simpleHash oldPassword = getTeacherPassword item).
  { rewrite <- verifyTeacherPassword_true. now rewrite V. }
  assert (Hitem : item1 = Some (getTeacherPassword item)).
  { rewrite <- (verifyTeacherPassword_item oldPassword item). now rewrite V. }
  split; [|split; [|split]].
  - intros Hne. destruct ok; [exfalso; apply Hne; now apply Hok|].
    cbn [negb fst snd]. split; [reflexivity|]. rewrite Hitem.
    apply getTeacherPassword_Some, getTeacherPassword_truthy.
  - intros He. apply Hok in He. subst ok. cbn [negb fst snd].
    assert (G : getTeacherPassword (Some (simpleHash newPassword))
                = simpleHash newPassword)
      by apply getTeacherPassword_Some, simpleHash_truthy.
    split; [reflexivity|]. split; [reflexivity|]. split.
    + intros p. rewrite verifyTeacherPassword_true. now rewrite G.
    + intros p Hp Hn Hd.
      destruct (fst (verifyTeacherPassword p (Some (simpleHash newPassword)))) eqn:E;
        [|reflexivity].
      apply verifyTeacherPassword_true in E. rewrite G in E.
      exfalso. apply Hd. now apply simpleHash_valid_inj.
  - intros Hv. unfold handleChangePassword. now rewrite Hv.
  - intros Hv. unfold handleChangePassword, changeTeacherPassword.
    rewrite Hv, V. cbn [negb]. now destruct ok.
Qed.

(* ===================================================================== *)
(** ** Accounts: reset, the forms, the session *)
(* ===================================================================== *)

Section AccountExtras.

Variable toLowerCase : JsString -> JsString.
Variable JSON_parse : JsString -> option Json.

Local Abbreviation sameName := (sameNameCI toLowerCase).
Local Abbreviation exec := (run toLowerCase JSON_parse).

Lemma find_unique us u n :
  uniqueCI toLowerCase us -> In u us ->
  toLowerCase n = toLowerCase (name u) ->
  find (sameName n) us = Some u.
Proof.
  intros U Hu Hn.
  destruct (find (sameName n) us) as [x|] eqn:F.
  - apply find_some in F as [Hx S]. apply eqb_eq in S.
    f_equal. apply (uniqueCI_exact toLowerCase us x u U Hx Hu). congruence.
  - exfalso. pose proof (find_none _ _ F u Hu) as S.
    apply eqb_neq in S. auto.
Qed.

Lemma uniqueCI_updateAt us i f :
  (forall x : User, name (f x) = name x) ->
  uniqueCI toLowerCase us -> uniqueCI toLowerCase (updateAt i f us).
Proof.
  unfold uniqueCI. intros Hf U.
  rewrite (updateAt_map f (fun u => toLowerCase (name u))); [assumption|].
  intros x. now rewrite Hf.
Qed.

(** What a reset of a listed student does in a store whose names are
    unique up to case (shared by the properties below). *)
Lemma reset_then_find st student n' :
  uniqueCI toLowerCase (getAllUsers st) ->
  In student (getAllUsers st) ->
  toLowerCase n' = toLowerCase (name student) ->
  let st' := resetStudentPassword (name student) st in
  uniqueCI toLowerCase (getAllUsers st')
  /\ find (sameName n') (getAllUsers st')
     = Some (mkUser (name student) (simpleHash (lit "0000"))).
Proof.
  intros U Hin Hn st'. subst st'. unfold resetStudentPassword.
  destruct (findIndex (fun u => eqb (name u) (name student)) (getAllUsers st))
    as [i|] eqn:F.
  - rewrite getAllUsers_saveUsers.
    assert (U' : uniqueCI toLowerCase
                   (updateAt i (fun u => mkUser (name u) (simpleHash (lit "0000")))
                             (getAllUsers st)))
      by (apply uniqueCI_updateAt; auto).
    split; [exact U'|].
    apply findIndex_Some in F as [x [Hx [Px _]]]. apply eqb_eq in Px.
    apply find_unique; [exact U'| |exact Hn].
    apply nth_error_In with (n := i).
    rewrite (updateAt_same _ _ _ _ Hx). now rewrite Px.
  - exfalso. rewrite findIndex_None in F. specialize (F student Hin).
    simpl in F. now rewrite eqb_refl in F.
Qed.

(** X14. In every store the application can reach, pressing the reset
    button of a listed student makes "0000" the password of that student:
    afterwards [loginUser] with any casing of the student's name and "0000"
    returns the account, and with any password whose hash is not the hash of
    "0000" (every other four-digit password) it throws the
    invalid-credentials error. *)
Theorem reset_then_login acts i student n' :
  let st := storage (exec acts initialSystem) in
  nth_error (getAllUsers st) i = Some student ->
  toLowerCase n' = toLowerCase (name student) ->
  let st' := snd (handleResetPassword (name student) st) in
  let account := mkUser (name student) (simpleHash (lit "0000")) in
  fst (handleResetPassword (name student) st) = getAllUsers st'
  /\ In account (getAllUsers st')
  /\ loginUser toLowerCase n' (lit "0000") st'
     = (Ok account, mkStorage (ls_users st') (ls_conversations st') (Some account))
  /\ (forall pw, simpleHash pw <> simpleHash (lit "0000") ->
        loginUser toLowerCase n' pw st' = (Throw InvalidCredentials, st'))
  /\ (forall pw, validatePassword pw = true -> pw <> lit "0000" ->
        loginUser toLowerCase n' pw st' = (Throw InvalidCredentials, st')).
Proof.
  intros st Hnth Hn st' account. subst st' account.
  pose proof (uniqueCI_reachable toLowerCase JSON_parse acts) as U. fold st in U.
  apply nth_error_In in Hnth as Hin.
  destruct (reset_then_find st student n' U Hin Hn) as [U' F].
  unfold handleResetPassword. cbn [fst snd].
  assert (Fail : forall pw, simpleHash pw <> simpleHash (lit "0000") ->
            loginUser toLowerCase n' pw (resetStudentPassword (name student) st)
            = (Throw InvalidCredentials, resetStudentPassword (name student) st)).
  { intros pw Hpw. unfold loginUser. rewrite F. cbn [passwordHash].
    replace (eqb (simpleHash (lit "0000")) (simpleHash pw)) with false;
      [reflexivity|].
    symmetry. apply eqb_neq. congruence. }
  split; [reflexivity|]. split; [|split; [|split]].
  - apply find_some in F. tauto.
  - unfold loginUser. rewrite F. cbn [passwordHash]. now rewrite eqb_refl.
  - exact Fail.
  - intros pw Hv Hd. apply Fail. intros E. apply Hd.
    now apply simpleHash_valid_inj.
Qed.

End AccountExtras.

Section FormProofs.

Variable toLowerCase : JsString -> JsString.
Variable JSON_parse : JsString -> option Json.

Local Abbreviation exec := (run toLowerCase JSON_parse).
Local Abbreviation step := (act toLowerCase JSON_parse).
Local Abbreviation submit := (handleSubmit toLowerCase).

Lemma run_app acts more sys :
  exec (acts ++ more) sys = exec more (exec acts sys).
Proof. unfold run. apply fold_left_app. Qed.

(** What the forms do is something the application can do. *)
Lemma uiAct_as_run a sys :
  exists acts, storage (exec acts sys) = uiAct toLowerCase (storage sys) a.
Proof.
  destruct a as [isLogin n p| |i]; simpl.
  - unfold handleSubmit.
    destruct (negb (truthy (trim n))); [now exists []|].
    destruct (negb (validatePassword p)); [now exists []|].
    destruct isLogin.
    + exists [Login n p]. simpl.
      now destruct (loginUser toLowerCase n p (storage sys)) as [[u|e] st'].
    + exists [Signup n p]. simpl.
      now destruct (signupUser toLowerCase n p (storage sys)) as [[u|e] st'].
  - now exists [Logout].
  - destruct (nth_error (getAllUsers (storage sys)) i) as [student|].
    + now exists [ResetPassword (name student)].
    + now exists [].
Qed.

Lemma uiRun_as_run uacts : forall sys,
  exists acts, storage (exec acts sys) = uiRun toLowerCase uacts (storage sys).
Proof.
  induction uacts as [|a uacts IH]; intros sys; simpl.
  - now exists [].
  - destruct (uiAct_as_run a sys) as [acts1 E1].
    destruct (IH (exec acts1 sys)) as [acts2 E2].
    exists (acts1 ++ acts2). rewrite run_app, E2. now rewrite E1.
Qed.

Lemma formAccount_step st a :
  Forall formAccount (getAllUsers st) ->
  Forall formAccount (getAllUsers (uiAct toLowerCase st a)).
Proof.
  intros Hall. destruct a as [isLogin n p| |i]; simpl.
  - unfold handleSubmit.
    destruct (truthy (trim n)) eqn:Hn; [|exact Hall].
    destruct (validatePassword p) eqn:Hp; [|exact Hall].
    cbn [negb]. destruct isLogin.
    + pose proof (loginUser_users toLowerCase n p st) as E.
      destruct (loginUser toLowerCase n p st) as [[u|e] st']; simpl in *;
        unfold getAllUsers; now rewrite E.
    + unfold signupUser. destruct (existsb _ _); [exact Hall|].
      cbn [snd]. rewrite getAllUsers_saveUsers.
      apply Forall_app. split; [exact Hall|].
      constructor; [|constructor]. split; [exact Hn|]. now exists p.
  - exact Hall.
  - destruct (nth_error (getAllUsers st) i) as [student|]; [|exact Hall].
    unfold handleResetPassword, resetStudentPassword. cbn [snd].
    destruct (findIndex _ _) as [k|]; [|exact Hall].
    rewrite getAllUsers_saveUsers. apply Forall_forall. intros x Hx.
    rewrite Forall_forall in Hall.
    apply updateAt_In in Hx as [Hx|[y [Hy ->]]]; [now apply Hall|].
    destruct (Hall y Hy) as [Hname _]. split; [exact Hname|].
    exists (lit "0000"). split; reflexivity.
Qed.

Lemma formAccount_run uacts : forall st,
  Forall formAccount (getAllUsers st) ->
  Forall formAccount (getAllUsers (uiRun toLowerCase uacts st)).
Proof.
  induction uacts as [|a uacts IH]; intros st H; simpl; [exact H|].
  apply IH. now apply formAccount_step.
Qed.

Lemma uniqueCI_uiRun uacts :
  uniqueCI toLowerCase (getAllUsers (uiRun toLowerCase uacts emptyStorage)).
Proof.
  destruct (uiRun_as_run uacts initialSystem) as [acts E].
  change (storage initialSystem) with emptyStorage in E. rewrite <- E.
  apply uniqueCI_reachable.
Qed.

(** X15. Whatever is submitted through the sign-in form and whatever the
    teacher resets, every stored account has a name that is not blank and
    the hash of a four-digit password, and no two accounts have the same
    name up to case.  The form refuses a blank name, and otherwise a
    password that is not four digits, without touching the store. *)
Theorem form_accounts_well_formed uacts :
  let st := uiRun toLowerCase uacts emptyStorage in
  Forall formAccount (getAllUsers st)
  /\ uniqueCI toLowerCase (getAllUsers st)
  /\ (forall isLogin n p,
        blank n = true ->
        submit isLogin n p st = (FormFailed NameRequired, st))
  /\ (forall isLogin n p,
        blank n = false -> validatePassword p = false ->
        submit isLogin n p st = (FormFailed PasswordFormat, st)).
Proof.
  cbv zeta. split; [|split; [|split]].
  - apply formAccount_run. constructor.
  - apply uniqueCI_uiRun.
  - intros isLogin n p Hb. apply trim_blank in Hb.
    unfold handleSubmit. now rewrite Hb.
  - intros isLogin n p Hb Hp. unfold handleSubmit.
    destruct (truthy (trim n)) eqn:Ht.
    + now rewrite Hp.
    + apply trim_blank in Ht. congruence.
Qed.

(** X16. Through the forms, a password is never confused with another:
    every stored account has one four-digit password, and logging in with
    any casing of its name succeeds exactly with that password. *)
Theorem form_login_iff_password uacts u :
  let st := uiRun toLowerCase uacts emptyStorage in
  In u (getAllUsers st) ->
  exists p,
    validatePassword p = true
    /\ passwordHash u = simpleHash p
    /\ forall n' q,
         toLowerCase n' = toLowerCase (name u) -> blank n' = false ->
         (fst (submit true n' q st) = AuthSuccess u <-> q = p).
Proof.
  intros st Hin.
  assert (Hall : Forall formAccount (getAllUsers st))
    by (apply formAccount_run; constructor).
  rewrite Forall_forall in Hall. destruct (Hall u Hin) as [_ [p [Hp Hh]]].
  exists p. split; [exact Hp|]. split; [exact Hh|].
  intros n' q Hn Hb.
  assert (Ht : truthy (trim n') = true).
  { destruct (truthy (trim n')) eqn:E; [reflexivity|].
    apply trim_blank in E. congruence. }
  pose proof (find_unique toLowerCase _ u n' (uniqueCI_uiRun uacts) Hin Hn) as F.
  fold st in F.
  unfold handleSubmit. rewrite Ht. cbn [negb].
  destruct (validatePassword q) eqn:Hq; cbn [negb].
  - unfold loginUser. rewrite F, Hh.
    destruct (eqb (simpleHash p) (simpleHash q)) eqn:E; cbn [negb fst].
    + apply eqb_eq in E. split; [|reflexivity].
      intros _. symmetry. now apply simpleHash_valid_inj.
    + split; [discriminate|]. intros ->. now rewrite eqb_refl in E.
  - cbn [fst]. split; [discriminate|]. intros ->. congruence.
Qed.

End FormProofs.

Section SessionProofs.

Variable toLowerCase : JsString -> JsString.
Variable JSON_parse : JsString -> option Json.

Local Abbreviation exec := (run toLowerCase JSON_parse).
Local Abbreviation step := (act toLowerCase JSON_parse).

Lemma handleSendMessage_session env u s st log :
  ss_currentUser (snd (fst (ChatView.handleSendMessage JSON_parse env u s st log)))
  = ss_currentUser st.
Proof.
  destruct (handleSendMessage_storage JSON_parse env u s st log)
    as [-> | [c ->]]; [reflexivity | apply saveConversation_session].
Qed.

(** The names of the accounts after an action: the names before, with at
    most one more at the end. *)
Lemma act_names sys a :
  exists added,
    map name (getAllUsers (storage (step sys a)))
    = map name (getAllUsers (storage sys)) ++ added.
Proof.
  destruct (act_users toLowerCase JSON_parse sys a)
    as [H|[[n [p [_ [_ H]]]]|[n [i [_ [_ H]]]]]]; rewrite H.
  - exists []. now rewrite app_nil_r.
  - exists [n]. now rewrite map_app.
  - exists []. rewrite app_nil_r. now apply updateAt_map.
Qed.

Lemma run_names acts : forall sys,
  exists added,
    map name (getAllUsers (storage (exec acts sys)))
    = map name (getAllUsers (storage sys)) ++ added.
Proof.
  induction acts as [|a acts IH]; intros sys; simpl.
  - exists []. now rewrite app_nil_r.
  - destruct (IH (step sys a)) as [added2 E2].
    destruct (act_names sys a) as [added1 E1].
    exists (added1 ++ added2). rewrite E2, E1. now rewrite app_assoc.
Qed.

(** The session after an action: what it was, or cleared by a logout, or
    an account of the user list set by a login. *)
Lemma act_session sys a :
  ss_currentUser (storage (step sys a)) = ss_currentUser (storage sys)
  \/ ss_currentUser (storage (step sys a)) = None
  \/ exists u, ss_currentUser (storage (step sys a)) = Some u
               /\ In u (getAllUsers (storage sys)).
Proof.
  destruct a as [n p|n p| |n|u|env input|]; simpl; auto.
  - left. unfold signupUser. now destruct (existsb _ _).
  - unfold loginUser.
    destruct (find _ _) as [u|] eqn:F; [|auto].
    destruct (negb _); [auto|]. right; right. exists u.
    split; [reflexivity|]. now apply find_some in F.
  - left. unfold resetStudentPassword. now destruct (findIndex _ _).
  - left. destruct (chat sys) as [[u s]|]; [|reflexivity].
    unfold ChatView.send.
    pose proof (handleSendMessage_session env u (ChatView.setUserInput input s)
                  (storage sys) (events sys)) as H.
    now destruct (ChatView.handleSendMessage _ _ _ _ _ _) as [[s' st'] log'].
Qed.

Lemma sessionKnown_step sys a :
  sessionKnown (storage sys) -> sessionKnown (storage (step sys a)).
Proof.
  unfold sessionKnown. intros Inv u Hu.
  destruct (act_names sys a) as [added E]. rewrite E.
  apply in_or_app. left.
  destruct (act_session sys a) as [H|[H|[v [H Hv]]]]; rewrite H in Hu.
  - now apply Inv.
  - discriminate.
  - injection Hu as <-. now apply in_map.
Qed.

Lemma sessionKnown_run acts : forall sys,
  sessionKnown (storage sys) -> sessionKnown (storage (exec acts sys)).
Proof.
  induction acts as [|a acts IH]; intros sys H; simpl; [exact H|].
  apply IH. now apply sessionKnown_step.
Qed.

(** X17. Accounts are never deleted or renamed: whatever the application
    does, the names of the stored accounts stay, in order, and new names are
    only added at the end.  The account of the session, when there is one,
    always has the name of a stored account. *)
Theorem accounts_are_never_deleted acts more :
  let st := storage (exec acts initialSystem) in
  let st' := storage (exec (acts ++ more) initialSystem) in
  (exists added,
      map name (getAllUsers st') = map name (getAllUsers st) ++ added)
  /\ sessionKnown st.
Proof.
  cbv zeta. split.
  - unfold run. rewrite fold_left_app. apply run_names.
  - apply sessionKnown_run. intros u [=].
Qed.

End SessionProofs.

(* ===================================================================== *)
(** ** The API key *)
(* ===================================================================== *)

Example btoa_key : btoaLatin1 (lit "key") = Some (lit "a2V5").
Proof. vm_compute. reflexivity. Qed.

Example atob_btoa_padding :
  atobCanonical (lit "a2V5cw==") = Some (lit "keys")
  /\ btoaLatin1 (lit "keys") = Some (lit "a2V5cw==").
Proof. split; vm_compute; reflexivity. Qed.

Section ApiKeyProofs.

Variable btoa : JsString -> option JsString.
Variable atob : JsString -> option JsString.

(** X18. The stored API key.  Nothing stored, or the empty string stored,
    reads as no key and leaves the store alone.  A stored value that does
    not decode reads as no key and is deleted, so the next read finds
    nothing.  A key that was saved and decodes back is what [getApiKey]
    returns, the store is left alone, and with a non-empty key [getAI] no
    longer throws.  A key with a character [btoa] refuses is not saved. *)
Theorem getApiKey_after_saveApiKey :
  (getApiKey atob None = (None, None)
   /\ getApiKey atob (Some []) = (None, Some []))
  /\ (forall e,
        truthy e = true -> atob e = None ->
        getApiKey atob (Some e) = (None, None)
        /\ getApiKey atob (snd (getApiKey atob (Some e))) = (None, None))
  /\ (forall key item e p clock log,
        btoa key = Some e -> truthy e = true -> atob e = Some key ->
        saveApiKey btoa key item = (Done tt, Some e)
        /\ getApiKey atob (snd (saveApiKey btoa key item)) = (Some key, Some e)
        /\ (truthy key = true ->
            getAI (envOfItem atob (snd (saveApiKey btoa key item)) p clock) log
            = (Ok tt, log)))
  /\ (forall key item,
        btoa key = None ->
        saveApiKey btoa key item = (Failed InvalidCharacterError, item)).
Proof.
  split; [split; reflexivity|]. split; [|split].
  - intros e He Ha. unfold getApiKey. rewrite He, Ha. cbn [snd deleteApiKey].
    split; reflexivity.
  - intros key item e p clock log Hb He Ha.
    unfold saveApiKey. rewrite Hb. cbn [snd].
    assert (G : getApiKey atob (Some e) = (Some key, Some e))
      by (unfold getApiKey; now rewrite He, Ha).
    split; [reflexivity|]. split; [exact G|].
    intros Hk. unfold envOfItem, getAI. rewrite G. cbn [fst apiKey].
    now rewrite Hk.
  - intros key item Hb. unfold saveApiKey. now rewrite Hb.
Qed.

Variable accepts : JsString -> ProviderResult.

(** X19. The key modal never stores a key the provider did not accept:
    after [handleTestAndSave] the stored item is what it was, unless the
    input is not blank, the test request with that input was answered and
    [btoa] encoded it; then the item is the encoding and the modal reports
    valid.  A blank input is refused without a test; an accepted key that
    [btoa] refuses leaves the modal in the testing state. *)
Theorem handleTestAndSave_stores_accepted_keys input m item :
  let r := handleTestAndSave btoa accepts input m item in
  (snd r = item
   \/ (blank input = false /\ testApiKey accepts input = true
       /\ exists e, btoa input = Some e /\ snd r = Some e
                    /\ fst r = mkModal StatusValid None true))
  /\ (blank input = true ->
      r = (mkModal (status m) (Some KeyRequired) (saved m), item))
  /\ (blank input = false -> testApiKey accepts input = false ->
      r = (mkModal StatusInvalid (Some KeyInvalid) (saved m), item))
  /\ (blank input = false -> testApiKey accepts input = true ->
      btoa input = None ->
      r = (mkModal StatusTesting None (saved m), item)).
Proof.
  cbv zeta. unfold handleTestAndSave, saveApiKey.
  destruct (truthy (trim input)) eqn:Ht; cbn [negb].
  - assert (Hb : blank input = false).
    { destruct (blank input) eqn:E; [|reflexivity].
      apply trim_blank in E. congruence. }
    destruct (testApiKey accepts input) eqn:Ha.
    + destruct (btoa input) as [e|] eqn:Hbt; cbn [fst snd].
      * split; [right; eauto 8|]. repeat split; congruence.
      * split; [now left|]. repeat split; congruence.
    + cbn [fst snd]. split; [now left|]. repeat split; congruence.
  - apply trim_blank in Ht. cbn [fst snd]. split; [now left|].
    repeat split; congruence.
Qed.

End ApiKeyProofs.

(* ===================================================================== *)
(** ** The dashboard: requests and edge cases *)
(* ===================================================================== *)

Example entries_order :
  map fst (entries [(lit "b", 1); (lit "10", 2); (lit "9", 3); (lit "007", 4)])
  = [lit "9"; lit "10"; lit "b"; lit "007"].
Proof. vm_compute. reflexivity. Qed.

(** A conversation under the key [__proto__] is not shown: the loop sets
    the prototype of [latestMoods] and creates no property. *)
Example proto_key_is_not_shown :
  map fst (entries (getAllConversations storeOfProto)) = [lit "__proto__"]
  /\ computeDashboard asciiUpper (envAnswer (lit "red")) storeOfProto []
     = (Ok (mkBuckets [] [] [] []), []).
Proof. split; vm_compute; reflexivity. Qed.

Lemma latestMoods_empty (m : ConvMap) :
  (forall n cs, In (n, cs) m -> cs = []) -> latestMoods m = Ok [].
Proof.
  induction m as [|[k v] m IH]; intros H; simpl; [reflexivity|].
  rewrite (H k v (or_introl eq_refl)). simpl. apply IH.
  intros n cs Hin. apply (H n cs). now right.
Qed.

(** The students the loop takes: those with a conversation whose name is
    not [__proto__], in the order of the enumeration. *)
Lemma latestMoods_names (m : ConvMap) l :
  latestMoods m = Ok l -> map fst l = map fst (filter shown m).
Proof.
  revert l. induction m as [|[k v] m IH]; simpl; intros l.
  - now intros [= <-].
  - destruct v as [|c v].
    + simpl. apply IH.
    + destruct (sortDesc (c :: v)) as [|c' rest] eqn:S;
        [apply sortDesc_nil in S; discriminate|].
      destruct (moodOf (summary c')); [|discriminate].
      destruct (latestMoods m) as [l'|]; [|discriminate].
      intros [= <-]. unfold shown at 1, created. cbn [fst snd isEmpty negb andb].
      destruct (eqb k (lit "__proto__")); cbn [negb app map fst];
        [now apply IH | f_equal; now apply IH].
Qed.

Section DashboardExtras.

Variable toUpperCase : JsString -> JsString.
Variable env : Env.

Local Abbreviation classifyIn := (classify toUpperCase env).

Lemma classify_noKey entry log :
  noKey env ->
  exists c, classifyIn entry log = (Throw CredentialMissing, log ++ [Called c]).
Proof.
  intros H. destruct entry as [n [mood ts]].
  unfold classify, getMoodMeterQuadrant, bind, emit.
  rewrite getAI_noKey by assumption. eauto.
Qed.

Lemma promiseAll_noKey entries : forall log,
  noKey env ->
  exists log',
    promiseAll (map classifyIn entries) log
    = (match entries with
       | [] => Ok []
       | _ => Throw CredentialMissing
       end, log')
    /\ requests log' = requests log.
Proof.
  induction entries as [|entry entries IH]; intros log H; simpl.
  - now exists log.
  - destruct (classify_noKey entry log H) as [c ->].
    destruct (IH (log ++ [Called c]) H) as [log' [-> Hr]].
    exists log'. split; [reflexivity|].
    rewrite Hr, requests_app. simpl. apply app_nil_r.
Qed.

(** X20. The dashboard at its edges.  When no name of the conversation
    store has a conversation, the four buckets come back empty and the
    gateway is not called at all, with or without an API key.  When some
    student (of a name other than [__proto__]) has a conversation and the
    API key is missing, the computation throws without any request to the
    provider, so the dashboard never leaves its loading state: it throws
    the missing-credential error, or, when the latest summary of some
    student is null, the TypeError of reading its mood. *)
Theorem dashboard_edge_cases st log :
  ((forall n cs, In (n, cs) (getAllConversations st) -> cs = []) ->
   computeDashboard toUpperCase env st log = (Ok (mkBuckets [] [] [] []), log))
  /\ (noKey env ->
      forall n cs, In (n, cs) (getAllConversations st) -> cs <> [] ->
      n <> lit "__proto__" ->
      exists e log',
        computeDashboard toUpperCase env st log = (Throw e, log')
        /\ requests log' = requests log
        /\ (e = CredentialMissing \/ e = TypeError)
        /\ ((forall c, In c (persisted st) -> summary c <> JNull) ->
            e = CredentialMissing)).
Proof.
  split.
  - intros H. unfold computeDashboard, fetchMoods, bind.
    rewrite latestMoods_empty; [reflexivity|].
    intros n cs Hin. apply (H n cs). now apply entries_In.
  - intros Hno n cs Hin Hne Hn.
    unfold computeDashboard, fetchMoods, bind.
    destruct (latestMoods (entries (getAllConversations st))) as [latest|e] eqn:L.
    + rewrite (latestMoods_entries _ _ L).
      destruct (promiseAll_noKey latest log Hno) as [log' [-> Hr]].
      destruct latest as [|entry latest].
      * exfalso.
        destruct (sortDesc cs) as [|c rest] eqn:S;
          [apply sortDesc_nil in S; contradiction|].
        apply <- (@entries_In (list Conversation)) in Hin.
        destruct (latestMoods_In _ _ n cs c rest L Hin S Hn) as [mood [_ []]].
      * exists CredentialMissing, log'. auto.
    + exists e, log. unfold throw. rewrite (latestMoods_throws _ _ L).
      repeat split; auto.
      intros Hnn. exfalso.
      destruct (latestMoods_returns (entries (getAllConversations st)))
        as [l E]; [|congruence].
      intros k v c Hk Hc. apply -> (@entries_In (list Conversation)) in Hk.
      apply Hnn. now apply (persisted_In st k v c).
Qed.

End DashboardExtras.

Lemma buckets_partition moods b :
  Forall (fun sm => In (sm_quadrant sm) quadrants) moods ->
  (forall q, In q quadrants ->
     bucket q b = Some (filter (fun sm => eqb (sm_quadrant sm) q) moods)) ->
  (List.length (bYELLOW b) + List.length (bRED b)
   + List.length (bBLUE b) + List.length (bGREEN b))%nat
  = List.length moods.
Proof.
  intros Hall Hb.
  assert (Y : bYELLOW b = filter (fun sm => eqb (sm_quadrant sm) YELLOW) moods).
  { specialize (Hb YELLOW). unfold bucket in Hb. simpl in Hb.
    assert (E : Some (bYELLOW b)
                = Some (filter (fun sm => eqb (sm_quadrant sm) YELLOW) moods))
      by (apply Hb; auto).
    now injection E. }
  assert (R : bRED b = filter (fun sm => eqb (sm_quadrant sm) RED) moods).
  { specialize (Hb RED). unfold bucket in Hb. simpl in Hb.
    assert (E : Some (bRED b)
                = Some (filter (fun sm => eqb (sm_quadrant sm) RED) moods))
      by (apply Hb; auto).
    now injection E. }
  assert (B : bBLUE b = filter (fun sm => eqb (sm_quadrant sm) BLUE) moods).
  { specialize (Hb BLUE). unfold bucket in Hb. simpl in Hb.
    assert (E : Some (bBLUE b)
                = Some (filter (fun sm => eqb (sm_quadrant sm) BLUE) moods))
      by (apply Hb; auto).
    now injection E. }
  assert (G : bGREEN b = filter (fun sm => eqb (sm_quadrant sm) GREEN) moods).
  { specialize (Hb GREEN). unfold bucket in Hb. simpl in Hb.
    assert (E : Some (bGREEN b)
                = Some (filter (fun sm => eqb (sm_quadrant sm) GREEN) moods))
      by (apply Hb; auto 6).
    now injection E. }
  rewrite Y, R, B, G. clear Y R B G Hb.
  induction Hall as [|sm moods Hq Hall IH]; [reflexivity|].
  cbn [filter]. apply quadrants_In in Hq.
  destruct Hq as [-> | [-> | [-> | ->]]]; simpl; lia.
Qed.

(** X21. With the API key set and every stored summary classifiable, the
    dashboard sends exactly one classification request for every student
    that has a conversation and whose name is not [__proto__], in the
    order in which JavaScript enumerates the keys of the conversation store
    (the names that are array indices first, in numeric order, then the
    others in the order in which they were first stored), each with the
    mood of that student's latest summary written into the prompt; it
    returns its buckets, and the four buckets together hold exactly one
    entry per such student. *)
Theorem dashboard_one_request_per_student toUpperCase env st log :
  keySet env ->
  (forall c, In c (persisted st) -> classifiable (summary c) = true) ->
  exists latest b evs,
    latestMoods (entries (getAllConversations st)) = Ok latest
    /\ map fst latest
       = map fst (filter shown (entries (getAllConversations st)))
    /\ computeDashboard toUpperCase env st log = (Ok b, log ++ evs)
    /\ requests evs = map (fun e => QuadrantRequest (promptOf (fst (snd e)))) latest
    /\ calls evs = map (fun e => GetMoodMeterQuadrant (fst (snd e))) latest
    /\ (List.length (bYELLOW b) + List.length (bRED b)
        + List.length (bBLUE b) + List.length (bGREEN b))%nat
       = List.length latest.
Proof.
  intros Hk Hcl.
  destruct (fetchMoods_keySet toUpperCase env st log Hk Hcl)
    as [latest [moods [evs [L [E [HF [Hr Hc]]]]]]].
  assert (Hall : Forall (fun sm => In (sm_quadrant sm) quadrants) moods).
  { apply Forall_forall. intros sm Hsm.
    destruct (Forall2_In_right _ _ _ _ HF Hsm) as [e [_ He]]. apply He. }
  destruct (moodsByQuadrant_buckets moods Hall) as [b [Eb Hb]].
  exists latest, b, evs.
  split; [exact L|]. split; [now apply latestMoods_names|].
  split; [unfold computeDashboard, bind; now rewrite E, Eb|].
  split; [exact Hr|]. split; [exact Hc|].
  rewrite (buckets_partition moods b Hall Hb).
  symmetry. apply (Forall2_length HF).
Qed.

(* ===================================================================== *)
(** ** The session *)
(* ===================================================================== *)

(** X22. The session follows login and logout only.  When [loginUser]
    returns an account, that account is a stored one whose name matches the
    given name up to case and whose hash is the hash of the given password,
    and it becomes the current user; when it throws, nothing changes.
    [signupUser] never touches the session.  [logoutUser] clears the
    session, leaves users and conversations alone, and logging out twice
    is logging out once. *)
Theorem session_follows_login_and_logout toLowerCase n p st :
  (forall u st',
      loginUser toLowerCase n p st = (Ok u, st') ->
      getCurrentUser st' = Some u
      /\ In u (getAllUsers st)
      /\ toLowerCase (name u) = toLowerCase n
      /\ passwordHash u = simpleHash p
      /\ ls_users st' = ls_users st
      /\ ls_conversations st' = ls_conversations st)
  /\ (forall e st', loginUser toLowerCase n p st = (Throw e, st') ->
        e = InvalidCredentials /\ st' = st)
  /\ getCurrentUser (snd (signupUser toLowerCase n p st)) = getCurrentUser st
  /\ getCurrentUser (logoutUser st) = None
  /\ logoutUser (logoutUser st) = logoutUser st
  /\ ls_users (logoutUser st) = ls_users st
  /\ ls_conversations (logoutUser st) = ls_conversations st.
Proof.
  split; [|split; [|split; [|repeat split]]].
  - intros u st'. unfold loginUser.
    destruct (find _ _) as [x|] eqn:F; [|discriminate].
    destruct (eqb (passwordHash x) (simpleHash p)) eqn:E; cbn [negb];
      [|discriminate].
    intros [= <- <-]. apply find_some in F as [Hin S].
    apply eqb_eq in S. apply eqb_eq in E. repeat split; auto.
  - intros e st'. unfold loginUser.
    destruct (find _ _) as [x|]; [|now intros [= <- <-]].
    destruct (negb _); [now intros [= <- <-] | discriminate].
  - unfold signupUser. now destruct (existsb _ _).
Qed.

(* ===================================================================== *)
(** ** Concrete instances of the further properties *)
(* ===================================================================== *)

Lemma simpleHash_injective_on_passwords_witness :
  validatePassword (lit "0042") = true
  /\ lit "0042" = asciiLower (lit "0042").
Proof.
  split; [reflexivity|].
  apply simpleHash_injective_on_passwords; reflexivity.
Defined.

Lemma saveConversation_getConversations_witness :
  saveConversation (lit "constructor")
                   (mkConversation (lit "conv_1") 1 [] JNull) emptyStorage
  = (Throw TypeError, emptyStorage)
  /\ getConversations (name bob)
       (snd (saveConversation (name bob)
               (mkConversation (lit "conv_1") 1 [] JNull) emptyStorage))
     = ConversationList
         (map written [] ++ [written (mkConversation (lit "conv_1") 1 [] JNull)]).
Proof.
  split.
  - apply (proj1 (proj2 (saveConversation_getConversations (lit "constructor")
                           (mkConversation (lit "conv_1") 1 [] JNull) emptyStorage))).
    reflexivity.
  - assert (G : getConversations (name bob) emptyStorage = ConversationList [])
      by (vm_compute; reflexivity).
    destruct (proj1 (saveConversation_getConversations (name bob)
                       (mkConversation (lit "conv_1") 1 [] JNull) emptyStorage)
                    [] G) as [_ [H _]].
    exact H.
Defined.


Lemma dashboard_takes_top_of_history_witness :
  exists cs, In (name bob, cs) (getAllConversations twoStudents)
             /\ historyList (name bob) twoStudents = Ok (sortDesc cs).
Proof.
  assert (Hnd : NoDup (map fst (getAllConversations twoStudents))).
  { vm_compute. constructor; [intros [] | constructor]. }
  assert (Hin : exists cs, In (name bob, cs) (getAllConversations twoStudents)).
  { vm_compute. eexists. left. reflexivity. }
  destruct Hin as [cs Hin]. exists cs. split; [exact Hin|].
  exact (proj1 (dashboard_takes_top_of_history twoStudents (name bob) cs Hnd Hin)).
Defined.

Lemma no_key_no_request_witness :
  getMoodMeterQuadrant asciiUpper envNoKey (stringValue (lit "sad")) []
  = (Throw CredentialMissing,
     [] ++ [Called (GetMoodMeterQuadrant (stringValue (lit "sad")))]).
Proof.
  assert (H : noKey envNoKey) by (intros k Hk; discriminate Hk).
  exact (proj1 (proj2 (no_key_no_request asciiUpper JsonText.parse envNoKey H))
               (stringValue (lit "sad")) []).
Defined.

Lemma chat_operations_with_key_witness :
  keySet (envAnswer (lit " hi "))
  /\ fst (getChatResponse (envAnswer (lit " hi ")) [mkMessage user (lit "a")] [])
     = Ok (lit "hi").
Proof.
  assert (H : keySet (envAnswer (lit " hi ")))
    by (exists (lit "key"); split; reflexivity).
  split; [exact H|].
  rewrite (proj1 (chat_operations_with_key (envAnswer (lit " hi "))
                    [mkMessage user (lit "a")] [] H)).
  vm_compute. reflexivity.
Defined.

Lemma summary_operation_with_key_witness :
  fst (getFinalSummary JsonText.parse (envAnswer (lit " null ")) [] []) = Ok JNull
  /\ fst (getFinalSummary JsonText.parse (envAnswer (lit "calm")) [] [])
     = Throw SummaryError.
Proof.
  assert (H : forall t, keySet (envAnswer t))
    by (intros t; exists (lit "key"); split; reflexivity).
  rewrite (summary_operation_with_key JsonText.parse (envAnswer (lit " null "))
             [] [] (H _)).
  rewrite (summary_operation_with_key JsonText.parse (envAnswer (lit "calm"))
             [] [] (H _)).
  split; vm_compute; reflexivity.
Defined.

Lemma blank_input_is_ignored_witness :
  blank (lit "   ") = true
  /\ ChatView.send JsonText.parse (envAnswer (lit "ok")) bob (lit "   ")
                   (ChatView.initialChat bob) emptyStorage []
     = (ChatView.setUserInput (lit "   ") (ChatView.initialChat bob),
        emptyStorage, []).
Proof.
  split; [reflexivity|]. apply blank_input_is_ignored. reflexivity.
Defined.

Lemma turn_count_counts_answers_witness :
  Z.of_nat (countAi (ChatView.messages afterOneTurn))
  = ChatView.turnCount afterOneTurn + 1.
Proof.
  apply (turn_count_counts_answers asciiLower JsonText.parse
           [OpenChat bob; Send envAngry (lit "a")] bob afterOneTurn).
  vm_compute. reflexivity.
Defined.

Lemma changeTeacherPassword_effect_witness :
  fst (changeTeacherPassword (lit "0000") (lit "1234") None) = Done tt
  /\ fst (verifyTeacherPassword (lit "0000")
            (snd (changeTeacherPassword (lit "0000") (lit "1234") None)))
     = false.
Proof.
  destruct (proj1 (proj2 (changeTeacherPassword_effect (lit "0000") (lit "1234") None)))
    as [H1 [_ [_ H4]]].
  - reflexivity.
  - split; [exact H1|]. apply H4; [reflexivity | reflexivity |].
    vm_compute. discriminate.
Defined.

Lemma reset_then_login_witness :
  loginUser asciiLower (lit "BOB") (lit "0000")
    (snd (handleResetPassword (name bob)
            (storage (run asciiLower JsonText.parse
                          [Signup (lit "Bob") (lit "1234")] initialSystem))))
  = (Ok (mkUser (name bob) (simpleHash (lit "0000"))),
     mkStorage
       (ls_users (snd (handleResetPassword (name bob)
            (storage (run asciiLower JsonText.parse
                          [Signup (lit "Bob") (lit "1234")] initialSystem)))))
       (ls_conversations (snd (handleResetPassword (name bob)
            (storage (run asciiLower JsonText.parse
                          [Signup (lit "Bob") (lit "1234")] initialSystem)))))
       (Some (mkUser (name bob) (simpleHash (lit "0000"))))).
Proof.
  assert (H1 : nth_error
                 (getAllUsers (storage (run asciiLower JsonText.parse
                                 [Signup (lit "Bob") (lit "1234")] initialSystem)))
                 0 = Some bob) by (vm_compute; reflexivity).
  assert (H2 : asciiLower (lit "BOB") = asciiLower (name bob))
    by (vm_compute; reflexivity).
  exact (proj1 (proj2 (proj2
           (reset_then_login asciiLower JsonText.parse
              [Signup (lit "Bob") (lit "1234")] 0 bob (lit "BOB") H1 H2)))).
Defined.

Lemma form_login_iff_password_witness :
  exists p, validatePassword p = true /\ passwordHash bob = simpleHash p.
Proof.
  assert (H : In bob (getAllUsers (uiRun asciiLower
                        [SubmitAuth false (lit "Bob") (lit "1234")] emptyStorage)))
    by (vm_compute; left; reflexivity).
  destruct (form_login_iff_password asciiLower JsonText.parse
              [SubmitAuth false (lit "Bob") (lit "1234")] bob H)
    as [p [Hp [Hh _]]].
  exists p. split; assumption.
Defined.

Lemma getApiKey_after_saveApiKey_witness :
  getApiKey atobCanonical (snd (saveApiKey btoaLatin1 (lit "key") None))
  = (Some (lit "key"), Some (lit "a2V5")).
Proof.
  assert (H1 : btoaLatin1 (lit "key") = Some (lit "a2V5"))
    by (vm_compute; reflexivity).
  assert (H2 : truthy (lit "a2V5") = true) by reflexivity.
  assert (H3 : atobCanonical (lit "a2V5") = Some (lit "key"))
    by (vm_compute; reflexivity).
  exact (proj1 (proj2
           (proj1 (proj2 (proj2 (getApiKey_after_saveApiKey btoaLatin1 atobCanonical)))
                  (lit "key") None (lit "a2V5") (fun _ _ => Rejected) (fun _ => 0) []
                  H1 H2 H3))).
Defined.

Lemma handleTestAndSave_stores_accepted_keys_witness :
  handleTestAndSave btoaLatin1 acceptsKey (lit "wrong")
                    (mkModal StatusIdle None false) None
  = (mkModal StatusInvalid (Some KeyInvalid) false, None).
Proof.
  apply (proj1 (proj2 (proj2
           (handleTestAndSave_stores_accepted_keys btoaLatin1 acceptsKey
              (lit "wrong") (mkModal StatusIdle None false) None))));
    reflexivity.
Defined.

Lemma dashboard_edge_cases_witness :
  computeDashboard asciiUpper envNoKey emptyStorage []
  = (Ok (mkBuckets [] [] [] []), []).
Proof.
  apply (proj1 (dashboard_edge_cases asciiUpper envNoKey emptyStorage [])).
  intros n cs [].
Defined.

Lemma dashboard_one_request_per_student_witness :
  exists latest b evs,
    latestMoods (entries (getAllConversations twoStudents)) = Ok latest
    /\ computeDashboard asciiUpper (envAnswer (lit "red")) twoStudents []
       = (Ok b, [] ++ evs)
    /\ requests evs
       = map (fun e => QuadrantRequest (promptOf (fst (snd e)))) latest.
Proof.
  assert (H : keySet (envAnswer (lit "red")))
    by (exists (lit "key"); split; reflexivity).
  assert (Hcl : forall c, In c (persisted twoStudents) ->
                          classifiable (summary c) = true).
  { apply (proj1 (forallb_forall (fun c => classifiable (summary c))
                                 (persisted twoStudents))).
    vm_compute. reflexivity. }
  destruct (dashboard_one_request_per_student asciiUpper (envAnswer (lit "red"))
              twoStudents [] H Hcl)
    as [latest [b [evs [L [_ [E [Hr _]]]]]]].
  exists latest, b, evs. auto.
Defined.
